(** * PeerBeam: signaling server, mesh peer manager and broadcast peer manager

    A shallow embedding of
    - [server/index.js]             (module [Server]),
    - [src/lib/MeshPeerManager.ts]  (module [Mesh]),
    - [PeerManager.ts]              (module [Local]),
    - the popup's [joinRoom]        (module [Popup]),
    together with the properties of the signaling protocol.

    Every event handler is one function from the state before the event to
    the state after it and the list of calls it made on the outside world
    (socket sends, connection primitives, callbacks), in program order.
    The handlers of [MeshPeerManager.ts] that await operations of a
    connection are given a second time in [MeshAsync], cut at their awaits,
    for the runs in which they overlap. *)

From Stdlib Require Import String Ascii List Bool Arith Lia.
From stdpp Require Import base option list gmap strings.
Import ListNotations.

Open Scope string_scope.
Open Scope list_scope.

(** ** ECMAScript [Map]: keyed lookup with iteration in insertion order *)

Module JsMap.
Section Ops.
Context {K V : Type} `{EqDecision K}.

Fixpoint get (m : list (K * V)) (k : K) : option V :=
  match m with
  | [] => None
  | (k', v) :: r => if decide (k' = k) then Some v else get r k
  end.

Definition has (m : list (K * V)) (k : K) : bool :=
  match get m k with Some _ => true | None => false end.

(** [set] on a present key keeps the entry's position. *)
Fixpoint set (m : list (K * V)) (k : K) (v : V) : list (K * V) :=
  match m with
  | [] => [(k, v)]
  | (k', v') :: r =>
      if decide (k' = k) then (k, v) :: r else (k', v') :: set r k v
  end.

(** A [Map] holds a key at most once; [delete] leaves no entry for [k]. *)
Definition delete (m : list (K * V)) (k : K) : list (K * V) :=
List.filter (fun e => negb (bool_decide (fst e = k))) m.

(** In-place mutation of the object stored under [k]. *)
Fixpoint alter (f : V -> V) (m : list (K * V)) (k : K) : list (K * V) :=
  match m with
  | [] => []
  | (k', v') :: r =>
      if decide (k' = k) then (k', f v') :: r else (k', v') :: alter f r k
  end.

Definition keys (m : list (K * V)) : list K := map fst m.
Definition values (m : list (K * V)) : list V := map snd m.
Definition size (m : list (K * V)) : nat := length m.
End Ops.
End JsMap.

(** ** The signaling server ([server/index.js]) *)

Module Server.

(** The fields the server reads from a parsed message ([roomId], [peerId],
    [peerName], [to]) are JSON strings, [null], or absent ([undefined]). *)
Inductive JsVal := JUndefined | JNull | JStr (s : string).

#[global] Instance JsVal_eq_dec : EqDecision JsVal.
Proof. solve_decision. Defined.

(** Truthiness, as tested by [currentRoom && ...]. *)
Definition truthy (v : JsVal) : bool :=
  match v with
  | JStr s => negb (String.eqb s "")
  | _ => false
  end.

(** A socket is named by a number; [readyState === 1] is read from the
    environment through [ready]. *)
Definition Socket := nat.

(** The object [{ ws, peerId, peerName }]; [obj] is its identity (the [Set]
    of a room holds objects, compared by reference). *)
Record PeerInfo := mkPeerInfo {
  ws : Socket;
  peerId : JsVal;
  peerName : JsVal;
  obj : nat
}.

(** [rooms]: [Map] from room id to a [Set] of peer objects, both in
    insertion order. *)
Definition Room := list PeerInfo.
Definition Rooms := list (JsVal * Room).

Definition set_delete (o : nat) (room : Room) : Room :=
  List.filter (fun p => negb (Nat.eqb (obj p) o)) room.

(** [room.add(peerInfo)] is only called on the object just allocated, which
    no set holds yet: it is appended. *)
Definition set_add (p : PeerInfo) (room : Room) : Room := room ++ [p].

Inductive RelayType := Offer | Answer | IceCandidate.

(** A parsed inbound message. [rest] stands for the fields the server does
    not read. *)
Inductive Message :=
| Join (roomId pid pname : JsVal)
| Relay (ty : RelayType) (to : JsVal) (rest : string)
| Broadcast (rest : string)
| GetRooms
| Other (rest : string).

Record RoomSummary := mkSummary {
  id : JsVal;
  peerCount : nat;
  peers : list (JsVal * JsVal)
}.

(** What the server passes to [JSON.stringify] and sends. [Forward m] is the
    parsed inbound message [m] itself. *)
Inductive Frame :=
| RoomJoined (roomId : JsVal) (existingPeers : list (JsVal * JsVal))
| PeerJoined (pid pname : JsVal)
| PeerLeft (pid pname : JsVal)
| Forward (m : Message)
| RoomsList (l : list RoomSummary).

Definition Sends := list (Socket * Frame).

(** The variables closed over by one connection's handlers. *)
Record Conn := mkConn {
  currentRoom : JsVal;
  peerInfo : option PeerInfo
}.

Record State := mkState {
  rooms : Rooms;
  conns : list (Socket * Conn);
  nextObj : nat
}.

Definition init : State := mkState [] [] 0.

Section Handlers.
Variable ready : Socket -> bool.

Definition broadcastToRoom (rs : Rooms) (roomId : JsVal) (message : Frame)
    (excludeWs : option Socket) : Sends :=
  match JsMap.get rs roomId with
  | None => []
  | Some room =>
      map (fun p => (ws p, message))
        (List.filter
           (fun p => negb (bool_decide (Some (ws p) = excludeWs)) && ready (ws p))
           room)
  end.

Definition peerList (room : Room) : list (JsVal * JsVal) :=
  map (fun p => (peerId p, peerName p)) room.

Definition roomList (rs : Rooms) : list RoomSummary :=
  map (fun '(roomId, ps) => mkSummary roomId (length ps) (peerList ps)) rs.

(** [case 'join'] *)
Definition join (rs : Rooms) (fresh : nat) (w : Socket) (c : Conn)
    (roomId pid pname : JsVal) : Rooms * Conn * Sends :=
  (* Leave current room if any *)
  let left :=
    if truthy (currentRoom c) && JsMap.has rs (currentRoom c) then
      match peerInfo c with
      | Some old =>
          let rs1 := JsMap.alter (set_delete (obj old)) rs (currentRoom c) in
          Some (rs1,
                broadcastToRoom rs1 (currentRoom c)
                  (PeerLeft (peerId old) (peerName old)) (Some w))
      | None => None (* reading [peerInfo.peerId] throws, and the handler catches it *)
      end
    else Some (rs, [])
  in
  match left with
  | None => (rs, c, [])
  | Some (rs1, out1) =>
      (* Join new room *)
      let info := mkPeerInfo w pid pname fresh in
      let c' := mkConn roomId (Some info) in
      let rs2 := if JsMap.has rs1 roomId then rs1 else JsMap.set rs1 roomId [] in
      let room := default [] (JsMap.get rs2 roomId) in
      let out2 := [(w, RoomJoined roomId (peerList room))] in
      let out3 := broadcastToRoom rs2 roomId (PeerJoined pid pname) (Some w) in
      let rs3 := JsMap.alter (set_add info) rs2 roomId in
      (rs3, c', out1 ++ out2 ++ out3)
  end.

(** [case 'offer': case 'answer': case 'ice-candidate'] *)
Definition relay (rs : Rooms) (c : Conn) (message : Message) (to : JsVal) : Sends :=
  match JsMap.get rs (currentRoom c) with
  | Some room =>
      match List.find (fun peer => bool_decide (peerId peer = to)) room with
      | Some peer => [(ws peer, Forward message)]
      | None => []
      end
  | None => []
  end.

(** [ws.on('message')]; [data = None] is a frame [JSON.parse] rejects. *)
Definition onMessage (st : State) (w : Socket) (data : option Message) : State * Sends :=
  match JsMap.get (conns st) w, data with
  | Some c, Some message =>
      match message with
      | Join roomId pid pname =>
          let '(rs, c', out) := join (rooms st) (nextObj st) w c roomId pid pname in
          (mkState rs (JsMap.set (conns st) w c') (S (nextObj st)), out)
      | Relay _ to _ => (st, relay (rooms st) c message to)
      | Broadcast _ =>
          (st, broadcastToRoom (rooms st) (currentRoom c) (Forward message) (Some w))
      | GetRooms => (st, [(w, RoomsList (roomList (rooms st)))])
      | Other _ => (st, [])
      end
  | _, _ => (st, [])
  end.

(** [ws.on('close')] *)
Definition onClose (st : State) (w : Socket) : State * Sends :=
  match JsMap.get (conns st) w with
  | Some c =>
      let conns' := JsMap.delete (conns st) w in
      match peerInfo c with
      | Some info =>
          if truthy (currentRoom c) && JsMap.has (rooms st) (currentRoom c) then
            let rs1 := JsMap.alter (set_delete (obj info)) (rooms st) (currentRoom c) in
            let out :=
              broadcastToRoom rs1 (currentRoom c)
                (PeerLeft (peerId info) (peerName info)) None in
            (* Clean up empty rooms *)
            let rs2 :=
              match JsMap.get rs1 (currentRoom c) with
              | Some [] => JsMap.delete rs1 (currentRoom c)
              | _ => rs1
              end in
            (mkState rs2 conns' (nextObj st), out)
          else (mkState (rooms st) conns' (nextObj st), [])
      | None => (mkState (rooms st) conns' (nextObj st), [])
      end
  | None => (st, [])
  end.

(** [wss.on('connection')] *)
Definition onConnection (st : State) (w : Socket) : State :=
  if JsMap.has (conns st) w then st (* a socket connects once *)
  else mkState (rooms st) (JsMap.set (conns st) w (mkConn JNull None)) (nextObj st).
End Handlers.

(** *** The HTTP endpoint *)

#[local] Unset Elimination Schemes.
Inductive Json :=
| Jnull
| Jnum (n : nat)
| Jstr (s : string)
| Jarr (l : list Json)
| Jobj (fields : list (string * Json)).
#[local] Set Elimination Schemes.

(** [JSON.stringify] leaves out a property whose value is [undefined]. *)
Definition prop (k : string) (v : JsVal) : list (string * Json) :=
  match v with
  | JUndefined => []
  | JNull => [(k, Jnull)]
  | JStr s => [(k, Jstr s)]
  end.

Definition field (k : string) (j : Json) : option Json :=
  match j with
  | Jobj fields => JsMap.get fields k
  | _ => None
  end.

Inductive Body := NoBody | JsonBody (j : Json) | TextBody (s : string).

Record Request := mkRequest { method : string; url : string }.
Record Response := mkResponse {
  status : nat;
  headers : list (string * string);
  body : Body
}.

Definition cors : list (string * string) :=
  [("Access-Control-Allow-Origin", "*");
   ("Access-Control-Allow-Methods", "GET, OPTIONS");
   ("Access-Control-Allow-Headers", "Content-Type")].

Definition summaryJson (roomId : JsVal) (ps : Room) : Json :=
  Jobj (prop "id" roomId ++
        [("peerCount", Jnum (length ps));
         ("peers", Jarr (map (fun p => Jobj (prop "id" (peerId p) ++ prop "name" (peerName p))) ps))]).

Definition httpServer (rs : Rooms) (req : Request) : Response :=
  if String.eqb (method req) "OPTIONS" then mkResponse 200 cors NoBody
  else if String.eqb (url req) "/health" then
    mkResponse 200 (cors ++ [("Content-Type", "application/json")])
      (JsonBody (Jobj [("status", Jstr "ok"); ("rooms", Jnum (JsMap.size rs))]))
  else if String.eqb (url req) "/rooms" then
    mkResponse 200 (cors ++ [("Content-Type", "application/json")])
      (JsonBody (Jarr (map (fun '(roomId, ps) => summaryJson roomId ps) rs)))
  else mkResponse 404 cors (TextBody "Not found").

(** *** Runs of the server *)

Inductive Event :=
| Connection (w : Socket)
| Incoming (w : Socket) (data : option Message)
| Close (w : Socket).

Definition step (ready : Socket -> bool) (st : State) (e : Event) : State * Sends :=
  match e with
  | Connection w => (onConnection st w, [])
  | Incoming w data => onMessage ready st w data
  | Close w => onClose ready st w
  end.

(** A run: each event comes with the sockets' ready states at that moment. *)
Fixpoint run (st : State) (es : list ((Socket -> bool) * Event)) : State * Sends :=
  match es with
  | [] => (st, [])
  | (ready, e) :: es' =>
      let '(st1, out1) := step ready st e in
      let '(st2, out2) := run st1 es' in
      (st2, out1 ++ out2)
  end.

End Server.

(** ** The connection primitives both managers drive *)

Module Rtc.

(** Session descriptions and ICE candidates are opaque payloads. *)
Definition Sdp := string.
Definition Candidate := string.

(** [interface Message], the chat payload. *)
Record Message := mkMessage {
  msgId : string;
  sender : string;
  senderName : string;
  text : string;
  timestamp : nat
}.

(** [RTCDataChannel.readyState] and [RTCPeerConnection.connectionState]. *)
Inductive ReadyState := ChConnecting | ChOpen | ChClosing | ChClosed.

#[global] Instance ReadyState_eq_dec : EqDecision ReadyState.
Proof. solve_decision. Defined.

Inductive ConnectionState :=
  CsNew | CsConnecting | CsConnected | CsDisconnected | CsFailed | CsClosed.

(** The part of an [RTCPeerConnection] the managers read or drive:
    the two descriptions and the candidates handed to [addIceCandidate],
    oldest first. The primitives are taken to succeed. *)
Record RTCPeerConnection := mkPc {
  localDescription : option Sdp;
  remoteDescription : option Sdp;
  candidates : list Candidate
}.

Definition setLocalDescription (d : Sdp) (c : RTCPeerConnection) :=
  mkPc (Some d) (remoteDescription c) (candidates c).
Definition setRemoteDescription (d : Sdp) (c : RTCPeerConnection) :=
  mkPc (localDescription c) (Some d) (candidates c).
Definition addIceCandidate (x : Candidate) (c : RTCPeerConnection) :=
  mkPc (localDescription c) (remoteDescription c) (candidates c ++ [x]).

End Rtc.

(** ** The mesh peer manager ([src/lib/MeshPeerManager.ts]) *)

Module Mesh.

Import Rtc.

Record PeerInfo := mkPeerInfo {
  infoId : string;
  infoName : string;
  infoConnected : bool
}.

Inductive WsState := CONNECTING | OPEN | CLOSING | CLOSED.

(** [interface PeerConnection]. [obj] is the identity of the object: the
    handlers installed on its [pc] and channel keep a reference to it after
    the map has dropped or replaced it. *)
Record PeerConnection := mkPeer {
  id : string;
  name : string;
  pc : RTCPeerConnection;
  channel : option ReadyState;
  connected : bool;
  obj : nat
}.

Record State := mkState {
  peerId : string;
  peerName : string;
  roomId : string;
  ws : option WsState;
  peers : list (string * PeerConnection);
  pendingCandidates : gmap string (list Candidate);
  nextObj : nat
}.

(** Messages sent to the signaling server. *)
Inductive Envelope :=
| Join (room pid pname : string)
| GetRooms
| Offer (from fromName to : string) (offer : Sdp)
| Answer (from fromName to : string) (answer : Sdp)
| IceCandidate (from to : string) (candidate : Candidate).

(** Messages received from the signaling server. *)
Inductive Signal :=
| RoomJoined (room : string) (members : list (string * string))
| PeerJoined (pid pname : string)
| PeerLeft (pid pname : string)
| SOffer (from fromName : string) (offer : Sdp)
| SAnswer (from : string) (answer : Sdp)
| SIceCandidate (from : string) (candidate : Candidate)
| RoomsList (summary : string)
| Unknown.

(** Calls on the outside world, in program order. A callback entry stands
    for the invocation of the callback when one is registered. *)
Inductive Effect :=
| WsSend (e : Envelope)
| WsClose
| NewPeerConnection (o : nat)
| CreateDataChannel (o : nat)
| CreateOffer (o : nat)
| CreateAnswer (o : nat)
| SetLocalDescription (o : nat) (d : Sdp)
| SetRemoteDescription (o : nat) (d : Sdp)
| AddIceCandidate (o : nat) (c : Candidate)
| ChannelSend (o : nat) (payload : Message)
| ChannelClose (o : nat)
| PcClose (o : nat)
| OnRoomJoined (room : string) (members : list (string * string))
| OnPeerJoin (pid pname : string)
| OnPeerLeave (pid pname : string)
| OnConnectionChange (l : list PeerInfo)
| OnRoomsList (summary : string)
| OnMessage (m : Message).

Definition set_peers (st : State) (ps : list (string * PeerConnection)) : State :=
  mkState (peerId st) (peerName st) (roomId st) (ws st) ps
          (pendingCandidates st) (nextObj st).

Definition set_pending (st : State) (q : gmap string (list Candidate)) : State :=
  mkState (peerId st) (peerName st) (roomId st) (ws st) (peers st) q (nextObj st).

Definition set_roomId (st : State) (r : string) : State :=
  mkState (peerId st) (peerName st) r (ws st) (peers st)
          (pendingCandidates st) (nextObj st).

(** Field updates of the objects. *)
Definition with_pc (f : RTCPeerConnection -> RTCPeerConnection) (p : PeerConnection) :=
  mkPeer (id p) (name p) (f (pc p)) (channel p) (connected p) (obj p).
Definition with_channel (c : option ReadyState) (p : PeerConnection) :=
  mkPeer (id p) (name p) (pc p) c (connected p) (obj p).
Definition with_connected (b : bool) (p : PeerConnection) :=
  mkPeer (id p) (name p) (pc p) (channel p) b (obj p).

(** Mutation of the object with identity [o], wherever the map holds it. *)
Definition mutate (o : nat) (f : PeerConnection -> PeerConnection)
    (ps : list (string * PeerConnection)) : list (string * PeerConnection) :=
  map (fun '(k, p) => if Nat.eqb (obj p) o then (k, f p) else (k, p)) ps.

Section Manager.
(** What [createOffer] and [createAnswer] of the connection with identity
    [o] produce. *)
Variable createOffer : nat -> Sdp.
Variable createAnswer : nat -> Sdp.

(** [private send] *)
Definition send (st : State) (e : Envelope) : list Effect :=
  match ws st with
  | Some OPEN => [WsSend e]
  | _ => []
  end.

Definition peerList (st : State) : list PeerInfo :=
  map (fun p => mkPeerInfo (id p) (name p) (connected p)) (JsMap.values (peers st)).

Definition notifyConnectionChange (st : State) : list Effect :=
  [OnConnectionChange (peerList st)].

Definition createPeerConnection (st : State) (remotePeerId remotePeerName : string)
    (offering : bool) : State * PeerConnection * list Effect :=
  let o := nextObj st in
  let peerConn := mkPeer remotePeerId remotePeerName (mkPc None None []) None false o in
  if offering then
    let offer := createOffer o in
    let peerConn' :=
      with_pc (setLocalDescription offer) (with_channel (Some ChConnecting) peerConn) in
    let st' :=
      mkState (peerId st) (peerName st) (roomId st) (ws st)
              (JsMap.set (peers st) remotePeerId peerConn')
              (pendingCandidates st) (S o) in
    (st', peerConn',
     [NewPeerConnection o; CreateDataChannel o; CreateOffer o;
      SetLocalDescription o offer]
     ++ send st (Offer (peerId st) (peerName st) remotePeerId offer))
  else
    let st' :=
      mkState (peerId st) (peerName st) (roomId st) (ws st)
              (JsMap.set (peers st) remotePeerId peerConn)
              (pendingCandidates st) (S o) in
    (st', peerConn, [NewPeerConnection o]).

(** The loop applying the pending candidates of [fromId] to its record. *)
Definition drain (st : State) (fromId : string) (o : nat) : State * list Effect :=
  let pending := default [] (pendingCandidates st !! fromId) in
  let ps :=
    JsMap.alter
      (with_pc (fun c => fold_left (fun c x => addIceCandidate x c) pending c))
      (peers st) fromId in
  (set_pending (set_peers st ps) (base.delete fromId (pendingCandidates st)),
   map (AddIceCandidate o) pending).

Definition handleOffer (st : State) (fromId fromName : string) (offer : Sdp)
    : State * list Effect :=
  let '(st1, peer, eff1) :=
    match JsMap.get (peers st) fromId with
    | Some peer => (st, peer, [])
    | None => createPeerConnection st fromId fromName false
    end in
  let o := obj peer in
  let st2 :=
    set_peers st1 (JsMap.alter (with_pc (setRemoteDescription offer)) (peers st1) fromId) in
  (* Apply any pending ICE candidates *)
  let '(st3, eff3) := drain st2 fromId o in
  let answer := createAnswer o in
  let st4 :=
    set_peers st3 (JsMap.alter (with_pc (setLocalDescription answer)) (peers st3) fromId) in
  (st4,
   eff1 ++ [SetRemoteDescription o offer] ++ eff3
   ++ [CreateAnswer o; SetLocalDescription o answer]
   ++ send st (Answer (peerId st) (peerName st) fromId answer)).

Definition handleAnswer (st : State) (fromId : string) (answer : Sdp)
    : State * list Effect :=
  match JsMap.get (peers st) fromId with
  | Some peer =>
      let st2 :=
        set_peers st (JsMap.alter (with_pc (setRemoteDescription answer)) (peers st) fromId) in
      (* Apply any pending ICE candidates *)
      let '(st3, eff3) := drain st2 fromId (obj peer) in
      (st3, [SetRemoteDescription (obj peer) answer] ++ eff3)
  | None => (st, [])
  end.

Definition enqueue (st : State) (fromId : string) (candidate : Candidate) : State :=
  set_pending st
    (<[fromId := default [] (pendingCandidates st !! fromId) ++ [candidate]]>
       (pendingCandidates st)).

Definition handleIceCandidate (st : State) (fromId : string) (candidate : Candidate)
    : State * list Effect :=
  match JsMap.get (peers st) fromId with
  | Some peer =>
      match remoteDescription (pc peer) with
      | Some _ =>
          (set_peers st (JsMap.alter (with_pc (addIceCandidate candidate)) (peers st) fromId),
           [AddIceCandidate (obj peer) candidate])
      | None =>
          (* Queue candidate if remote description not set yet *)
          (enqueue st fromId candidate, [])
      end
  | None => (enqueue st fromId candidate, [])
  end.

Definition closeHandles (peer : PeerConnection) : list Effect :=
  match channel peer with
  | Some _ => [ChannelClose (obj peer); PcClose (obj peer)]
  | None => [PcClose (obj peer)]
  end.

Definition removePeer (st : State) (pid : string) : State * list Effect :=
  match JsMap.get (peers st) pid with
  | Some peer =>
      let st' := set_peers st (JsMap.delete (peers st) pid) in
      (st', closeHandles peer ++ notifyConnectionChange st')
  | None => (st, [])
  end.

(** The loop of [case "room-joined"]. *)
Fixpoint connectAll (st : State) (members : list (string * string))
    : State * list Effect :=
  match members with
  | [] => (st, [])
  | (pid, pname) :: rest =>
      let '(st1, _, eff1) := createPeerConnection st pid pname true in
      let '(st2, eff2) := connectAll st1 rest in
      (st2, eff1 ++ eff2)
  end.

Definition handleSignal (st : State) (signal : Signal) : State * list Effect :=
  match signal with
  | RoomJoined room members =>
      let st0 := set_roomId st room in
      (* Create connections to existing peers *)
      let '(st1, eff) := connectAll st0 members in
      (st1, OnRoomJoined room members :: eff)
  | PeerJoined pid pname =>
      (* New peer joined, wait for their offer *)
      (st, [OnPeerJoin pid pname])
  | PeerLeft pid pname =>
      let '(st1, eff) := removePeer st pid in
      (st1, eff ++ [OnPeerLeave pid pname])
  | SOffer from fromName offer => handleOffer st from fromName offer
  | SAnswer from answer => handleAnswer st from answer
  | SIceCandidate from candidate => handleIceCandidate st from candidate
  | RoomsList summary => (st, [OnRoomsList summary])
  | Unknown => (st, [])
  end.

(** *** Events of the connection and of the channel

    [o] is the object the handler closes over. *)

Definition onconnectionstatechange (st : State) (o : nat) (state : ConnectionState)
    : State * list Effect :=
  match state with
  | CsConnected =>
      let st' := set_peers st (mutate o (with_connected true) (peers st)) in
      (st', notifyConnectionChange st')
  | CsDisconnected | CsFailed | CsClosed =>
      let st' := set_peers st (mutate o (with_connected false) (peers st)) in
      (st', notifyConnectionChange st')
  | _ => (st, [])
  end.

Definition ondatachannel (st : State) (o : nat) (rs : ReadyState) : State :=
  set_peers st (mutate o (with_channel (Some rs)) (peers st)).

(** The ready state of a channel is the channel's own: the platform changes
    it, the handlers of the channel do not. [readyStateChange] is such a
    change for the channel the object [o] holds at the time. *)
Definition readyStateChange (st : State) (o : nat) (rs : ReadyState) : State :=
  set_peers st
    (mutate o (fun p => with_channel (option_map (fun _ => rs) (channel p)) p) (peers st)).

(** [peer.channel.onopen] and [peer.channel.onclose], as installed by
    [setupDataChannel(peer)]: they close over the record, not over the
    channel, and keep running for a channel that [ondatachannel] has since
    replaced in the record. *)
Definition channel_onopen (st : State) (o : nat) : State * list Effect :=
  let st' := set_peers st (mutate o (with_connected true) (peers st)) in
  (st', notifyConnectionChange st').

Definition channel_onclose (st : State) (o : nat) : State * list Effect :=
  let st' := set_peers st (mutate o (with_connected false) (peers st)) in
  (st', notifyConnectionChange st').

(** *** Public API *)

Definition joinRoom (st : State) (room : string) : State * list Effect :=
  (set_roomId st room, send st (Join room (peerId st) (peerName st))).

Definition getRooms (st : State) : list Effect := send st GetRooms.

Definition isOpen (p : PeerConnection) : bool :=
  match channel p with
  | Some ChOpen => true
  | _ => false
  end.

(** [generateId()] and [Date.now()] are read from the environment. *)
Definition sendMessage (st : State) (freshId : string) (now : nat) (txt : string)
    : Message * list Effect :=
  let message := mkMessage freshId (peerId st) (peerName st) txt now in
  (message,
   map (fun p => ChannelSend (obj p) message)
       (List.filter isOpen (JsMap.values (peers st)))).

Definition disconnect (st : State) : State * list Effect :=
  (mkState (peerId st) (peerName st) (roomId st) None [] (pendingCandidates st)
           (nextObj st),
   flat_map closeHandles (JsMap.values (peers st))
   ++ match ws st with Some _ => [WsClose] | None => [] end).

Definition getConnectedPeers (st : State) : list PeerInfo :=
  map (fun p => mkPeerInfo (id p) (name p) true)
      (List.filter connected (JsMap.values (peers st))).

(** The signals handled in turn: every handler has finished before the
    next message is delivered. The runs in which handlers overlap are those
    of [MeshAsync]. *)
Fixpoint handleSignals (st : State) (signals : list Signal) : State * list Effect :=
  match signals with
  | [] => (st, [])
  | s :: rest =>
      let '(st1, eff1) := handleSignal st s in
      let '(st2, eff2) := handleSignals st1 rest in
      (st2, eff1 ++ eff2)
  end.
End Manager.

Definition create (pid pname : string) : State :=
  mkState pid pname "" None [] ∅ 0.

End Mesh.

(** ** The broadcast-channel peer manager ([PeerManager.ts]) *)

Module Local.

Import Rtc.

(** [interface Peer] *)
Record Peer := mkPeer {
  id : string;
  name : string;
  connection : RTCPeerConnection;
  channel : option ReadyState;
  connected : bool;
  obj : nat
}.

(** [type SignalType] *)
Inductive SignalType :=
| Announce (pid pname : string)
| Offer (from fromName to : string) (offer : Sdp)
| Answer (from fromName to : string) (answer : Sdp)
| IceCandidate (from to : string) (candidate : Candidate)
| Leave (pid : string).

Record State := mkState {
  peerId : string;
  peerName : string;
  roomId : string;
  peers : list (string * Peer);
  nextObj : nat
}.

Inductive Effect :=
| PostMessage (s : SignalType)
| SignalChannelClose
| NewPeerConnection (o : nat)
| CreateDataChannel (o : nat)
| CreateOffer (o : nat)
| CreateAnswer (o : nat)
| SetLocalDescription (o : nat) (d : Sdp)
| SetRemoteDescription (o : nat) (d : Sdp)
| AddIceCandidate (o : nat) (c : Candidate)
| ChannelSend (o : nat) (payload : Message)
| ChannelClose (o : nat)
| ConnectionClose (o : nat)
| OnPeerJoin (pid pname : string)
| OnPeerLeave (pid : string)
| OnConnectionChange (isConnected : bool) (peerCount : nat)
| OnMessage (m : Message).

Definition set_peers (st : State) (ps : list (string * Peer)) : State :=
  mkState (peerId st) (peerName st) (roomId st) ps (nextObj st).

Definition with_connection (f : RTCPeerConnection -> RTCPeerConnection) (p : Peer) :=
  mkPeer (id p) (name p) (f (connection p)) (channel p) (connected p) (obj p).
Definition with_channel (c : option ReadyState) (p : Peer) :=
  mkPeer (id p) (name p) (connection p) c (connected p) (obj p).
Definition with_connected (b : bool) (p : Peer) :=
  mkPeer (id p) (name p) (connection p) (channel p) b (obj p).

Definition mutate (o : nat) (f : Peer -> Peer) (ps : list (string * Peer))
    : list (string * Peer) :=
  map (fun '(k, p) => if Nat.eqb (obj p) o then (k, f p) else (k, p)) ps.

Section Manager.
Variable createOffer : nat -> Sdp.
Variable createAnswer : nat -> Sdp.

Definition connectedCount (st : State) : nat :=
  length (List.filter connected (JsMap.values (peers st))).

Definition notifyConnectionChange (st : State) : list Effect :=
  [OnConnectionChange (negb (Nat.eqb (connectedCount st) 0)) (connectedCount st)].

Definition createConnection (st : State) (remotePeerId remotePeerName : string)
    (offering : bool) : State * Peer * list Effect :=
  let o := nextObj st in
  let peer := mkPeer remotePeerId remotePeerName (mkPc None None []) None false o in
  if offering then
    (* Create data channel and offer *)
    let offer := createOffer o in
    let peer' :=
      with_connection (setLocalDescription offer) (with_channel (Some ChConnecting) peer) in
    (mkState (peerId st) (peerName st) (roomId st)
             (JsMap.set (peers st) remotePeerId peer') (S o),
     peer',
     [NewPeerConnection o; CreateDataChannel o; CreateOffer o;
      SetLocalDescription o offer;
      PostMessage (Offer (peerId st) (peerName st) remotePeerId offer)])
  else
    (mkState (peerId st) (peerName st) (roomId st)
             (JsMap.set (peers st) remotePeerId peer) (S o),
     peer, [NewPeerConnection o]).

Definition handleOffer (st : State) (fromId fromName : string) (offer : Sdp)
    : State * list Effect :=
  let '(st1, peer, eff1) :=
    match JsMap.get (peers st) fromId with
    | Some peer => (st, peer, [])
    | None =>
        let '(st1, peer, eff) := createConnection st fromId fromName false in
        (st1, peer, eff ++ [OnPeerJoin fromId fromName])
    end in
  let o := obj peer in
  let answer := createAnswer o in
  (set_peers st1
     (JsMap.alter
        (with_connection (fun c => setLocalDescription answer (setRemoteDescription offer c)))
        (peers st1) fromId),
   eff1 ++
   [SetRemoteDescription o offer; CreateAnswer o; SetLocalDescription o answer;
    PostMessage (Answer (peerId st) (peerName st) fromId answer)]).

Definition handleAnswer (st : State) (fromId : string) (answer : Sdp)
    : State * list Effect :=
  match JsMap.get (peers st) fromId with
  | Some peer =>
      (set_peers st
         (JsMap.alter (with_connection (setRemoteDescription answer)) (peers st) fromId),
       [SetRemoteDescription (obj peer) answer])
  | None => (st, [])
  end.

Definition handleIceCandidate (st : State) (fromId : string) (candidate : Candidate)
    : State * list Effect :=
  match JsMap.get (peers st) fromId with
  | Some peer =>
      (set_peers st
         (JsMap.alter (with_connection (addIceCandidate candidate)) (peers st) fromId),
       [AddIceCandidate (obj peer) candidate])
  | None => (st, [])
  end.

Definition closeHandles (peer : Peer) : list Effect :=
  match channel peer with
  | Some _ => [ChannelClose (obj peer); ConnectionClose (obj peer)]
  | None => [ConnectionClose (obj peer)]
  end.

Definition removePeer (st : State) (pid : string) : State * list Effect :=
  match JsMap.get (peers st) pid with
  | Some peer =>
      let st' := set_peers st (JsMap.delete (peers st) pid) in
      (st', closeHandles peer ++ [OnPeerLeave pid] ++ notifyConnectionChange st')
  | None => (st, [])
  end.

Definition handleSignal (st : State) (signal : SignalType) : State * list Effect :=
  match signal with
  | Announce pid pname =>
      if negb (String.eqb pid (peerId st)) && negb (JsMap.has (peers st) pid) then
        (* New peer joined, create offer to connect *)
        let '(st1, _, eff) := createConnection st pid pname true in
        (st1, eff ++ [OnPeerJoin pid pname])
      else (st, [])
  | Offer from fromName to offer =>
      if String.eqb to (peerId st) then handleOffer st from fromName offer
      else (st, [])
  | Answer from _ to answer =>
      if String.eqb to (peerId st) then handleAnswer st from answer
      else (st, [])
  | IceCandidate from to candidate =>
      if String.eqb to (peerId st) then handleIceCandidate st from candidate
      else (st, [])
  | Leave pid =>
      if negb (String.eqb pid (peerId st)) then removePeer st pid
      else (st, [])
  end.

(** [pc.onconnectionstatechange] of the connection created for
    [remotePeerId]; [o] is the [peer] object the handler closes over. *)
Definition onconnectionstatechange (st : State) (o : nat) (remotePeerId : string)
    (state : ConnectionState) : State * list Effect :=
  match state with
  | CsConnected =>
      let st' := set_peers st (mutate o (with_connected true) (peers st)) in
      (st', notifyConnectionChange st')
  | CsDisconnected | CsClosed =>
      let st' := set_peers st (mutate o (with_connected false) (peers st)) in
      (st', notifyConnectionChange st')
  | CsFailed =>
      let st' := set_peers st (mutate o (with_connected false) (peers st)) in
      let '(st'', eff) := removePeer st' remotePeerId in
      (st'', notifyConnectionChange st' ++ eff)
  | _ => (st, [])
  end.

(** [peer.channel.onopen], as installed by [setupDataChannel(peer)]: it
    closes over the record; the ready state of the channel is the
    platform's to change. *)
Definition channel_onopen (st : State) (o : nat) : State * list Effect :=
  let st' := set_peers st (mutate o (with_connected true) (peers st)) in
  (st', notifyConnectionChange st').

Definition isOpen (p : Peer) : bool :=
  match channel p with
  | Some ChOpen => true
  | _ => false
  end.

Definition sendMessage (st : State) (freshId : string) (now : nat) (txt : string)
    : Message * list Effect :=
  let message := mkMessage freshId (peerId st) (peerName st) txt now in
  (message,
   map (fun p => ChannelSend (obj p) message)
       (List.filter isOpen (JsMap.values (peers st)))).

Definition leave (st : State) : State * list Effect :=
  (set_peers st [],
   [PostMessage (Leave (peerId st))]
   ++ flat_map closeHandles (JsMap.values (peers st))
   ++ [SignalChannelClose]).

Definition getConnectedPeers (st : State) : list (string * string) :=
  map (fun p => (id p, name p)) (List.filter connected (JsMap.values (peers st))).
End Manager.

(** The constructor announces the new peer on the channel of its room. *)
Definition create (pid room pname : string) : State * list Effect :=
  (mkState pid pname room [] 0, [PostMessage (Announce pid pname)]).

End Local.

(** ** The popup's room commands *)

Module Popup.

(** Room ids are taken to be ASCII strings; on those, [trim] removes the
    white space at both ends and [toUpperCase] maps [a-z] to [A-Z]. *)
Definition isSpace (c : ascii) : bool :=
  let n := nat_of_ascii c in
  (Nat.leb 9 n && Nat.leb n 13) || Nat.eqb n 32.

Definition upper (c : ascii) : ascii :=
  let n := nat_of_ascii c in
  if Nat.leb 97 n && Nat.leb n 122 then ascii_of_nat (n - 32) else c.

Fixpoint toUpperCase (s : string) : string :=
  match s with
  | EmptyString => EmptyString
  | String c r => String (upper c) (toUpperCase r)
  end.

Fixpoint trimStart (s : string) : string :=
  match s with
  | EmptyString => EmptyString
  | String c r => if isSpace c then trimStart r else s
  end.

Fixpoint trimEnd (s : string) : string :=
  match s with
  | EmptyString => EmptyString
  | String c r =>
      match trimEnd r with
      | EmptyString => if isSpace c then EmptyString else String c EmptyString
      | r' => String c r'
      end
  end.

Definition trim (s : string) : string := trimEnd (trimStart s).

Fixpoint isAscii (s : string) : bool :=
  match s with
  | EmptyString => true
  | String c r => Nat.ltb (nat_of_ascii c) 128 && isAscii r
  end.

(** [const joinRoom = (room) => ...]; [mgr] is [peerManagerRef.current]. *)
Definition joinRoom (mgr : option Mesh.State) (room : string)
    : option Mesh.State * list Mesh.Effect :=
  if String.eqb (trim room) "" then (mgr, [])
  else
    match mgr with
    | Some st =>
        let '(st', eff) := Mesh.joinRoom st (toUpperCase (trim room)) in
        (Some st', eff)
    | None => (None, [])
    end.

End Popup.

(** ** The mesh manager: the socket, local candidates, and runs *)

Module MeshMore.
Import Rtc.

#[global] Instance WsState_eq_dec : EqDecision Mesh.WsState.
Proof. solve_decision. Defined.

(** [pc.onicecandidate] of the connection created for [remotePeerId]. The
    event carries a candidate, or none when gathering is over. *)
Definition onicecandidate (st : Mesh.State) (remotePeerId : string)
    (candidate : option Candidate) : list Mesh.Effect :=
  match candidate with
  | Some c => Mesh.send st (Mesh.IceCandidate (Mesh.peerId st) remotePeerId c)
  | None => []
  end.

(** *** [connect()]

    The promise [connect] returns is [None] while pending; [resolve] has an
    effect on a pending promise only. *)
Definition resolve (b : bool) (promise : option bool) : option bool :=
  match promise with
  | None => Some b
  | Some _ => promise
  end.

Inductive WsEffect := OnServerConnected (b : bool) | SocketClose.

Definition set_ws (st : Mesh.State) (s : option Mesh.WsState) : Mesh.State :=
  Mesh.mkState (Mesh.peerId st) (Mesh.peerName st) (Mesh.roomId st) s (Mesh.peers st)
               (Mesh.pendingCandidates st) (Mesh.nextObj st).

(** [new WebSocket(serverUrl)] either throws, which the [catch] turns into
    [resolve(false)], or gives a socket that is connecting. *)
Definition connect (st : Mesh.State) (throws : bool) : Mesh.State * option bool :=
  if throws then (st, Some false) else (set_ws st (Some Mesh.CONNECTING), None).

Definition ws_onopen (st : Mesh.State) (promise : option bool)
    : Mesh.State * option bool * list WsEffect :=
  (set_ws st (Some Mesh.OPEN), resolve true promise, [OnServerConnected true]).

Definition ws_onclose (st : Mesh.State) (promise : option bool)
    : Mesh.State * option bool * list WsEffect :=
  (set_ws st (option_map (fun _ => Mesh.CLOSED) (Mesh.ws st)), promise,
   [OnServerConnected false]).

Definition ws_onerror (st : Mesh.State) (promise : option bool)
    : Mesh.State * option bool * list WsEffect :=
  (st, resolve false promise, [OnServerConnected false]).

(** [ws.close()] *)
Definition closing (s : Mesh.WsState) : Mesh.WsState :=
  match s with
  | Mesh.CLOSED => Mesh.CLOSED
  | _ => Mesh.CLOSING
  end.

(** The callback of [setTimeout(..., 5000)]. *)
Definition timeout (st : Mesh.State) (promise : option bool)
    : Mesh.State * option bool * list WsEffect :=
  match Mesh.ws st with
  | Some Mesh.OPEN => (st, promise, [])
  | Some s => (set_ws st (Some (closing s)), resolve false promise, [SocketClose])
  | None => (st, resolve false promise, [])
  end.

Inductive WsEvent := Open | Closed | Error | Timeout.

Definition wsStep (sp : Mesh.State * option bool) (e : WsEvent)
    : Mesh.State * option bool :=
  let '(st, promise) := sp in
  fst (match e with
       | Open => ws_onopen st promise
       | Closed => ws_onclose st promise
       | Error => ws_onerror st promise
       | Timeout => timeout st promise
       end).

(** *** Everything that can happen to a manager *)

Inductive Input :=
| Received (s : Mesh.Signal)
| ConnectionStateChange (o : nat) (state : ConnectionState)
| DataChannel (o : nat) (rs : ReadyState)
| ReadyStateChange (o : nat) (rs : ReadyState)
| ChannelOpen (o : nat)
| ChannelClose (o : nat)
| Socket (e : WsEvent)
| JoinRoom (room : string)
| Disconnect.

Section Run.
Variable createOffer : nat -> Sdp.
Variable createAnswer : nat -> Sdp.

Definition step (st : Mesh.State) (i : Input) : Mesh.State :=
  match i with
  | Received s => fst (Mesh.handleSignal createOffer createAnswer st s)
  | ConnectionStateChange o state => fst (Mesh.onconnectionstatechange st o state)
  | DataChannel o rs => Mesh.ondatachannel st o rs
  | ReadyStateChange o rs => Mesh.readyStateChange st o rs
  | ChannelOpen o => fst (Mesh.channel_onopen st o)
  | ChannelClose o => fst (Mesh.channel_onclose st o)
  | Socket e => fst (wsStep (st, None) e)
  | JoinRoom room => fst (Mesh.joinRoom st room)
  | Disconnect => fst (Mesh.disconnect st)
  end.

Definition run (st : Mesh.State) (inputs : list Input) : Mesh.State :=
  fold_left step inputs st.
End Run.

End MeshMore.

(** ** From the manager's socket to the server *)

Module Wire.

Definition sep : string := ",".

(** The message the server parses from what the manager sent. The fields the
    server does not read are kept together, in order. *)
Definition toServer (e : Mesh.Envelope) : Server.Message :=
  match e with
  | Mesh.Join room pid pname =>
      Server.Join (Server.JStr room) (Server.JStr pid) (Server.JStr pname)
  | Mesh.GetRooms => Server.GetRooms
  | Mesh.Offer from fromName to offer =>
      Server.Relay Server.Offer (Server.JStr to) (from ++ sep ++ fromName ++ sep ++ offer)
  | Mesh.Answer from fromName to answer =>
      Server.Relay Server.Answer (Server.JStr to) (from ++ sep ++ fromName ++ sep ++ answer)
  | Mesh.IceCandidate from to candidate =>
      Server.Relay Server.IceCandidate (Server.JStr to) (from ++ sep ++ candidate)
  end.

End Wire.

(** ** Statements about the server: sample runs and predicates *)

Module ServerProps.
Import Server.

Definition all_ready : Socket -> bool := fun _ => true.

Definition two_in_R : list ((Socket -> bool) * Event) :=
  [(all_ready, Connection 1); (all_ready, Connection 2);
   (all_ready, Incoming 1 (Some (Join (JStr "R") (JStr "a") (JStr "Ann"))));
   (all_ready, Incoming 2 (Some (Join (JStr "R") (JStr "b") (JStr "Bob"))))].

Definition ann_moves : list ((Socket -> bool) * Event) :=
  [(all_ready, Connection 1);
   (all_ready, Incoming 1 (Some (Join (JStr "A") (JStr "p1") (JStr "Ann"))));
   (all_ready, Incoming 1 (Some (Join (JStr "B") (JStr "p1") (JStr "Ann"))))].

Definition no_empty_room (rs : Rooms) : Prop :=
  forall roomId room, In (roomId, room) rs -> room <> [].

(** C9 as stated: a [roomCount] field holding the number of rooms. *)
Definition health_has_roomCount (rs : Rooms) : Prop :=
  exists j,
    body (httpServer rs (mkRequest "GET" "/health")) = JsonBody j /\
    is_Some (field "status" j) /\
    field "roomCount" j = Some (Jnum (JsMap.size rs)).

(** What holds of the variables of every connection: [peerInfo] is set as
    soon as [currentRoom] is truthy, and it is an object allocated earlier. *)
Definition conn_ok (n : nat) (c : Conn) : Prop :=
  match peerInfo c with
  | Some info => obj info < n
  | None => truthy (currentRoom c) = false
  end.

Definition wf (st : State) : Prop :=
  forall w c, In (w, c) (conns st) -> conn_ok (nextObj st) c.

Definition reachable (st : State) : Prop :=
  exists es, fst (run init es) = st.

(** C7 as stated, on the server: two connections that join under room ids
    equal up to letter case meet in one room. *)
Definition server_folds_case : Prop :=
  forall (st : State) (ready : Socket -> bool) (w1 w2 : Socket)
         (r1 r2 : string) (p1 n1 p2 n2 : JsVal),
    reachable st ->
    JsMap.has (conns st) w1 = true -> JsMap.has (conns st) w2 = true -> w1 <> w2 ->
    Popup.toUpperCase r1 = Popup.toUpperCase r2 ->
    let s1 := onMessage ready st w1 (Some (Join (JStr r1) p1 n1)) in
    let s2 := onMessage ready (fst s1) w2 (Some (Join (JStr r2) p2 n2)) in
    exists existing,
      In (w2, RoomJoined (JStr r2) existing) (snd s2) /\ In (p1, n1) existing.

Definition two_connected : list ((Socket -> bool) * Event) :=
  [(all_ready, Connection 1); (all_ready, Connection 2)].

(** The frames of a list of sends that go to socket [w]. *)
Definition framesTo (w : Socket) (out : Sends) : list Frame :=
  map snd (List.filter (fun sf => Nat.eqb (fst sf) w) out).

(** What the server keeps true of its connections: one entry per socket;
    the object of a connection carries its socket and is a member of the room
    the connection names; two connections never share an object. *)
Definition linked (st : State) : Prop :=
  NoDup (JsMap.keys (conns st)) /\
  (forall w c info,
     In (w, c) (conns st) -> peerInfo c = Some info ->
     ws info = w /\
     exists room, JsMap.get (rooms st) (currentRoom c) = Some room /\ In info room) /\
  (forall w1 c1 i1 w2 c2 i2,
     In (w1, c1) (conns st) -> In (w2, c2) (conns st) ->
     peerInfo c1 = Some i1 -> peerInfo c2 = Some i2 ->
     obj i1 = obj i2 -> w1 = w2).

(** The summary of a room as [GET /rooms] prints it. *)
Definition summaryToJson (s : RoomSummary) : Json :=
  Jobj (prop "id" (id s) ++
        [("peerCount", Jnum (peerCount s));
         ("peers", Jarr (map (fun '(i, n) => Jobj (prop "id" i ++ prop "name" n)) (peers s)))]).

Definition three_in_R : list ((Socket -> bool) * Event) :=
  two_in_R ++ [(all_ready, Connection 3);
               (all_ready, Incoming 3 (Some (Join (JStr "R") (JStr "c") (JStr "Cy"))))].



(** Socket 1 joins the room with the empty id and then room B; socket 2
    joins the room with the empty id. *)
Definition ann_leaves_the_nameless_room : list ((Socket -> bool) * Event) :=
  [(all_ready, Connection 1); (all_ready, Connection 2);
   (all_ready, Incoming 1 (Some (Join (JStr "") (JStr "a") (JStr "Ann"))));
   (all_ready, Incoming 1 (Some (Join (JStr "B") (JStr "a") (JStr "Ann"))));
   (all_ready, Incoming 2 (Some (Join (JStr "") (JStr "b") (JStr "Bob"))))].

End ServerProps.

(** ** Statements about the managers: sample states and predicates *)

Module ManagerProps.
Import Rtc.

(** The number of records whose channel is present and open. *)
Fixpoint meshOpenCount (l : list Mesh.PeerConnection) : nat :=
  match l with
  | [] => 0
  | p :: r =>
      (if decide (Mesh.channel p = Some ChOpen) then 1 else 0) + meshOpenCount r
  end.

Fixpoint localOpenCount (l : list Local.Peer) : nat :=
  match l with
  | [] => 0
  | p :: r =>
      (if decide (Local.channel p = Some ChOpen) then 1 else 0) + localOpenCount r
  end.

Section Offers.
Variable createOffer : nat -> Sdp.

(** A record in offering mode: it has its data channel, its local
    description is the offer its connection produced, and no remote
    description yet. *)
Definition offering (p : Mesh.PeerConnection) : Prop :=
  Mesh.channel p = Some ChConnecting /\
  localDescription (Mesh.pc p) = Some (createOffer (Mesh.obj p)) /\
  remoteDescription (Mesh.pc p) = None.



End Offers.

(** The recipients of the offer envelopes among some calls, and the
    connections created by them. *)
Definition offersTo (calls : list Mesh.Effect) : list string :=
  flat_map (fun e => match e with
                     | Mesh.WsSend (Mesh.Offer _ _ to _) => [to]
                     | _ => []
                     end) calls.


Definition askedToOffer : Mesh.State :=
  Mesh.mkState "me" "Me" "" (Some Mesh.OPEN) [] ∅ 0.

(** The queue of [pid]: [pendingCandidates.get(pid) || []]. *)
Definition queue (st : Mesh.State) (pid : string) : list Candidate :=
  default [] (Mesh.pendingCandidates st !! pid).

(** No record kept for [pid] has a remote description, nor a candidate
    applied. *)
Definition unsettled (st : Mesh.State) (pid : string) : Prop :=
  forall p, In (pid, p) (Mesh.peers st) ->
    remoteDescription (Mesh.pc p) = None /\ candidates (Mesh.pc p) = [].

(** The signals that apply no remote description for [pid]: all but an offer
    or an answer from [pid]. *)
Definition quiet (pid : string) (s : Mesh.Signal) : bool :=
  match s with
  | Mesh.SOffer from _ _ => negb (String.eqb from pid)
  | Mesh.SAnswer from _ => negb (String.eqb from pid)
  | _ => true
  end.

(** The candidates received from [pid], in arrival order. *)
Definition candidatesFrom (pid : string) (signals : list Mesh.Signal) : list Candidate :=
  flat_map (fun s => match s with
                     | Mesh.SIceCandidate from c => if String.eqb from pid then [c] else []
                     | _ => []
                     end) signals.

(** The [addIceCandidate] calls among some calls: connection and candidate. *)
Definition added (calls : list Mesh.Effect) : list (nat * Candidate) :=
  flat_map (fun e => match e with
                     | Mesh.AddIceCandidate o c => [(o, c)]
                     | _ => []
                     end) calls.

(** A manager that offered to "a" and has one candidate from "a" waiting. *)
Definition waitingForAnswer : Mesh.State :=
  Mesh.mkState "me" "Me" "R" (Some Mesh.OPEN)
    [("a", Mesh.mkPeer "a" "Ann" (mkPc (Some "offer") None []) (Some ChConnecting) false 0)]
    {["a" := ["c0"]]} 1.

Definition heardWhileWaiting : list Mesh.Signal :=
  [Mesh.SIceCandidate "a" "c1"; Mesh.PeerJoined "b" "Bob";
   Mesh.SIceCandidate "b" "x"; Mesh.SIceCandidate "a" "c2"].

(** Maps whose values carry their own key, each key once. *)
Definition keyed {K V : Type} (idOf : V -> K) (m : list (K * V)) : Prop :=
  NoDup (JsMap.keys m) /\ forall k p, In (k, p) m -> idOf p = k.

(** Records are stored under their own id, each id once; every state the
    managers reach is of this kind. *)
Definition meshKeyed (st : Mesh.State) : Prop := keyed Mesh.id (Mesh.peers st).

Definition localKeyed (st : Local.State) : Prop := keyed Local.id (Local.peers st).

(** A connection without remote description has had no candidate applied. *)
Definition freshRecord (p : Mesh.PeerConnection) : Prop :=
  remoteDescription (Mesh.pc p) = None -> candidates (Mesh.pc p) = [].

Definition allFresh (m : list (string * Mesh.PeerConnection)) : Prop :=
  forall k p, In (k, p) m -> freshRecord p.

(** The invariant of the mesh manager's peer map. *)
Definition meshSound (st : Mesh.State) : Prop :=
  keyed Mesh.id (Mesh.peers st) /\ allFresh (Mesh.peers st).

(** Calls that start a negotiation. *)
Definition meshNegotiates (e : Mesh.Effect) : bool :=
  match e with
  | Mesh.NewPeerConnection _ | Mesh.CreateDataChannel _ | Mesh.CreateOffer _
  | Mesh.CreateAnswer _ | Mesh.WsSend _ => true
  | _ => false
  end.

Definition localNegotiates (e : Local.Effect) : bool :=
  match e with
  | Local.NewPeerConnection _ | Local.CreateDataChannel _ | Local.CreateOffer _
  | Local.CreateAnswer _ | Local.PostMessage _ => true
  | _ => false
  end.

(** C5 as stated, for the mesh manager: the record of a connection that
    failed is gone from the map. *)
Definition mesh_failure_removes_record : Prop :=
  forall st pid p,
    JsMap.get (Mesh.peers st) pid = Some p ->
    JsMap.get (Mesh.peers (fst (Mesh.onconnectionstatechange st (Mesh.obj p) CsFailed))) pid
      = None.

(** C6 as stated: removing the record of a peer clears its queue. *)
Definition removal_clears_queue : Prop :=
  forall st pid p,
    JsMap.get (Mesh.peers st) pid = Some p ->
    Mesh.pendingCandidates (fst (Mesh.removePeer st pid)) !! pid = None.

(** A manager connected to "a" over an open channel. *)
Definition connectedToAnn : Mesh.State :=
  Mesh.mkState "me" "Me" "R" (Some Mesh.OPEN)
    [("a", Mesh.mkPeer "a" "Ann" (mkPc (Some "offer") (Some "answer") []) (Some ChOpen) true 0)]
    ∅ 1.

Definition localConnectedToAnn : Local.State :=
  Local.mkState "me" "Me" "R"
    [("a", Local.mkPeer "a" "Ann" (mkPc (Some "offer") (Some "answer") []) (Some ChOpen) true 0)]
    1.

(** The peer a broadcast signal comes from. *)
Definition senderOf (s : Local.SignalType) : string :=
  match s with
  | Local.Announce pid _ => pid
  | Local.Offer from _ _ _ => from
  | Local.Answer from _ _ _ => from
  | Local.IceCandidate from _ _ => from
  | Local.Leave pid => pid
  end.

(** An announce or leave carrying the manager's own id, or an offer, answer
    or candidate addressed to another peer. *)
Definition notForMe (me : string) (s : Local.SignalType) : bool :=
  match s with
  | Local.Announce pid _ => String.eqb pid me
  | Local.Leave pid => String.eqb pid me
  | Local.Offer _ _ to _ => negb (String.eqb to me)
  | Local.Answer _ _ to _ => negb (String.eqb to me)
  | Local.IceCandidate _ to _ => negb (String.eqb to me)
  end.

(** C10 as stated: no signal creates or alters a record under the manager's
    own id. *)
Definition own_record_never_touched : Prop :=
  forall (createOffer createAnswer : nat -> Sdp) (st : Local.State) (s : Local.SignalType),
    JsMap.get (Local.peers (fst (Local.handleSignal createOffer createAnswer st s)))
              (Local.peerId st)
    = JsMap.get (Local.peers st) (Local.peerId st).

Definition localAlone : Local.State := Local.mkState "me" "Me" "R" [] 0.

(** A manager with four records: two channels open, one connecting, one
    record without channel. *)
Definition fourPeers : Mesh.State :=
  Mesh.mkState "me" "Me" "R" (Some Mesh.OPEN)
    [("a", Mesh.mkPeer "a" "Ann" (mkPc None None []) (Some ChOpen) true 0);
     ("b", Mesh.mkPeer "b" "Bob" (mkPc None None []) (Some ChConnecting) false 1);
     ("c", Mesh.mkPeer "c" "Cy" (mkPc None None []) None false 2);
     ("d", Mesh.mkPeer "d" "Di" (mkPc None None []) (Some ChOpen) true 3)]
    ∅ 4.

(** The envelopes handed to the socket among some calls. *)
Definition sent (calls : list Mesh.Effect) : list Mesh.Envelope :=
  flat_map (fun e => match e with
                     | Mesh.WsSend x => [x]
                     | _ => []
                     end) calls.

(** The connections and channels closed among some calls. *)
Definition closed (calls : list Mesh.Effect) : list nat :=
  flat_map (fun e => match e with
                     | Mesh.PcClose o => [o]
                     | Mesh.ChannelClose o => [o]
                     | _ => []
                     end) calls.

(** The peers a signal is about. *)
Definition touched (s : Mesh.Signal) : list string :=
  match s with
  | Mesh.RoomJoined _ members => map fst members
  | Mesh.PeerLeft pid _ => [pid]
  | Mesh.SOffer from _ _ => [from]
  | Mesh.SAnswer from _ => [from]
  | Mesh.SIceCandidate from _ => [from]
  | _ => []
  end.

(** The sender field of an envelope, when it has one. *)
Definition stampedBy (me myName : string) (e : Mesh.Envelope) : Prop :=
  match e with
  | Mesh.Join _ pid pname => pid = me /\ pname = myName
  | Mesh.GetRooms => True
  | Mesh.Offer from fromName _ _ => from = me /\ fromName = myName
  | Mesh.Answer from fromName _ _ => from = me /\ fromName = myName
  | Mesh.IceCandidate from _ _ => from = me
  end.

(** A manager that is offering to "a" over an open socket. *)
Definition offeringToAnn : Mesh.State :=
  Mesh.mkState "me" "Me" "R" (Some Mesh.OPEN)
    [("a", Mesh.mkPeer "a" "Ann" (mkPc (Some "offer") None []) (Some ChConnecting) false 0)]
    ∅ 1.

End ManagerProps.

(** ** The broadcast-channel manager: remaining handlers, and runs *)

Module LocalMore.
Import Rtc.

(** [pc.onicecandidate] of the connection created for [remotePeerId]; the
    event's candidate is [null] when gathering is over. *)
Definition onicecandidate (st : Local.State) (remotePeerId : string)
    (candidate : option Candidate) : list Local.Effect :=
  match candidate with
  | Some c =>
      [Local.PostMessage (Local.IceCandidate (Local.peerId st) remotePeerId c)]
  | None => []
  end.

(** [pc.ondatachannel]; [rs] is the ready state of the channel received. *)
Definition ondatachannel (st : Local.State) (o : nat) (rs : ReadyState) : Local.State :=
  Local.set_peers st (Local.mutate o (Local.with_channel (Some rs)) (Local.peers st)).

(** The platform changes the ready state of the channel the object [o]
    holds. *)
Definition readyStateChange (st : Local.State) (o : nat) (rs : ReadyState) : Local.State :=
  Local.set_peers st
    (Local.mutate o
       (fun p => Local.with_channel (option_map (fun _ => rs) (Local.channel p)) p)
       (Local.peers st)).

Definition channel_onclose (st : Local.State) (o : nat) : Local.State * list Local.Effect :=
  let st' :=
    Local.set_peers st (Local.mutate o (Local.with_connected false) (Local.peers st)) in
  (st', Local.notifyConnectionChange st').

(** [peer.channel.onmessage]; [parsed] is what [JSON.parse(event.data)]
    gives, [None] when it throws. *)
Definition channel_onmessage (parsed : option Message) : list Local.Effect :=
  match parsed with
  | Some message => [Local.OnMessage message]
  | None => []
  end.

Definition getPeerCount (st : Local.State) : nat :=
  length (List.filter Local.connected (JsMap.values (Local.peers st))).

(** *** Everything that can happen to a manager *)

Inductive Input :=
| Received (s : Local.SignalType)
| LocalCandidate (remotePeerId : string) (candidate : option Candidate)
| ConnectionStateChange (o : nat) (remotePeerId : string) (state : ConnectionState)
| DataChannel (o : nat) (rs : ReadyState)
| ReadyStateChange (o : nat) (rs : ReadyState)
| ChannelOpen (o : nat)
| ChannelClose (o : nat)
| ChannelMessage (parsed : option Message)
| SendMessage (freshId : string) (now : nat) (txt : string)
| Leave.

Section Run.
Variable createOffer : nat -> Sdp.
Variable createAnswer : nat -> Sdp.

Fixpoint handleSignals (st : Local.State) (signals : list Local.SignalType)
    : Local.State * list Local.Effect :=
  match signals with
  | [] => (st, [])
  | s :: rest =>
      let '(st1, eff1) := Local.handleSignal createOffer createAnswer st s in
      let '(st2, eff2) := handleSignals st1 rest in
      (st2, eff1 ++ eff2)
  end.

Definition step (st : Local.State) (i : Input) : Local.State * list Local.Effect :=
  match i with
  | Received s => Local.handleSignal createOffer createAnswer st s
  | LocalCandidate pid c => (st, onicecandidate st pid c)
  | ConnectionStateChange o pid state => Local.onconnectionstatechange st o pid state
  | DataChannel o rs => (ondatachannel st o rs, [])
  | ReadyStateChange o rs => (readyStateChange st o rs, [])
  | ChannelOpen o => Local.channel_onopen st o
  | ChannelClose o => channel_onclose st o
  | ChannelMessage parsed => (st, channel_onmessage parsed)
  | SendMessage freshId now txt => (st, snd (Local.sendMessage st freshId now txt))
  | Leave => Local.leave st
  end.

Fixpoint run (st : Local.State) (inputs : list Input) : Local.State * list Local.Effect :=
  match inputs with
  | [] => (st, [])
  | i :: rest =>
      let '(st1, eff1) := step st i in
      let '(st2, eff2) := run st1 rest in
      (st2, eff1 ++ eff2)
  end.
End Run.

End LocalMore.

(** ** What is observed of a broadcast-channel manager *)

Module LocalProps.
Import Rtc.

(** The signals posted on the broadcast channel, oldest first. *)
Definition posted (effects : list Local.Effect) : list Local.SignalType :=
  flat_map (fun e => match e with Local.PostMessage s => [s] | _ => [] end) effects.

(** The candidates handed to [addIceCandidate], with the connection. *)
Definition applied (effects : list Local.Effect) : list (nat * Candidate) :=
  flat_map (fun e => match e with Local.AddIceCandidate o c => [(o, c)] | _ => [] end) effects.

(** The connections created. *)
Definition made (effects : list Local.Effect) : list nat :=
  flat_map (fun e => match e with Local.NewPeerConnection o => [o] | _ => [] end) effects.

(** The peers reported to the peer-join and peer-leave callbacks. *)
Definition joined (effects : list Local.Effect) : list (string * string) :=
  flat_map (fun e => match e with Local.OnPeerJoin pid pname => [(pid, pname)] | _ => [] end)
           effects.

Definition left (effects : list Local.Effect) : list string :=
  flat_map (fun e => match e with Local.OnPeerLeave pid => [pid] | _ => [] end) effects.

(** The connected-flag and count given by the latest call of the
    connection-change callback; [(false, 0)] before the first call. *)
Definition latest (last : bool * nat) (e : Local.Effect) : bool * nat :=
  match e with
  | Local.OnConnectionChange b n => (b, n)
  | _ => last
  end.

Definition reportedFrom (start : bool * nat) (effects : list Local.Effect) : bool * nat :=
  fold_left latest effects start.

Definition reported (effects : list Local.Effect) : bool * nat :=
  reportedFrom (false, 0) effects.

(** What the callback would be given now. *)
Definition current (st : Local.State) : bool * nat :=
  (negb (Nat.eqb (Local.connectedCount st) 0), Local.connectedCount st).

(** Records are stored under their own id, no two records share a
    connection, and every connection was made by this manager. *)
Definition localSound (st : Local.State) : Prop :=
  ManagerProps.localKeyed st /\
  (forall k p, In (k, p) (Local.peers st) -> Local.obj p < Local.nextObj st) /\
  (forall k1 p1 k2 p2,
     In (k1, p1) (Local.peers st) -> In (k2, p2) (Local.peers st) ->
     Local.obj p1 = Local.obj p2 -> k1 = k2).

(** The candidate signals one peer posts for another. *)
Definition candidateSignals (from to : string) (cs : list Candidate)
    : list Local.SignalType :=
  map (Local.IceCandidate from to) cs.

(** A manager holding an open connection to Ann and one being set up to
    Bob. *)
Definition annAndBob : Local.State :=
  Local.mkState "me" "Me" "R"
    [("a", Local.mkPeer "a" "Ann" (mkPc (Some "offer") (Some "answer") []) (Some ChOpen) true 0);
     ("b", Local.mkPeer "b" "Bob" (mkPc (Some "offer") None []) (Some ChConnecting) false 1)]
    2.

End LocalProps.

(** ** The manual manager ([ManualPeerManager.ts]) *)

Module Manual.
Import Rtc.

(** A session description with its [type] ("offer", "answer"). *)
Record Description := mkDesc {
  type : string;
  sdp : Sdp
}.

Record Pc := mkPc {
  localDescription : option Description;
  remoteDescription : option Description
}.

(** The object [{ type, sdp, name, id }] that [encodeDescription] builds
    and [decodeDescription] reads. *)
Record Encoded := mkEncoded {
  etype : string;
  esdp : Sdp;
  ename : string;
  eid : string
}.

(** What a manager sends on the data channel. *)
Inductive Payload :=
| Handshake (name id : string)
| Chat (m : Message).

Record State := mkState {
  peerId : string;
  peerName : string;
  pc : Pc;
  channel : option ReadyState;
  isCreator : bool;
  connected : bool;
  remotePeerName : string
}.

Definition set_pc (st : State) (c : Pc) : State :=
  mkState (peerId st) (peerName st) c (channel st) (isCreator st) (connected st)
          (remotePeerName st).
Definition set_channel (st : State) (ch : option ReadyState) : State :=
  mkState (peerId st) (peerName st) (pc st) ch (isCreator st) (connected st)
          (remotePeerName st).
Definition set_connected (st : State) (b : bool) : State :=
  mkState (peerId st) (peerName st) (pc st) (channel st) (isCreator st) b
          (remotePeerName st).
Definition set_remotePeerName (st : State) (n : string) : State :=
  mkState (peerId st) (peerName st) (pc st) (channel st) (isCreator st) (connected st) n.

Definition setLocalDescription (d : Description) (c : Pc) : Pc :=
  mkPc (Some d) (remoteDescription c).
Definition setRemoteDescription (d : Description) (c : Pc) : Pc :=
  mkPc (localDescription c) (Some d).

(** While candidates are gathered the browser completes the SDP of the
    local description. *)
Definition gathered (full : Sdp) (st : State) : State :=
  set_pc st (mkPc (option_map (fun d => mkDesc (type d) full) (localDescription (pc st)))
                  (remoteDescription (pc st))).

(** [this.remotePeerName || "Peer"] *)
Definition orPeer (n : string) : string :=
  if String.eqb n "" then "Peer" else n.

Section Platform.
(** The text exchanged by hand, with the platform's two conversions:
    [btoa(JSON.stringify(data))], and [JSON.parse(atob(encoded))], which is
    [None] when [atob] or [JSON.parse] throws. *)
Variable Text : Type.
Variable btoaStringify : Encoded -> Text.
Variable parseAtob : Text -> option Encoded.

Inductive Effect :=
| NewPeerConnection
| CreateDataChannel
| CreateOffer
| CreateAnswer
| SetLocalDescription (d : Description)
| SetRemoteDescription (d : Description)
| ChannelSend (p : Payload)
| ChannelClose
| ConnectionClose
| OnOfferReady (offer : Text)
| OnAnswerReady (answer : Text)
| OnConnectionChange (isConnected : bool) (name : string)
| OnMessage (m : Message).

(** The constructor; [pid] is the generated id. *)
Definition create (pid pname : string) (creator : bool) : State * list Effect :=
  (mkState pid pname (mkPc None None) (if creator then Some ChConnecting else None)
           creator false "",
   NewPeerConnection :: if creator then [CreateDataChannel] else []).

Definition encodeDescription (st : State) (desc : Description) : Text :=
  btoaStringify (mkEncoded (type desc) (sdp desc) (peerName st) (peerId st)).

Definition decodeDescription (encoded : Text) : option (Description * string * string) :=
  match parseAtob encoded with
  | Some data => Some (mkDesc (etype data) (esdp data), ename data, eid data)
  | None => None
  end.

(** [pc.onicecandidate]; the candidate is [null] when gathering is over. *)
Definition onicecandidate (st : State) (candidate : option Candidate) : list Effect :=
  match candidate with
  | Some _ => []
  | None =>
      match localDescription (pc st) with
      | Some description =>
          let encoded := encodeDescription st description in
          if isCreator st then [OnOfferReady encoded] else [OnAnswerReady encoded]
      | None => []
      end
  end.

Definition onconnectionstatechange (st : State) (state : ConnectionState)
    : State * list Effect :=
  match state with
  | CsConnected =>
      (set_connected st true, [OnConnectionChange true (remotePeerName st)])
  | CsDisconnected | CsFailed | CsClosed =>
      (set_connected st false, [OnConnectionChange false (remotePeerName st)])
  | _ => (st, [])
  end.

Definition ondatachannel (st : State) (rs : ReadyState) : State :=
  set_channel st (Some rs).

Definition channel_onopen (st : State) : State * list Effect :=
  (set_connected (set_channel st (option_map (fun _ => ChOpen) (channel st))) true,
   match channel st with
   | Some _ => [ChannelSend (Handshake (peerName st) (peerId st))]
   | None => []
   end
   ++ [OnConnectionChange true (orPeer (remotePeerName st))]).

Definition channel_onclose (st : State) : State * list Effect :=
  (set_connected (set_channel st (option_map (fun _ => ChClosed) (channel st))) false,
   [OnConnectionChange false (remotePeerName st)]).

(** [channel.onmessage]; [parsed] is what [JSON.parse(event.data)] gives of
    a payload sent by a manager, [None] when it throws. *)
Definition channel_onmessage (st : State) (parsed : option Payload) : State * list Effect :=
  match parsed with
  | Some (Handshake name _) =>
      (set_remotePeerName st name, [OnConnectionChange true name])
  | Some (Chat message) => (st, [OnMessage message])
  | None => (st, [])
  end.

(** Creator: generate the offer. [offer] is the SDP [pc.createOffer()]
    gives. *)
Definition createOffer (st : State) (offer : Sdp) : State * list Effect :=
  let d := mkDesc "offer" offer in
  (set_pc st (setLocalDescription d (pc st)), [CreateOffer; SetLocalDescription d]).

(** Joiner: apply the offer and generate the answer. The result is [None]
    when [decodeDescription] throws, which is before anything is changed. *)
Definition applyOffer (st : State) (encodedOffer : Text) (answer : Sdp)
    : option (State * list Effect) :=
  match decodeDescription encodedOffer with
  | Some (desc, name, _) =>
      let a := mkDesc "answer" answer in
      Some (set_pc (set_remotePeerName st name)
                   (setLocalDescription a (setRemoteDescription desc (pc st))),
            [SetRemoteDescription desc; CreateAnswer; SetLocalDescription a])
  | None => None
  end.

(** Creator: apply the answer. *)
Definition applyAnswer (st : State) (encodedAnswer : Text)
    : option (State * list Effect) :=
  match decodeDescription encodedAnswer with
  | Some (desc, name, _) =>
      Some (set_pc (set_remotePeerName st name) (setRemoteDescription desc (pc st)),
            [SetRemoteDescription desc])
  | None => None
  end.

Definition sendMessage (st : State) (freshId : string) (now : nat) (txt : string)
    : Message * list Effect :=
  let message := mkMessage freshId (peerId st) (peerName st) txt now in
  (message,
   match channel st with
   | Some ChOpen => [ChannelSend (Chat message)]
   | _ => []
   end).

(** [pc.close()] closes the connection's channels. *)
Definition disconnect (st : State) : State * list Effect :=
  (set_connected (set_channel st (option_map (fun _ => ChClosed) (channel st))) false,
   match channel st with Some _ => [ChannelClose] | None => [] end ++ [ConnectionClose]).
End Platform.

Arguments NewPeerConnection {Text}.
Arguments CreateDataChannel {Text}.
Arguments CreateOffer {Text}.
Arguments CreateAnswer {Text}.
Arguments SetLocalDescription {Text} d.
Arguments SetRemoteDescription {Text} d.
Arguments ChannelSend {Text} p.
Arguments ChannelClose {Text}.
Arguments ConnectionClose {Text}.
Arguments OnOfferReady {Text} offer.
Arguments OnAnswerReady {Text} answer.
Arguments OnConnectionChange {Text} isConnected name.
Arguments OnMessage {Text} m.
Arguments create {Text} pid pname creator.
Arguments encodeDescription {Text} btoaStringify st desc.
Arguments decodeDescription {Text} parseAtob encoded.
Arguments onicecandidate {Text} btoaStringify st candidate.
Arguments onconnectionstatechange {Text} st state.
Arguments channel_onopen {Text} st.
Arguments channel_onclose {Text} st.
Arguments channel_onmessage {Text} st parsed.
Arguments createOffer {Text} st offer.
Arguments applyOffer {Text} parseAtob st encodedOffer answer.
Arguments applyAnswer {Text} parseAtob st encodedAnswer.
Arguments sendMessage {Text} st freshId now txt.
Arguments disconnect {Text} st.

Definition isConnected (st : State) : bool := connected st.
Definition getRemotePeerName (st : State) : string := remotePeerName st.

End Manual.

(** ** What is observed of a manual manager *)

Module ManualProps.
Import Rtc.

Section Observed.
Context {Text : Type}.

(** The payloads sent on the data channel. *)
Definition payloads (effects : list (Manual.Effect Text)) : list Manual.Payload :=
  flat_map (fun e => match e with Manual.ChannelSend p => [p] | _ => [] end) effects.

(** The chat messages surfaced. *)
Definition surfaced (effects : list (Manual.Effect Text)) : list Message :=
  flat_map (fun e => match e with Manual.OnMessage m => [m] | _ => [] end) effects.

(** The names given to the connection-change callback. *)
Definition namesReported (effects : list (Manual.Effect Text)) : list (bool * string) :=
  flat_map (fun e => match e with Manual.OnConnectionChange b n => [(b, n)] | _ => [] end)
           effects.

(** Delivery of payloads to a manager, oldest first. *)
Fixpoint receive (st : Manual.State) (ps : list Manual.Payload)
    : Manual.State * list (Manual.Effect Text) :=
  match ps with
  | [] => (st, [])
  | p :: rest =>
      let '(st1, eff1) := Manual.channel_onmessage st (Some p) in
      let '(st2, eff2) := receive st1 rest in
      (st2, eff1 ++ eff2)
  end.
End Observed.

End ManualProps.

(** ** Managers and server together *)

Module Net.

(** The signal a manager reads from an envelope the server forwards: the
    server sends the parsed message on as it is. *)
Definition forwarded (e : Mesh.Envelope) : option Mesh.Signal :=
  match e with
  | Mesh.Offer from fromName _ offer => Some (Mesh.SOffer from fromName offer)
  | Mesh.Answer from _ _ answer => Some (Mesh.SAnswer from answer)
  | Mesh.IceCandidate from _ candidate => Some (Mesh.SIceCandidate from candidate)
  | _ => None
  end.

Definition member (p : Server.JsVal * Server.JsVal) : option (string * string) :=
  match p with
  | (Server.JStr pid, Server.JStr pname) => Some (pid, pname)
  | _ => None
  end.

Fixpoint members (l : list (Server.JsVal * Server.JsVal)) : option (list (string * string)) :=
  match l with
  | [] => Some []
  | p :: rest =>
      match member p, members rest with
      | Some x, Some xs => Some (x :: xs)
      | _, _ => None
      end
  end.

(** The signal a manager reads from a frame the server builds itself.
    Managers put strings in the fields the server copies; frames with other
    values there are not read. *)
Definition notice (f : Server.Frame) : option Mesh.Signal :=
  match f with
  | Server.RoomJoined (Server.JStr room) existing =>
      option_map (Mesh.RoomJoined room) (members existing)
  | Server.PeerJoined (Server.JStr pid) (Server.JStr pname) => Some (Mesh.PeerJoined pid pname)
  | Server.PeerLeft (Server.JStr pid) (Server.JStr pname) => Some (Mesh.PeerLeft pid pname)
  | _ => None
  end.

(** The signal a manager reads from a frame sent while the server handled
    the envelope [e]. *)
Definition reads (e : Mesh.Envelope) (f : Server.Frame) : option Mesh.Signal :=
  match f with
  | Server.Forward _ => forwarded e
  | _ => notice f
  end.

(** What the manager on socket [w] reads of frames the server sent of its
    own accord. *)
Definition noticed (out : Server.Sends) (w : Server.Socket) : list Mesh.Signal :=
  flat_map (fun '(s, f) =>
              if Nat.eqb s w then match notice f with Some x => [x] | None => [] end
              else [])
           out.

(** The candidate events of the connection a manager keeps for [pid]. *)
Definition gathering (st : Mesh.State) (pid : string) (events : list (option Rtc.Candidate))
    : list Mesh.Effect :=
  flat_map (MeshMore.onicecandidate st pid) events.

(** The candidates among them. *)
Definition found (events : list (option Rtc.Candidate)) : list Rtc.Candidate :=
  flat_map (fun ev => match ev with Some c => [c] | None => [] end) events.

Definition inbox (e : Mesh.Envelope) (out : Server.Sends) (w : Server.Socket)
    : list Mesh.Signal :=
  flat_map (fun '(s, f) =>
              if Nat.eqb s w then match reads e f with Some x => [x] | None => [] end
              else [])
           out.

Section Serve.
Variable ready : Server.Socket -> bool.

(** The server handles, in order, the envelopes a manager sent on socket
    [w]; each is kept with the frames sent for it. *)
Fixpoint serve (st : Server.State) (w : Server.Socket) (envelopes : list Mesh.Envelope)
    : Server.State * list (Mesh.Envelope * Server.Sends) :=
  match envelopes with
  | [] => (st, [])
  | e :: rest =>
      let '(st1, out) := Server.onMessage ready st w (Some (Wire.toServer e)) in
      let '(st2, outs) := serve st1 w rest in
      (st2, (e, out) :: outs)
  end.
End Serve.

(** What the manager on socket [w] receives of them, oldest first. *)
Definition received (outs : list (Mesh.Envelope * Server.Sends)) (w : Server.Socket)
    : list Mesh.Signal :=
  flat_map (fun '(e, out) => inbox e out w) outs.

End Net.

(** ** Sample states of a server with one room and of two managers *)

Module NetProps.

Definition annInfo : Server.PeerInfo :=
  Server.mkPeerInfo 0 (Server.JStr "a") (Server.JStr "Ann") 0.

(** Ann, on socket 0, is alone in room R; socket 1 has connected. *)
Definition annWaits : Server.State :=
  Server.mkState [(Server.JStr "R", [annInfo])]
                 [(0, Server.mkConn (Server.JStr "R") (Some annInfo));
                  (1, Server.mkConn Server.JNull None)]
                 1.

Definition ann : Mesh.State := Mesh.mkState "a" "Ann" "R" (Some Mesh.OPEN) [] ∅ 0.
Definition bob : Mesh.State := Mesh.mkState "b" "Bob" "" (Some Mesh.OPEN) [] ∅ 0.

End NetProps.

(** ** The popup: creating a room *)

Module PopupMore.

(** [const createRoom = () => ...]; [newRoomId] is the text typed and
    [generated] what [generateRoomId()] gives when it is called. *)
Definition createRoom (mgr : option Mesh.State) (newRoomId generated : string)
    : option Mesh.State * list Mesh.Effect :=
  let room :=
    if String.eqb (Popup.trim newRoomId) "" then generated else Popup.trim newRoomId in
  Popup.joinRoom mgr room.

End PopupMore.

(** ** The mesh manager: handlers that overlap

    [ws.onmessage] calls [handleSignal] and does not wait for it. A handler
    runs until it awaits an operation of a connection, and goes on when that
    operation has completed; until then other messages can be delivered,
    and their handlers run on the same maps. [Mesh.handleSignals] is the
    schedule in which every handler has finished before the next message is
    delivered; here the schedule is an input.

    An operation is recorded among the calls when it is called. The
    operations of one connection complete in the order of their calls;
    a description is in the connection when [setRemoteDescription] or
    [setLocalDescription] has completed; the candidates of a connection are
    listed in the order they were handed to [addIceCandidate]. *)

Module MeshAsync.
Import Rtc.

(** [const pending = this.pendingCandidates.get(fromId) || []]: the array
    the map holds under [fromId], read again at each turn of the loop, or an
    array the map does not hold: the fresh [[]], or an array whose entry has
    been deleted since. *)
Inductive Pending :=
| Held (fromId : string)
| Own (l : list Candidate).

(** What is left of a handler that awaits an operation of the connection of
    the record [o]: one constructor for each [await] of such an operation.
    The other awaits ([await this.handleOffer(...)] and the like in
    [handleSignal], [await this.createPeerConnection(_, _, false)]) wait for
    a promise that settles without any operation of a connection, and let no
    message in. *)
Inductive Cont :=
(* handleOffer: await peer.pc.setRemoteDescription(offer) *)
| OfferRemote (fromId : string) (o : nat) (offer : Sdp)
(* handleOffer: await peer.pc.addIceCandidate(...) for the element at index i *)
| OfferDrain (fromId : string) (o : nat) (pending : Pending) (i : nat)
(* handleOffer: await peer.pc.createAnswer() *)
| OfferAnswer (fromId : string) (o : nat)
(* handleOffer: await peer.pc.setLocalDescription(answer) *)
| OfferLocal (fromId : string) (o : nat) (answer : Sdp)
(* handleAnswer: await peer.pc.setRemoteDescription(answer) *)
| AnswerRemote (fromId : string) (o : nat) (answer : Sdp)
(* handleAnswer: await peer.pc.addIceCandidate(...) for the element at index i *)
| AnswerDrain (fromId : string) (o : nat) (pending : Pending) (i : nat)
(* handleIceCandidate: await peer.pc.addIceCandidate(...) *)
| CandidateAdded (o : nat)
(* createPeerConnection(_, _, true), called by the loop of room-joined that has
   the peers of rest still to go: await pc.createOffer() *)
| JoinOffer (o : nat) (remotePeerId : string) (rest : list (string * string))
(* the same: await pc.setLocalDescription(offer) *)
| JoinLocal (o : nat) (remotePeerId : string) (offer : Sdp) (rest : list (string * string)).

Definition conn (k : Cont) : nat :=
  match k with
  | OfferRemote _ o _ | OfferDrain _ o _ _ | OfferAnswer _ o | OfferLocal _ o _
  | AnswerRemote _ o _ | AnswerDrain _ o _ _ | CandidateAdded o
  | JoinOffer o _ _ | JoinLocal o _ _ _ => o
  end.

Record State := mkA {
  manager : Mesh.State;
  (** the suspended handlers, in the order of the calls they await *)
  waiting : list Cont
}.

Inductive Event :=
| Deliver (s : Mesh.Signal)
| Complete (i : nat).

Definition content (st : Mesh.State) (p : Pending) : list Candidate :=
  match p with
  | Held fromId => default [] (Mesh.pendingCandidates st !! fromId)
  | Own l => l
  end.

Definition release (fromId : string) (arr : list Candidate) (p : Pending) : Pending :=
  match p with
  | Held k => if String.eqb k fromId then Own arr else p
  | Own _ => p
  end.

(** [this.pendingCandidates.delete(fromId)], seen from a suspended loop. *)
Definition detach (fromId : string) (arr : list Candidate) (k : Cont) : Cont :=
  match k with
  | OfferDrain f o p i => OfferDrain f o (release fromId arr p) i
  | AnswerDrain f o p i => AnswerDrain f o (release fromId arr p) i
  | _ => k
  end.

Definition onObject (o : nat) (f : RTCPeerConnection -> RTCPeerConnection)
    (st : Mesh.State) : Mesh.State :=
  Mesh.set_peers st (Mesh.mutate o (Mesh.with_pc f) (Mesh.peers st)).

Definition lookupPending (st : Mesh.State) (fromId : string) : Pending :=
  match Mesh.pendingCandidates st !! fromId with
  | Some _ => Held fromId
  | None => Own []
  end.

(** Completions after which the handler of [signal], started in [st] with
    no other handler running, has finished. *)
Definition turns (st : Mesh.State) (signal : Mesh.Signal) : nat :=
  match signal with
  | Mesh.RoomJoined _ members => 2 * length members
  | Mesh.SOffer from _ _ | Mesh.SAnswer from _ => length (ManagerProps.queue st from) + 3
  | Mesh.SIceCandidate _ _ => 1
  | _ => 0
  end.

Section Manager.
Variable createOffer : nat -> Sdp.
Variable createAnswer : nat -> Sdp.

(** One turn of [for (const candidate of pending)] at index [i], and what
    follows the loop: in [handleOffer] ([answering]) the answer, in
    [handleAnswer] nothing. The result is the manager, the other suspended
    handlers, what is left of this one, and the calls made. *)
Definition loop (answering : bool) (st : Mesh.State) (others : list Cont)
    (fromId : string) (o : nat) (pending : Pending) (i : nat)
    : Mesh.State * list Cont * option Cont * list Mesh.Effect :=
  match nth_error (content st pending) i with
  | Some candidate =>
      (onObject o (addIceCandidate candidate) st, others,
       Some ((if answering then OfferDrain else AnswerDrain) fromId o pending i),
       [Mesh.AddIceCandidate o candidate])
  | None =>
      let st' :=
        Mesh.set_pending st (base.delete fromId (Mesh.pendingCandidates st)) in
      let others' :=
        match Mesh.pendingCandidates st !! fromId with
        | Some arr => map (detach fromId arr) others
        | None => others
        end in
      if answering then (st', others', Some (OfferAnswer fromId o), [Mesh.CreateAnswer o])
      else (st', others', None, [])
  end.

(** [createPeerConnection(pid, pname, true)] up to its first await, for the
    next member of the room. *)
Definition connectNext (st : Mesh.State) (members : list (string * string))
    : Mesh.State * option Cont * list Mesh.Effect :=
  match members with
  | [] => (st, None, [])
  | (pid, pname) :: rest =>
      let o := Mesh.nextObj st in
      let peerConn := Mesh.mkPeer pid pname (mkPc None None []) (Some ChConnecting) false o in
      (Mesh.mkState (Mesh.peerId st) (Mesh.peerName st) (Mesh.roomId st) (Mesh.ws st)
                    (JsMap.set (Mesh.peers st) pid peerConn)
                    (Mesh.pendingCandidates st) (S o),
       Some (JoinOffer o pid rest),
       [Mesh.NewPeerConnection o; Mesh.CreateDataChannel o; Mesh.CreateOffer o])
  end.

(** A handler goes on after the operation it awaited. *)
Definition resume (st : Mesh.State) (others : list Cont) (k : Cont)
    : Mesh.State * list Cont * option Cont * list Mesh.Effect :=
  match k with
  | OfferRemote fromId o offer =>
      let st1 := onObject o (setRemoteDescription offer) st in
      (* Apply any pending ICE candidates *)
      loop true st1 others fromId o (lookupPending st1 fromId) 0
  | OfferDrain fromId o pending i => loop true st others fromId o pending (S i)
  | OfferAnswer fromId o =>
      let answer := createAnswer o in
      (st, others, Some (OfferLocal fromId o answer), [Mesh.SetLocalDescription o answer])
  | OfferLocal fromId o answer =>
      (onObject o (setLocalDescription answer) st, others, None,
       Mesh.send st (Mesh.Answer (Mesh.peerId st) (Mesh.peerName st) fromId answer))
  | AnswerRemote fromId o answer =>
      let st1 := onObject o (setRemoteDescription answer) st in
      (* Apply any pending ICE candidates *)
      loop false st1 others fromId o (lookupPending st1 fromId) 0
  | AnswerDrain fromId o pending i => loop false st others fromId o pending (S i)
  | CandidateAdded _ => (st, others, None, [])
  | JoinOffer o pid rest =>
      let offer := createOffer o in
      (st, others, Some (JoinLocal o pid offer rest), [Mesh.SetLocalDescription o offer])
  | JoinLocal o pid offer rest =>
      let st1 := onObject o (setLocalDescription offer) st in
      let '(st2, next, eff) := connectNext st1 rest in
      (st2, others, next,
       Mesh.send st (Mesh.Offer (Mesh.peerId st) (Mesh.peerName st) pid offer) ++ eff)
  end.

(** [handleSignal(data)] up to its first await. *)
Definition deliver (st : Mesh.State) (signal : Mesh.Signal)
    : Mesh.State * option Cont * list Mesh.Effect :=
  match signal with
  | Mesh.RoomJoined room members =>
      let '(st1, next, eff) := connectNext (Mesh.set_roomId st room) members in
      (st1, next, Mesh.OnRoomJoined room members :: eff)
  | Mesh.SOffer from fromName offer =>
      let '(st1, peer, eff1) :=
        match JsMap.get (Mesh.peers st) from with
        | Some peer => (st, peer, [])
        | None => Mesh.createPeerConnection createOffer st from fromName false
        end in
      (st1, Some (OfferRemote from (Mesh.obj peer) offer),
       eff1 ++ [Mesh.SetRemoteDescription (Mesh.obj peer) offer])
  | Mesh.SAnswer from answer =>
      match JsMap.get (Mesh.peers st) from with
      | Some peer =>
          (st, Some (AnswerRemote from (Mesh.obj peer) answer),
           [Mesh.SetRemoteDescription (Mesh.obj peer) answer])
      | None => (st, None, [])
      end
  | Mesh.SIceCandidate from candidate =>
      match JsMap.get (Mesh.peers st) from with
      | Some peer =>
          match remoteDescription (Mesh.pc peer) with
          | Some _ =>
              (onObject (Mesh.obj peer) (addIceCandidate candidate) st,
               Some (CandidateAdded (Mesh.obj peer)),
               [Mesh.AddIceCandidate (Mesh.obj peer) candidate])
          | None =>
              (* Queue candidate if remote description not set yet *)
              (Mesh.enqueue st from candidate, None, [])
          end
      | None => (Mesh.enqueue st from candidate, None, [])
      end
  | _ =>
      let '(st1, eff) := Mesh.handleSignal createOffer createAnswer st signal in
      (st1, None, eff)
  end.

(** The operation awaited by the [i]-th suspended handler can complete when
    no earlier call on the same connection is still awaited. *)
Definition canComplete (tasks : list Cont) (i : nat) : bool :=
  match nth_error tasks i with
  | Some k => forallb (fun k' => negb (Nat.eqb (conn k') (conn k))) (firstn i tasks)
  | None => false
  end.

Definition step (a : State) (e : Event) : State * list Mesh.Effect :=
  match e with
  | Deliver signal =>
      let '(st1, next, eff) := deliver (manager a) signal in
      (mkA st1 (waiting a ++ option_list next), eff)
  | Complete i =>
      match nth_error (waiting a) i with
      | Some k =>
          if canComplete (waiting a) i then
            let '(st1, others, next, eff) :=
              resume (manager a) (firstn i (waiting a) ++ skipn (S i) (waiting a)) k in
            (mkA st1 (others ++ option_list next), eff)
          else (a, [])
      | None => (a, [])
      end
  end.

Fixpoint run (a : State) (events : list Event) : State * list Mesh.Effect :=
  match events with
  | [] => (a, [])
  | e :: rest =>
      let '(a1, eff1) := step a e in
      let '(a2, eff2) := run a1 rest in
      (a2, eff1 ++ eff2)
  end.

(** The handler suspended first goes on, [n] times or until none is left. *)
Fixpoint settle (n : nat) (a : State) : State * list Mesh.Effect :=
  match n, waiting a with
  | S m, _ :: _ =>
      let '(a1, eff1) := step a (Complete 0) in
      let '(a2, eff2) := settle m a1 in
      (a2, eff1 ++ eff2)
  | _, _ => (a, [])
  end.

(** What is left of one handler when no other handler runs. *)
Definition thenSettle (n : nat)
    (r : Mesh.State * list Cont * option Cont * list Mesh.Effect)
    : State * list Mesh.Effect :=
  let '(st1, others, next, eff1) := r in
  let '(a2, eff2) := settle n (mkA st1 (others ++ option_list next)) in
  (a2, eff1 ++ eff2).

(** The schedule of [Mesh.handleSignals]: every handler has finished before
    the next message is delivered. *)
Fixpoint inTurn (n : nat) (a : State) (signals : list Mesh.Signal)
    : State * list Mesh.Effect :=
  match signals with
  | [] => (a, [])
  | s :: rest =>
      let '(a1, eff1) := step a (Deliver s) in
      let '(a2, eff2) := settle n a1 in
      let '(a3, eff3) := inTurn n a2 rest in
      (a3, eff1 ++ eff2 ++ eff3)
  end.

(** Completions that are enough for every handler of the run. *)
Fixpoint turnsAll (st : Mesh.State) (signals : list Mesh.Signal) : nat :=
  match signals with
  | [] => 0
  | s :: rest =>
      Nat.max (turns st s)
              (turnsAll (fst (Mesh.handleSignal createOffer createAnswer st s)) rest)
  end.

End Manager.

(** Records are stored once per id, every connection was made by this
    manager, and no two records share one. *)
Definition identified (st : Mesh.State) : Prop :=
  NoDup (JsMap.keys (Mesh.peers st)) /\
  (forall k p, In (k, p) (Mesh.peers st) -> Mesh.obj p < Mesh.nextObj st) /\
  (forall k1 p1 k2 p2,
     In (k1, p1) (Mesh.peers st) -> In (k2, p2) (Mesh.peers st) ->
     Mesh.obj p1 = Mesh.obj p2 -> k1 = k2).

(** The record under [k] is the object [o], and no other record is. *)
Definition owns (ps : list (string * Mesh.PeerConnection)) (k : string) (o : nat) : Prop :=
  NoDup (JsMap.keys ps) /\
  (exists p, JsMap.get ps k = Some p /\ Mesh.obj p = o) /\
  (forall k' p', In (k', p') ps -> Mesh.obj p' = o -> k' = k).

(** The manager joins a room that holds "a" and offers to it. Then an answer
    from "a", a candidate from "a" and an offer from "a" are delivered
    before the [setRemoteDescription] of the answer has completed; after
    that the awaited operations complete in the order of their calls. *)
Definition answerAndOfferOverlap : list Event :=
  [Deliver (Mesh.RoomJoined "R" [("a", "Ann")]); Complete 0; Complete 0;
   Deliver (Mesh.SAnswer "a" "answer-a"); Deliver (Mesh.SIceCandidate "a" "c0");
   Deliver (Mesh.SOffer "a" "Ann" "offer-a");
   Complete 0; Complete 0; Complete 0; Complete 0; Complete 0; Complete 0].

(** The same messages, the offer delivered when the handler of the answer
    has finished. *)
Definition answerAndOfferInTurn : list Event :=
  [Deliver (Mesh.RoomJoined "R" [("a", "Ann")]); Complete 0; Complete 0;
   Deliver (Mesh.SAnswer "a" "answer-a"); Deliver (Mesh.SIceCandidate "a" "c0");
   Complete 0; Complete 0;
   Deliver (Mesh.SOffer "a" "Ann" "offer-a");
   Complete 0; Complete 0; Complete 0].

(** An answer from "a", then an offer from "a" before the handler of the
    answer has gone on. *)
Definition answerThenOffer : list Event :=
  [Deliver (Mesh.SAnswer "a" "answer-a"); Deliver (Mesh.SOffer "a" "Ann" "offer-a");
   Complete 0; Complete 0; Complete 0; Complete 0; Complete 0; Complete 0].

(** A manager that offered to "a" and has two candidates from "a" waiting. *)
Definition twoQueued : Mesh.State :=
  Mesh.mkState "me" "Me" "R" (Some Mesh.OPEN)
    [("a", Mesh.mkPeer "a" "Ann" (mkPc (Some "offer") None []) (Some ChConnecting) false 0)]
    {["a" := ["c0"; "c1"]]} 1.

(** A candidate from "a" is delivered while the loop of the answer's handler
    awaits the first queued candidate. *)
Definition candidateDuringDrain : list Event :=
  [Deliver (Mesh.SAnswer "a" "answer-a"); Complete 0;
   Deliver (Mesh.SIceCandidate "a" "c2"); Complete 0; Complete 0; Complete 0].

End MeshAsync.

(** ** Facts about [JsMap] *)

Module JsMapFacts.
Import JsMap.
Section Facts.
Context {K V : Type} `{EqDecision K}.
Implicit Types (m : list (K * V)) (k : K) (v : V).

Lemma has_get m k : has m k = true <-> exists v, get m k = Some v.
Proof.
  unfold has. destruct (get m k); split; eauto; try discriminate.
  intros [v Hv]; discriminate.
Qed.

Lemma has_false m k : has m k = false <-> get m k = None.
Proof. unfold has. destruct (get m k); split; congruence. Qed.

Lemma get_set_eq m k v : get (set m k v) k = Some v.
Proof.
  induction m as [|[k' v'] r IH]; simpl.
  - destruct (decide (k = k)); congruence.
  - destruct (decide (k' = k)) as [->|Hne]; simpl.
    + destruct (decide (k = k)); congruence.
    + destruct (decide (k' = k)); congruence.
Qed.

Lemma get_set_ne m k k' v : k <> k' -> get (set m k v) k' = get m k'.
Proof.
  intros Hne. induction m as [|[k0 v0] r IH]; simpl.
  - destruct (decide (k = k')); congruence.
  - destruct (decide (k0 = k)) as [->|H0]; simpl.
    + destruct (decide (k = k')); congruence.
    + destruct (decide (k0 = k')); congruence.
Qed.

Lemma get_delete_ne m k k' : k <> k' -> get (delete m k) k' = get m k'.
Proof.
  intros Hne. unfold delete. induction m as [|[k0 v0] r IH]; simpl; [reflexivity|].
  destruct (decide (k0 = k)) as [->|H0].
  - rewrite bool_decide_eq_true_2 by reflexivity. simpl.
    destruct (decide (k = k')); congruence.
  - rewrite bool_decide_eq_false_2 by assumption. simpl.
    destruct (decide (k0 = k')); congruence.
Qed.

Lemma get_delete_eq m k : get (delete m k) k = None.
Proof.
  unfold delete. induction m as [|[k0 v0] r IH]; simpl; [reflexivity|].
  destruct (decide (k0 = k)) as [->|H0].
  - rewrite bool_decide_eq_true_2 by reflexivity. simpl. exact IH.
  - rewrite bool_decide_eq_false_2 by assumption. simpl.
    destruct (decide (k0 = k)); congruence.
Qed.

Lemma In_delete m k k' v : In (k', v) (delete m k) <-> In (k', v) m /\ k' <> k.
Proof.
  unfold delete. rewrite List.filter_In. simpl.
  rewrite negb_true_iff, bool_decide_eq_false. tauto.
Qed.

Lemma get_alter_eq f m k : get (alter f m k) k = option_map f (get m k).
Proof.
  induction m as [|[k0 v0] r IH]; simpl; [reflexivity|].
  destruct (decide (k0 = k)) as [->|H0]; simpl.
  - destruct (decide (k = k)); congruence.
  - destruct (decide (k0 = k)); congruence.
Qed.

Lemma get_alter_ne f m k k' : k <> k' -> get (alter f m k) k' = get m k'.
Proof.
  intros Hne. induction m as [|[k0 v0] r IH]; simpl; [reflexivity|].
  destruct (decide (k0 = k)) as [->|H0]; simpl.
  - destruct (decide (k = k')); congruence.
  - destruct (decide (k0 = k')); congruence.
Qed.

Lemma keys_alter f m k : keys (alter f m k) = keys m.
Proof.
  unfold keys. induction m as [|[k0 v0] r IH]; simpl; [reflexivity|].
  destruct (decide (k0 = k)); simpl; congruence.
Qed.

Lemma get_None_keys m k : get m k = None <-> ~ In k (keys m).
Proof.
  unfold keys. induction m as [|[k0 v0] r IH]; simpl.
  - tauto.
  - destruct (decide (k0 = k)) as [->|H0].
    + split; [discriminate | tauto].
    + rewrite IH. tauto.
Qed.

Lemma get_In m k v : get m k = Some v -> In (k, v) m.
Proof.
  induction m as [|[k0 v0] r IH]; simpl; [discriminate|].
  destruct (decide (k0 = k)) as [->|H0].
  - intros [= ->]. now left.
  - intros H'. right. auto.
Qed.

Lemma In_keys_set m k v k' : In k' (keys (set m k v)) -> k' = k \/ In k' (keys m).
Proof.
  unfold keys. induction m as [|[k0 v0] r IH]; simpl.
  - intros [<-|[]]. now left.
  - destruct (decide (k0 = k)) as [->|H0]; simpl.
    + intros [<-|Hin]; [now left | right; now right].
    + intros [<-|Hin]; [right; now left |].
      destruct (IH Hin) as [->|Hr]; [now left | right; now right].
Qed.

(** [delete] removes the key when keys are unique, which [set] maintains. *)
Lemma keys_set_NoDup m k v : NoDup (keys m) -> NoDup (keys (set m k v)).
Proof.
  induction m as [|[k0 v0] r IH]; simpl; intros Hnd.
  - apply NoDup_singleton.
  - apply NoDup_cons in Hnd as [Hnotin Hr].
    destruct (decide (k0 = k)) as [->|H0]; simpl.
    + apply NoDup_cons; split; assumption.
    + apply NoDup_cons; split; [|apply IH; exact Hr].
      rewrite list_elem_of_In. intros Hin. apply In_keys_set in Hin.
      destruct Hin as [->|Hin]; [congruence|].
      apply Hnotin. rewrite list_elem_of_In. exact Hin.
Qed.

Lemma In_set m k v k' v' : In (k', v') (set m k v) -> (k' = k /\ v' = v) \/ In (k', v') m.
Proof.
  induction m as [|[k0 v0] r IH]; simpl.
  - intros [[= <- <-]|[]]. now left.
  - destruct (decide (k0 = k)) as [->|H0]; simpl.
    + intros [[= <- <-]|Hin]; [now left | right; now right].
    + intros [Heq|Hin]; [right; now left|].
      destruct (IH Hin) as [Hn|Ho]; [now left | right; now right].
Qed.

Lemma In_alter f m k k' v' :
  In (k', v') (alter f m k) -> In (k', v') m \/ (k' = k /\ exists v, In (k, v) m /\ v' = f v).
Proof.
  induction m as [|[k0 v0] r IH]; simpl; [tauto|].
  destruct (decide (k0 = k)) as [->|H0]; simpl.
  - intros [[= <- <-]|Hin]; [right; eauto | left; now right].
  - intros [Heq|Hin]; [left; now left|].
    destruct (IH Hin) as [Ho|(-> & v & Hv & ->)]; [left; now right | right; eauto 6].
Qed.

Lemma get_Some_In m k v : get m k = Some v -> In (k, v) m.
Proof. apply get_In. Qed.

Lemma In_get m k v : NoDup (keys m) -> In (k, v) m -> get m k = Some v.
Proof.
  induction m as [|[k0 v0] r IH]; simpl; intros Hnd Hin; [destruct Hin|].
  apply NoDup_cons in Hnd as [Hnotin Hr].
  destruct (decide (k0 = k)) as [->|H0].
  - destruct Hin as [[= ->]|Hin]; [reflexivity|].
    exfalso. apply Hnotin. rewrite list_elem_of_In.
    unfold keys. apply in_map_iff. now exists (k, v).
  - destruct Hin as [[= -> ->]|Hin]; [congruence | auto].
Qed.

Lemma get_map_values (f : V -> V) m k :
  get (map (fun e => (fst e, f (snd e))) m) k = option_map f (get m k).
Proof.
  induction m as [|[k0 v0] r IH]; simpl; [reflexivity|].
  destruct (decide (k0 = k)); [reflexivity | exact IH].
Qed.

Lemma keys_map_values (f : V -> V) m :
  keys (map (fun e => (fst e, f (snd e))) m) = keys m.
Proof.
  unfold keys. rewrite map_map. reflexivity.
Qed.

Lemma get_alter f m k k' :
  get (alter f m k) k' = if decide (k = k') then option_map f (get m k') else get m k'.
Proof.
  destruct (decide (k = k')) as [->|Hne].
  - apply get_alter_eq.
  - now apply get_alter_ne.
Qed.

Lemma has_alter f m k k' : has (alter f m k) k' = has m k'.
Proof.
  unfold has. rewrite get_alter. destruct (decide (k = k')); [|reflexivity].
  now destruct (get m k').
Qed.

Lemma In_keys_delete m k k' : In k' (keys (delete m k)) -> In k' (keys m).
Proof.
  unfold keys. intros Hin. apply in_map_iff in Hin as ([k0 v0] & <- & Hin).
  apply In_delete in Hin as [Hin _]. apply in_map_iff. now exists (k0, v0).
Qed.

Lemma keys_delete_NoDup m k : NoDup (keys m) -> NoDup (keys (delete m k)).
Proof.
  unfold delete. induction m as [|[k0 v0] r IH]; simpl; intros Hnd; [constructor|].
  apply NoDup_cons in Hnd as [Hnotin Hr].
  destruct (negb (bool_decide (k0 = k))); simpl; [|auto].
  apply NoDup_cons; split; [|auto].
  rewrite list_elem_of_In. intros Hin. apply Hnotin. rewrite list_elem_of_In.
  now apply (In_keys_delete r k).
Qed.

(** [alter] changes the entry that [get] finds, and no other. *)
Lemma In_alter_get f m k k' v' :
  In (k', v') (alter f m k) ->
  In (k', v') m \/ (k' = k /\ exists v, get m k = Some v /\ v' = f v).
Proof.
  induction m as [|[k0 v0] r IH]; simpl; [tauto|].
  destruct (decide (k0 = k)) as [->|H0]; simpl.
  - intros [[= <- <-]|Hin]; [right; eauto | left; now right].
  - intros [Heq|Hin]; [left; now left|].
    destruct (IH Hin) as [Ho|(-> & v & Hv & ->)]; [left; now right | right; eauto].
Qed.

Lemma In_set_NoDup m k v k' v' :
  NoDup (keys m) -> In (k', v') (set m k v) ->
  (k' = k /\ v' = v) \/ (k' <> k /\ In (k', v') m).
Proof.
  intros Hnd Hin.
  apply In_get in Hin; [|now apply keys_set_NoDup].
  destruct (decide (k = k')) as [->|Hne].
  - rewrite get_set_eq in Hin. injection Hin as <-. now left.
  - rewrite get_set_ne in Hin by assumption. right. split; [congruence|].
    now apply get_In.
Qed.

End Facts.
End JsMapFacts.


(** ** Maps keyed by a field of their values *)

Module KeyedFacts.
Import ManagerProps.
Section Keyed.
Context {K V : Type} `{EqDecision K}.
Variable idOf : V -> K.

Lemma keyed_nil : keyed idOf [].
Proof. split; [constructor | intros k p []]. Qed.

Lemma keyed_set m k v : keyed idOf m -> idOf v = k -> keyed idOf (JsMap.set m k v).
Proof.
  intros [Hnd Hid] Hv. split; [now apply JsMapFacts.keys_set_NoDup|].
  intros k' p Hin. apply JsMapFacts.In_set in Hin as [[-> ->]|Hin]; auto.
Qed.

Lemma keyed_delete m k : keyed idOf m -> keyed idOf (JsMap.delete m k).
Proof.
  intros [Hnd Hid]. split; [now apply JsMapFacts.keys_delete_NoDup|].
  intros k' p Hin. apply JsMapFacts.In_delete in Hin as [Hin _]. auto.
Qed.

Lemma keyed_alter f m k :
  (forall v, idOf (f v) = idOf v) -> keyed idOf m -> keyed idOf (JsMap.alter f m k).
Proof.
  intros Hf [Hnd Hid]. split; [now rewrite JsMapFacts.keys_alter|].
  intros k' p Hin. apply JsMapFacts.In_alter in Hin as [Hin|(-> & v & Hv & ->)]; [auto|].
  rewrite Hf. auto.
Qed.

Lemma keyed_map_values (f : V -> V) m :
  (forall v, idOf (f v) = idOf v) -> keyed idOf m ->
  keyed idOf (map (fun e => (fst e, f (snd e))) m).
Proof.
  intros Hf [Hnd Hid]. split; [now rewrite JsMapFacts.keys_map_values|].
  intros k p Hin. apply in_map_iff in Hin as ([k0 v0] & [= <- <-] & Hin).
  rewrite Hf. auto.
Qed.
End Keyed.
End KeyedFacts.

(** ** Properties of the server *)

Module ServerFacts.
Import Server ServerProps.

(** *** Relaying *)

Lemma find_first {A} (f : A -> bool) (l : list A) (x : A) :
  List.find f l = Some x -> In x l /\ f x = true.
Proof. apply List.find_some. Qed.

Example offer_is_relayed_to_ann_only :
  snd (onMessage all_ready (fst (run init two_in_R)) 2 (Some (Relay Offer (JStr "a") "sdp")))
  = [(1, Forward (Relay Offer (JStr "a") "sdp"))].
Proof. reflexivity. Qed.

Example second_join_is_announced :
  snd (run init two_in_R) =
  [(1, RoomJoined (JStr "R") []);
   (2, RoomJoined (JStr "R") [(JStr "a", JStr "Ann")]);
   (1, PeerJoined (JStr "b") (JStr "Bob"))].
Proof. reflexivity. Qed.

(** *** Empty rooms *)

(** C3 fails on the code. A connection that is alone in room "A" and joins
    room "B" is taken out of "A", but "A" stays in the table with no member,
    and both room listings show it with [peerCount] 0. *)
Theorem join_leaves_empty_room_behind :
  let st := fst (run init ann_moves) in
  rooms st = [(JStr "A", []); (JStr "B", [mkPeerInfo 1 (JStr "p1") (JStr "Ann") 1])] /\
  ~ no_empty_room (rooms st) /\
  snd (onMessage all_ready st 1 (Some GetRooms)) =
    [(1, RoomsList [mkSummary (JStr "A") 0 [];
                    mkSummary (JStr "B") 1 [(JStr "p1", JStr "Ann")]])] /\
  body (httpServer (rooms st) (mkRequest "GET" "/rooms")) =
    JsonBody (Jarr
      [Jobj [("id", Jstr "A"); ("peerCount", Jnum 0); ("peers", Jarr [])];
       Jobj [("id", Jstr "B"); ("peerCount", Jnum 1);
             ("peers", Jarr [Jobj [("id", Jstr "p1"); ("name", Jstr "Ann")]])]]).
Proof.
  cbv zeta. split; [reflexivity|]. split; [|split; reflexivity].
  intros H. apply (H (JStr "A") []); [|reflexivity].
  vm_compute. left. reflexivity.
Qed.

(** The closing path does remove the room it empties. *)
Lemma close_removes_emptied_room :
  rooms (fst (run init
    [(all_ready, Connection 1);
     (all_ready, Incoming 1 (Some (Join (JStr "A") (JStr "p1") (JStr "Ann"))));
     (all_ready, Close 1)])) = [].
Proof. reflexivity. Qed.

(** *** Health check *)

Lemma health_has_no_roomCount : ~ health_has_roomCount [].
Proof.
  intros (j & Hbody & _ & Hcount). vm_compute in Hbody.
  injection Hbody as <-. vm_compute in Hcount. discriminate.
Qed.

(** C9, amended. [GET /health] answers 200 with the JSON object
    [{status: "ok", rooms: n}], [n] the number of rooms in the table; the
    count is in the field [rooms]. *)
Theorem health_reports_rooms_size (rs : Rooms) (req : Request) :
  method req = "GET" -> url req = "/health" ->
  status (httpServer rs req) = 200 /\
  body (httpServer rs req) =
    JsonBody (Jobj [("status", Jstr "ok"); ("rooms", Jnum (JsMap.size rs))]) /\
  exists j,
    body (httpServer rs req) = JsonBody j /\
    field "status" j = Some (Jstr "ok") /\
    field "rooms" j = Some (Jnum (JsMap.size rs)).
Proof.
  intros Hm Hu. unfold httpServer. rewrite Hm, Hu. cbn.
  repeat split. eexists. repeat split.
Qed.

Lemma health_reports_rooms_size_witness :
  let rs := rooms (fst (run init ann_moves)) in
  let req := mkRequest "GET" "/health" in
  status (httpServer rs req) = 200 /\
  body (httpServer rs req) =
    JsonBody (Jobj [("status", Jstr "ok"); ("rooms", Jnum 2)]) /\
  exists j,
    body (httpServer rs req) = JsonBody j /\
    field "status" j = Some (Jstr "ok") /\
    field "rooms" j = Some (Jnum 2).
Proof.
  exact (health_reports_rooms_size (rooms (fst (run init ann_moves)))
           (mkRequest "GET" "/health") eq_refl eq_refl).
Defined.

(** *** Who is told what on a join *)

Lemma broadcast_recipients ready rs k msg w s f :
  In (s, f) (broadcastToRoom ready rs k msg (Some w)) -> f = msg /\ s <> w.
Proof.
  unfold broadcastToRoom. destruct (JsMap.get rs k) as [room|]; [|intros []].
  intros Hin. apply in_map_iff in Hin as (p & [= <- <-] & Hp).
  apply List.filter_In in Hp as [_ Hp]. apply andb_true_iff in Hp as [Hp _].
  apply negb_true_iff, bool_decide_eq_false in Hp.
  split; [reflexivity | congruence].
Qed.


End ServerFacts.

(** ** Properties of the two managers *)

Module ManagerFacts.
Import Rtc ManagerProps.

(** *** Sending a chat message *)

Lemma mesh_isOpen_spec p : Mesh.isOpen p = true <-> Mesh.channel p = Some ChOpen.
Proof.
  unfold Mesh.isOpen. destruct (Mesh.channel p) as [[]|]; split; congruence.
Qed.

Lemma local_isOpen_spec p : Local.isOpen p = true <-> Local.channel p = Some ChOpen.
Proof.
  unfold Local.isOpen. destruct (Local.channel p) as [[]|]; split; congruence.
Qed.

Lemma mesh_open_length l : length (List.filter Mesh.isOpen l) = meshOpenCount l.
Proof.
  induction l as [|p r IH]; simpl; [reflexivity|].
  destruct (decide (Mesh.channel p = Some ChOpen)) as [Ho|Hc].
  - apply mesh_isOpen_spec in Ho. rewrite Ho. simpl. now rewrite IH.
  - destruct (Mesh.isOpen p) eqn:E; [apply mesh_isOpen_spec in E; contradiction|].
    exact IH.
Qed.

Lemma local_open_length l : length (List.filter Local.isOpen l) = localOpenCount l.
Proof.
  induction l as [|p r IH]; simpl; [reflexivity|].
  destruct (decide (Local.channel p = Some ChOpen)) as [Ho|Hc].
  - apply local_isOpen_spec in Ho. rewrite Ho. simpl. now rewrite IH.
  - destruct (Local.isOpen p) eqn:E; [apply local_isOpen_spec in E; contradiction|].
    exact IH.
Qed.

(** C4. In both managers [sendMessage] returns the one message built from the
    caller's id and name, the text and the time, and performs only channel
    sends of that message: as many as there are records with an open channel,
    each to a record of the map whose channel is open. *)
Theorem sendMessage_sends_once_per_open_channel :
  (forall (st : Mesh.State) (freshId : string) (now : nat) (txt : string),
     let N := meshOpenCount (JsMap.values (Mesh.peers st)) in
     let message := fst (Mesh.sendMessage st freshId now txt) in
     let calls := snd (Mesh.sendMessage st freshId now txt) in
     message = mkMessage freshId (Mesh.peerId st) (Mesh.peerName st) txt now /\
     length calls = N /\
     (forall e, In e calls ->
        exists p, In p (JsMap.values (Mesh.peers st)) /\
                  Mesh.channel p = Some ChOpen /\
                  e = Mesh.ChannelSend (Mesh.obj p) message) /\
     (forall p, In p (JsMap.values (Mesh.peers st)) ->
        Mesh.channel p = Some ChOpen ->
        In (Mesh.ChannelSend (Mesh.obj p) message) calls))
  /\
  (forall (st : Local.State) (freshId : string) (now : nat) (txt : string),
     let N := localOpenCount (JsMap.values (Local.peers st)) in
     let message := fst (Local.sendMessage st freshId now txt) in
     let calls := snd (Local.sendMessage st freshId now txt) in
     message = mkMessage freshId (Local.peerId st) (Local.peerName st) txt now /\
     length calls = N /\
     (forall e, In e calls ->
        exists p, In p (JsMap.values (Local.peers st)) /\
                  Local.channel p = Some ChOpen /\
                  e = Local.ChannelSend (Local.obj p) message) /\
     (forall p, In p (JsMap.values (Local.peers st)) ->
        Local.channel p = Some ChOpen ->
        In (Local.ChannelSend (Local.obj p) message) calls)).
Proof.
  split; intros st freshId now txt; cbn zeta; unfold Mesh.sendMessage, Local.sendMessage;
    cbn [fst snd].
  - split; [reflexivity|]. split; [|split].
    + rewrite length_map. apply mesh_open_length.
    + intros e He. apply in_map_iff in He as (p & <- & Hp).
      apply List.filter_In in Hp as [Hin Ho]. apply mesh_isOpen_spec in Ho. eauto.
    + intros p Hin Ho. apply in_map_iff. exists p. split; [reflexivity|].
      apply List.filter_In. split; [assumption|]. now apply mesh_isOpen_spec.
  - split; [reflexivity|]. split; [|split].
    + rewrite length_map. apply local_open_length.
    + intros e He. apply in_map_iff in He as (p & <- & Hp).
      apply List.filter_In in Hp as [Hin Ho]. apply local_isOpen_spec in Ho. eauto.
    + intros p Hin Ho. apply in_map_iff. exists p. split; [reflexivity|].
      apply List.filter_In. split; [assumption|]. now apply local_isOpen_spec.
Qed.

(** *** Who offers *)

Section MeshOffers.
Variable createOffer : nat -> Sdp.
Variable createAnswer : nat -> Sdp.







End MeshOffers.


(** *** Candidates that arrive before the remote description *)

Section MeshCandidates.
Variable createOffer : nat -> Sdp.
Variable createAnswer : nat -> Sdp.

Lemma added_app a b : added (a ++ b) = added a ++ added b.
Proof. unfold added. apply flat_map_app. Qed.

Lemma added_drained o l : added (map (Mesh.AddIceCandidate o) l) = map (pair o) l.
Proof. induction l as [|c l IH]; simpl; [reflexivity|]. now rewrite <- IH. Qed.

Lemma added_cons_other e l :
  (forall o c, e <> Mesh.AddIceCandidate o c) -> added (e :: l) = added l.
Proof. intros He. destruct e; try reflexivity. now destruct (He o c). Qed.

Lemma added_send st e : added (Mesh.send st e) = [].
Proof. unfold Mesh.send. destruct (Mesh.ws st) as [[]|]; reflexivity. Qed.

Lemma fold_addIceCandidate l : forall c,
  fold_left (fun c x => addIceCandidate x c) l c =
    mkPc (localDescription c) (remoteDescription c) (candidates c ++ l).
Proof.
  induction l as [|x l IH]; intros c; simpl.
  - rewrite app_nil_r. now destruct c.
  - rewrite IH. cbn. now rewrite <- app_assoc.
Qed.

Lemma candidatesFrom_app pid a b :
  candidatesFrom pid (a ++ b) = candidatesFrom pid a ++ candidatesFrom pid b.
Proof. unfold candidatesFrom. apply flat_map_app. Qed.

(** Creating a record for any peer leaves [pid] unsettled and its queue as
    it was. *)
Lemma createPeerConnection_unsettled st k kname b pid :
  unsettled st pid ->
  let st1 := fst (fst (Mesh.createPeerConnection createOffer st k kname b)) in
  unsettled st1 pid /\ Mesh.pendingCandidates st1 = Mesh.pendingCandidates st.
Proof.
  intros Hu. unfold Mesh.createPeerConnection.
  destruct b; cbn; (split; [|reflexivity]); intros p Hin;
    apply JsMapFacts.In_set in Hin as [[_ ->]|Hin]; auto.
Qed.

Lemma connectAll_unsettled members : forall st pid,
  unsettled st pid ->
  let st1 := fst (Mesh.connectAll createOffer st members) in
  unsettled st1 pid /\ Mesh.pendingCandidates st1 = Mesh.pendingCandidates st.
Proof.
  induction members as [|[k kname] rest IH]; intros st pid Hu; [now split|].
  cbn [Mesh.connectAll].
  pose proof (createPeerConnection_unsettled st k kname true pid Hu) as [Hu1 Hq1].
  destruct (Mesh.createPeerConnection createOffer st k kname true) as [[st1 p1] eff1].
  cbn [fst] in Hu1, Hq1.
  specialize (IH st1 pid Hu1).
  destruct (Mesh.connectAll createOffer st1 rest) as [st2 eff2].
  cbn [fst] in *. destruct IH as [Hu2 Hq2]. split; [assumption | congruence].
Qed.

Lemma unsettled_alter_other st pid k f :
  k <> pid -> unsettled st pid ->
  unsettled (Mesh.set_peers st (JsMap.alter f (Mesh.peers st) k)) pid.
Proof.
  intros Hne Hu p Hin. cbn in Hin.
  apply JsMapFacts.In_alter in Hin as [Hin|[-> _]]; [auto | congruence].
Qed.

Lemma queue_delete_other st pid k :
  k <> pid ->
  queue (Mesh.set_pending st (base.delete k (Mesh.pendingCandidates st))) pid = queue st pid.
Proof. intros Hne. unfold queue. cbn. now rewrite lookup_delete_ne. Qed.

Lemma handleOffer_other st k kname offer pid :
  k <> pid -> unsettled st pid ->
  let st1 := fst (Mesh.handleOffer createOffer createAnswer st k kname offer) in
  unsettled st1 pid /\ queue st1 pid = queue st pid.
Proof.
  intros Hne Hu. unfold Mesh.handleOffer.
  assert (Hpre : exists st0 peer eff0,
             match JsMap.get (Mesh.peers st) k with
             | Some peer => (st, peer, [])
             | None => Mesh.createPeerConnection createOffer st k kname false
             end = (st0, peer, eff0) /\
             unsettled st0 pid /\ Mesh.pendingCandidates st0 = Mesh.pendingCandidates st).
  { destruct (JsMap.get (Mesh.peers st) k) as [peer|].
    - exists st, peer, []. auto.
    - pose proof (createPeerConnection_unsettled st k kname false pid Hu) as [Hu1 Hq1].
      destruct (Mesh.createPeerConnection createOffer st k kname false) as [[st0 p0] eff0].
      exists st0, p0, eff0. auto. }
  destruct Hpre as (st0 & peer & eff0 & -> & Hu0 & Hq0).
  unfold Mesh.drain. cbn [fst]. split.
  - intros p Hin. cbn in Hin.
    apply JsMapFacts.In_alter in Hin as [Hin|[-> _]]; [|congruence].
    apply JsMapFacts.In_alter in Hin as [Hin|[-> _]]; [|congruence].
    apply JsMapFacts.In_alter in Hin as [Hin|[-> _]]; [|congruence].
    auto.
  - unfold queue. cbn. rewrite lookup_delete_ne by assumption. now rewrite Hq0.
Qed.

Lemma handleAnswer_other st k answer pid :
  k <> pid -> unsettled st pid ->
  let st1 := fst (Mesh.handleAnswer st k answer) in
  unsettled st1 pid /\ queue st1 pid = queue st pid.
Proof.
  intros Hne Hu. unfold Mesh.handleAnswer.
  destruct (JsMap.get (Mesh.peers st) k) as [peer|]; [|now split].
  unfold Mesh.drain. cbn [fst]. split.
  - intros p Hin. cbn in Hin.
    apply JsMapFacts.In_alter in Hin as [Hin|[-> _]]; [|congruence].
    apply JsMapFacts.In_alter in Hin as [Hin|[-> _]]; [|congruence].
    auto.
  - unfold queue. cbn. now rewrite lookup_delete_ne.
Qed.

Lemma queue_enqueue st k c pid :
  queue (Mesh.enqueue st k c) pid =
    queue st pid ++ (if String.eqb k pid then [c] else []).
Proof.
  unfold queue, Mesh.enqueue. cbn.
  destruct (String.eqb_spec k pid) as [->|Hne].
  - now rewrite lookup_insert_eq.
  - rewrite lookup_insert_ne by assumption. now rewrite app_nil_r.
Qed.

(** A candidate from an unsettled peer goes to the end of its queue; one
    from another peer leaves the queue alone. Nothing is applied for [pid]. *)
Lemma handleIceCandidate_unsettled st k c pid :
  unsettled st pid ->
  let st1 := fst (Mesh.handleIceCandidate st k c) in
  unsettled st1 pid /\
  queue st1 pid = queue st pid ++ (if String.eqb k pid then [c] else []).
Proof.
  intros Hu. unfold Mesh.handleIceCandidate.
  destruct (JsMap.get (Mesh.peers st) k) as [peer|] eqn:Hget.
  - destruct (remoteDescription (Mesh.pc peer)) as [d|] eqn:Hrd.
    + assert (Hne : k <> pid).
      { intros ->. apply JsMapFacts.get_In in Hget.
        destruct (Hu _ Hget) as [Hnone _]. congruence. }
      cbn [fst]. split; [now apply unsettled_alter_other|].
      apply String.eqb_neq in Hne. rewrite Hne, app_nil_r. reflexivity.
    + cbn [fst]. split; [exact Hu | apply queue_enqueue].
  - cbn [fst]. split; [exact Hu | apply queue_enqueue].
Qed.

Lemma removePeer_unsettled st k pid :
  unsettled st pid ->
  let st1 := fst (Mesh.removePeer st k) in
  unsettled st1 pid /\ queue st1 pid = queue st pid.
Proof.
  intros Hu. unfold Mesh.removePeer.
  destruct (JsMap.get (Mesh.peers st) k) as [peer|]; [|now split].
  cbn [fst]. split; [|reflexivity].
  intros p Hin. cbn in Hin. apply JsMapFacts.In_delete in Hin as [Hin _]. auto.
Qed.

Lemma quiet_signal st pid s :
  unsettled st pid -> quiet pid s = true ->
  let st1 := fst (Mesh.handleSignal createOffer createAnswer st s) in
  unsettled st1 pid /\ queue st1 pid = queue st pid ++ candidatesFrom pid [s].
Proof.
  intros Hu Hq. destruct s as [room members|k kname|k kname|k kname offer|k answer|k c|l|];
    cbn [Mesh.handleSignal candidatesFrom flat_map]; rewrite ?app_nil_r.
  - pose proof (connectAll_unsettled members (Mesh.set_roomId st room) pid Hu) as [Hu1 Hq1].
    destruct (Mesh.connectAll createOffer (Mesh.set_roomId st room) members) as [st1 eff].
    cbn [fst] in *. split; [assumption|]. unfold queue. now rewrite Hq1.
  - now split.
  - pose proof (removePeer_unsettled st k pid Hu) as H.
    destruct (Mesh.removePeer st k) as [st1 eff]. exact H.
  - cbn in Hq. apply negb_true_iff, String.eqb_neq in Hq.
    now apply handleOffer_other.
  - cbn in Hq. apply negb_true_iff, String.eqb_neq in Hq.
    now apply handleAnswer_other.
  - now apply handleIceCandidate_unsettled.
  - now split.
  - now split.
Qed.

Lemma quiet_signals signals : forall st pid,
  unsettled st pid -> forallb (quiet pid) signals = true ->
  let st1 := fst (Mesh.handleSignals createOffer createAnswer st signals) in
  unsettled st1 pid /\ queue st1 pid = queue st pid ++ candidatesFrom pid signals.
Proof.
  induction signals as [|s rest IH]; intros st pid Hu Hq.
  - cbn. rewrite app_nil_r. now split.
  - cbn [forallb] in Hq. apply andb_true_iff in Hq as [Hs Hrest].
    cbn [Mesh.handleSignals].
    pose proof (quiet_signal st pid s Hu Hs) as [Hu1 Hq1].
    destruct (Mesh.handleSignal createOffer createAnswer st s) as [st1 eff1].
    cbn [fst] in Hu1, Hq1.
    specialize (IH st1 pid Hu1 Hrest).
    destruct (Mesh.handleSignals createOffer createAnswer st1 rest) as [st2 eff2].
    cbn [fst] in *. destruct IH as [Hu2 Hq2]. split; [assumption|].
    rewrite Hq2, Hq1. change (s :: rest) with ([s] ++ rest).
    now rewrite candidatesFrom_app, app_assoc.
Qed.
(** Applying the remote description of an offer drains the queue. *)
Lemma handleOffer_drains st pid fromName offer :
  unsettled st pid ->
  let res := Mesh.handleOffer createOffer createAnswer st pid fromName offer in
  exists p,
    JsMap.get (Mesh.peers (fst res)) pid = Some p /\
    remoteDescription (Mesh.pc p) = Some offer /\
    candidates (Mesh.pc p) = queue st pid /\
    added (snd res) = map (pair (Mesh.obj p)) (queue st pid) /\
    Mesh.pendingCandidates (fst res) !! pid = None.
Proof.
  intros Hu. unfold Mesh.handleOffer.
  assert (Hpre : exists st0 peer eff0,
             match JsMap.get (Mesh.peers st) pid with
             | Some peer => (st, peer, [])
             | None => Mesh.createPeerConnection createOffer st pid fromName false
             end = (st0, peer, eff0) /\
             JsMap.get (Mesh.peers st0) pid = Some peer /\
             remoteDescription (Mesh.pc peer) = None /\
             candidates (Mesh.pc peer) = [] /\
             added eff0 = [] /\
             Mesh.pendingCandidates st0 = Mesh.pendingCandidates st).
  { destruct (JsMap.get (Mesh.peers st) pid) as [peer|] eqn:Hget.
    - exists st, peer, []. apply JsMapFacts.get_In in Hget as Hin.
      destruct (Hu _ Hin). auto 10.
    - eexists _, _, _. split; [reflexivity|]. cbn.
      rewrite JsMapFacts.get_set_eq. auto 10. }
  destruct Hpre as (st0 & peer & eff0 & -> & Hget & Hrd & Hcs & Heff & Hq).
  unfold Mesh.drain. cbn [fst snd Mesh.set_peers Mesh.set_pending Mesh.peers
                          Mesh.pendingCandidates].
  rewrite !JsMapFacts.get_alter_eq, Hget. cbn [option_map].
  eexists. split; [reflexivity|]. cbn [Mesh.with_pc Mesh.pc Mesh.obj].
  rewrite fold_addIceCandidate. cbn. rewrite Hcs, Hq. cbn.
  repeat split.
  - rewrite added_app, Heff. cbn [app].
    rewrite added_cons_other by (intros; discriminate).
    rewrite added_app, added_drained.
    rewrite !added_cons_other by (intros; discriminate).
    now rewrite added_send, app_nil_r.
  - apply lookup_delete_eq.
Qed.

(** So does applying the remote description of an answer. *)
Lemma handleAnswer_drains st pid answer peer :
  unsettled st pid ->
  JsMap.get (Mesh.peers st) pid = Some peer ->
  let res := Mesh.handleAnswer st pid answer in
  exists p,
    JsMap.get (Mesh.peers (fst res)) pid = Some p /\
    Mesh.obj p = Mesh.obj peer /\
    remoteDescription (Mesh.pc p) = Some answer /\
    candidates (Mesh.pc p) = queue st pid /\
    added (snd res) = map (pair (Mesh.obj p)) (queue st pid) /\
    Mesh.pendingCandidates (fst res) !! pid = None.
Proof.
  intros Hu Hget. unfold Mesh.handleAnswer. rewrite Hget.
  apply JsMapFacts.get_In in Hget as Hin. destruct (Hu _ Hin) as [Hrd Hcs].
  unfold Mesh.drain. cbn [fst snd Mesh.set_peers Mesh.set_pending Mesh.peers
                          Mesh.pendingCandidates].
  rewrite !JsMapFacts.get_alter_eq, Hget. cbn [option_map].
  eexists. split; [reflexivity|]. cbn [Mesh.with_pc Mesh.pc Mesh.obj].
  rewrite fold_addIceCandidate. cbn. rewrite Hcs. cbn.
  repeat split.
  - apply added_drained.
  - apply lookup_delete_eq.
Qed.

(** The calls of the two handlers that drain, in program order. *)
Lemma handleOffer_trace st pid fromName offer :
  unsettled st pid ->
  let res := Mesh.handleOffer createOffer createAnswer st pid fromName offer in
  exists p pre,
    JsMap.get (Mesh.peers (fst res)) pid = Some p /\
    remoteDescription (Mesh.pc p) = Some offer /\
    candidates (Mesh.pc p) = queue st pid /\
    Mesh.pendingCandidates (fst res) !! pid = None /\
    added pre = [] /\
    snd res =
      pre ++ Mesh.SetRemoteDescription (Mesh.obj p) offer
          :: map (Mesh.AddIceCandidate (Mesh.obj p)) (queue st pid)
          ++ [Mesh.CreateAnswer (Mesh.obj p);
              Mesh.SetLocalDescription (Mesh.obj p) (createAnswer (Mesh.obj p))]
          ++ Mesh.send st (Mesh.Answer (Mesh.peerId st) (Mesh.peerName st) pid
                             (createAnswer (Mesh.obj p))).
Proof.
  intros Hu. unfold Mesh.handleOffer.
  assert (Hpre : exists st0 peer eff0,
             match JsMap.get (Mesh.peers st) pid with
             | Some peer => (st, peer, [])
             | None => Mesh.createPeerConnection createOffer st pid fromName false
             end = (st0, peer, eff0) /\
             JsMap.get (Mesh.peers st0) pid = Some peer /\
             remoteDescription (Mesh.pc peer) = None /\
             candidates (Mesh.pc peer) = [] /\
             added eff0 = [] /\
             Mesh.pendingCandidates st0 = Mesh.pendingCandidates st).
  { destruct (JsMap.get (Mesh.peers st) pid) as [peer|] eqn:Hget.
    - exists st, peer, []. apply JsMapFacts.get_In in Hget as Hin.
      destruct (Hu _ Hin). auto 10.
    - eexists _, _, _. split; [reflexivity|]. cbn.
      rewrite JsMapFacts.get_set_eq. auto 10. }
  destruct Hpre as (st0 & peer & eff0 & -> & Hget & Hrd & Hcs & Heff & Hq).
  unfold Mesh.drain. cbn [fst snd Mesh.set_peers Mesh.set_pending Mesh.peers
                          Mesh.pendingCandidates].
  rewrite !JsMapFacts.get_alter_eq, Hget. cbn [option_map].
  eexists. exists eff0. split; [reflexivity|]. cbn [Mesh.with_pc Mesh.pc Mesh.obj].
  rewrite fold_addIceCandidate. cbn. rewrite Hcs, Hq. cbn.
  repeat split; try assumption.
  apply lookup_delete_eq.
Qed.

Lemma handleAnswer_trace st pid answer peer :
  unsettled st pid ->
  JsMap.get (Mesh.peers st) pid = Some peer ->
  let res := Mesh.handleAnswer st pid answer in
  exists p,
    JsMap.get (Mesh.peers (fst res)) pid = Some p /\
    Mesh.obj p = Mesh.obj peer /\
    remoteDescription (Mesh.pc p) = Some answer /\
    candidates (Mesh.pc p) = queue st pid /\
    Mesh.pendingCandidates (fst res) !! pid = None /\
    snd res =
      Mesh.SetRemoteDescription (Mesh.obj p) answer
      :: map (Mesh.AddIceCandidate (Mesh.obj p)) (queue st pid).
Proof.
  intros Hu Hget. unfold Mesh.handleAnswer. rewrite Hget.
  apply JsMapFacts.get_In in Hget as Hin. destruct (Hu _ Hin) as [Hrd Hcs].
  unfold Mesh.drain. cbn [fst snd Mesh.set_peers Mesh.set_pending Mesh.peers
                          Mesh.pendingCandidates].
  rewrite !JsMapFacts.get_alter_eq, Hget. cbn [option_map].
  eexists. split; [reflexivity|]. cbn [Mesh.with_pc Mesh.pc Mesh.obj].
  rewrite fold_addIceCandidate. cbn. rewrite Hcs. cbn.
  repeat split.
  apply lookup_delete_eq.
Qed.

End MeshCandidates.

Lemma waitingForAnswer_unsettled : unsettled waitingForAnswer "a".
Proof.
  intros p [Hin|[]]. injection Hin as <-. split; reflexivity.
Defined.

Example answer_drains_the_queue :
  snd (Mesh.handleSignals (fun _ => "offer") (fun _ => "answer") waitingForAnswer
         (heardWhileWaiting ++ [Mesh.SAnswer "a" "answer"])) =
  [Mesh.OnPeerJoin "b" "Bob"; Mesh.SetRemoteDescription 0 "answer";
   Mesh.AddIceCandidate 0 "c0"; Mesh.AddIceCandidate 0 "c1"; Mesh.AddIceCandidate 0 "c2"].
Proof. vm_compute. reflexivity. Qed.

(** *** Tearing a record down *)

Lemma mesh_closeHandles_spec p :
  In (Mesh.PcClose (Mesh.obj p)) (Mesh.closeHandles p) /\
  (Mesh.channel p <> None -> In (Mesh.ChannelClose (Mesh.obj p)) (Mesh.closeHandles p)).
Proof.
  unfold Mesh.closeHandles. destruct (Mesh.channel p); simpl; split; auto.
Qed.

Lemma removal_leaves_queue : ~ removal_clears_queue.
Proof.
  intros H.
  specialize (H waitingForAnswer "a"
    (Mesh.mkPeer "a" "Ann" (mkPc (Some "offer") None []) (Some ChConnecting) false 0) eq_refl).
  vm_compute in H. discriminate.
Qed.

(** C6, amended. [removePeer] on a peer that has a record closes its channel
    (when it has one) and its connection, takes the record out of the map and
    reports the new roster; [peer-left] does this and then calls the leave
    callback; [disconnect] closes the handles of every record and empties the
    map. None of them touches [pendingCandidates]: the candidates queued for
    a removed peer stay queued, and an offer that later arrives from the same
    id applies them to the new connection. *)
Theorem teardown_closes_and_removes_but_keeps_queue :
  (forall (st : Mesh.State) (pid : string) (peer : Mesh.PeerConnection),
     JsMap.get (Mesh.peers st) pid = Some peer ->
     let res := Mesh.removePeer st pid in
     JsMap.get (Mesh.peers (fst res)) pid = None /\
     (forall k, k <> pid -> JsMap.get (Mesh.peers (fst res)) k = JsMap.get (Mesh.peers st) k) /\
     snd res = Mesh.closeHandles peer ++ [Mesh.OnConnectionChange (Mesh.peerList (fst res))] /\
     In (Mesh.PcClose (Mesh.obj peer)) (snd res) /\
     (Mesh.channel peer <> None -> In (Mesh.ChannelClose (Mesh.obj peer)) (snd res)) /\
     Mesh.pendingCandidates (fst res) = Mesh.pendingCandidates st /\
     (forall createOffer createAnswer pname,
        Mesh.handleSignal createOffer createAnswer st (Mesh.PeerLeft pid pname) =
          (fst res, snd res ++ [Mesh.OnPeerLeave pid pname])) /\
     (forall createOffer createAnswer fromName offer,
        let later := Mesh.handleSignal createOffer createAnswer (fst res)
                       (Mesh.SOffer pid fromName offer) in
        exists p,
          JsMap.get (Mesh.peers (fst later)) pid = Some p /\
          Mesh.obj p = Mesh.nextObj st /\
          added (snd later) = map (pair (Mesh.obj p)) (queue st pid)))
  /\
  (forall (st : Mesh.State),
     let res := Mesh.disconnect st in
     Mesh.peers (fst res) = [] /\
     Mesh.ws (fst res) = None /\
     (forall p, In p (JsMap.values (Mesh.peers st)) ->
        In (Mesh.PcClose (Mesh.obj p)) (snd res) /\
        (Mesh.channel p <> None -> In (Mesh.ChannelClose (Mesh.obj p)) (snd res))) /\
     Mesh.pendingCandidates (fst res) = Mesh.pendingCandidates st).
Proof.
  split.
  - intros st pid peer Hget. cbn zeta. unfold Mesh.removePeer. rewrite Hget.
    cbn [fst snd Mesh.set_peers Mesh.peers Mesh.pendingCandidates].
    destruct (mesh_closeHandles_spec peer) as [Hpc Hch].
    split; [apply JsMapFacts.get_delete_eq|].
    split; [intros k Hk; apply JsMapFacts.get_delete_ne; congruence|].
    split; [reflexivity|].
    split; [apply in_or_app; now left|].
    split; [intros Hc; apply in_or_app; left; auto|].
    split; [reflexivity|].
    split.
    + intros createOffer createAnswer pname. cbn [Mesh.handleSignal].
      unfold Mesh.removePeer. rewrite Hget. reflexivity.
    + intros createOffer createAnswer fromName offer. cbn zeta. cbn [Mesh.handleSignal].
      set (st1 := Mesh.set_peers st (JsMap.delete (Mesh.peers st) pid)).
      assert (Hu : unsettled st1 pid).
      { intros p Hin. cbn in Hin. apply JsMapFacts.In_delete in Hin as [_ Hne].
        now destruct Hne. }
      destruct (handleOffer_drains createOffer createAnswer st1 pid fromName offer Hu)
        as (p & Hp & _ & _ & Hadded & _).
      exists p. split; [exact Hp|]. split; [|exact Hadded].
      revert Hp. unfold Mesh.handleOffer, Mesh.drain.
      replace (JsMap.get (Mesh.peers st1) pid) with (@None Mesh.PeerConnection)
        by (symmetry; apply JsMapFacts.get_delete_eq).
      cbn. rewrite !JsMapFacts.get_alter_eq, JsMapFacts.get_set_eq. cbn.
      now intros [= <-].
  - intros st. cbn zeta. unfold Mesh.disconnect. cbn [fst snd Mesh.peers Mesh.ws
      Mesh.pendingCandidates].
    repeat split.
    + apply in_or_app. left. apply in_flat_map. exists p. split; [assumption|].
      apply mesh_closeHandles_spec.
    + intros Hc. apply in_or_app. left. apply in_flat_map. exists p.
      split; [assumption|]. now apply mesh_closeHandles_spec.
Qed.

Lemma teardown_closes_and_removes_but_keeps_queue_witness :
  let peer := Mesh.mkPeer "a" "Ann" (mkPc (Some "offer") None []) (Some ChConnecting) false 0 in
  let res := Mesh.removePeer waitingForAnswer "a" in
  JsMap.get (Mesh.peers (fst res)) "a" = None /\
  (forall k, k <> "a" ->
     JsMap.get (Mesh.peers (fst res)) k = JsMap.get (Mesh.peers waitingForAnswer) k) /\
  snd res = Mesh.closeHandles peer ++ [Mesh.OnConnectionChange (Mesh.peerList (fst res))] /\
  In (Mesh.PcClose 0) (snd res) /\
  (Mesh.channel peer <> None -> In (Mesh.ChannelClose 0) (snd res)) /\
  Mesh.pendingCandidates (fst res) = Mesh.pendingCandidates waitingForAnswer /\
  (forall createOffer createAnswer pname,
     Mesh.handleSignal createOffer createAnswer waitingForAnswer (Mesh.PeerLeft "a" pname) =
       (fst res, snd res ++ [Mesh.OnPeerLeave "a" pname])) /\
  (forall createOffer createAnswer fromName offer,
     let later := Mesh.handleSignal createOffer createAnswer (fst res)
                    (Mesh.SOffer "a" fromName offer) in
     exists p,
       JsMap.get (Mesh.peers (fst later)) "a" = Some p /\
       Mesh.obj p = 1 /\
       added (snd later) = map (pair (Mesh.obj p)) (queue waitingForAnswer "a")).
Proof.
  exact (proj1 teardown_closes_and_removes_but_keeps_queue waitingForAnswer "a"
           (Mesh.mkPeer "a" "Ann" (mkPc (Some "offer") None []) (Some ChConnecting) false 0)
           eq_refl).
Defined.

Example stale_candidate_reaches_new_connection :
  let left := fst (Mesh.removePeer waitingForAnswer "a") in
  added (snd (Mesh.handleOffer (fun _ => "offer") (fun _ => "answer") left "a" "Ann" "offer2"))
    = [(1, "c0")].
Proof. vm_compute. reflexivity. Qed.

(** *** A connection that fails *)

Lemma mesh_mutate_map o f ps :
  Mesh.mutate o f ps =
    map (fun e => (fst e, (fun p => if Nat.eqb (Mesh.obj p) o then f p else p) (snd e))) ps.
Proof.
  unfold Mesh.mutate. apply map_ext. intros [k p]. cbn.
  now destruct (Nat.eqb (Mesh.obj p) o).
Qed.

Lemma local_mutate_map o f ps :
  Local.mutate o f ps =
    map (fun e => (fst e, (fun p => if Nat.eqb (Local.obj p) o then f p else p) (snd e))) ps.
Proof.
  unfold Local.mutate. apply map_ext. intros [k p]. cbn.
  now destruct (Nat.eqb (Local.obj p) o).
Qed.

Lemma mesh_get_mutate o f ps k :
  JsMap.get (Mesh.mutate o f ps) k =
    option_map (fun p => if Nat.eqb (Mesh.obj p) o then f p else p) (JsMap.get ps k).
Proof.
  rewrite mesh_mutate_map.
  apply (JsMapFacts.get_map_values (fun p => if Nat.eqb (Mesh.obj p) o then f p else p)).
Qed.

Lemma local_get_mutate o f ps k :
  JsMap.get (Local.mutate o f ps) k =
    option_map (fun p => if Nat.eqb (Local.obj p) o then f p else p) (JsMap.get ps k).
Proof.
  rewrite local_mutate_map.
  apply (JsMapFacts.get_map_values (fun p => if Nat.eqb (Local.obj p) o then f p else p)).
Qed.

Lemma mesh_keys_mutate o f ps : JsMap.keys (Mesh.mutate o f ps) = JsMap.keys ps.
Proof.
  rewrite mesh_mutate_map.
  apply (JsMapFacts.keys_map_values (fun p => if Nat.eqb (Mesh.obj p) o then f p else p)).
Qed.

Lemma mesh_In_mutate o f ps k q :
  In (k, q) (Mesh.mutate o f ps) ->
  exists p, In (k, p) ps /\ q = if Nat.eqb (Mesh.obj p) o then f p else p.
Proof.
  rewrite mesh_mutate_map. intros Hin. apply in_map_iff in Hin as ([k0 p] & [= <- <-] & Hin).
  exists p. auto.
Qed.

Lemma local_In_mutate o f ps k q :
  In (k, q) (Local.mutate o f ps) ->
  exists p, In (k, p) ps /\ q = if Nat.eqb (Local.obj p) o then f p else p.
Proof.
  rewrite local_mutate_map. intros Hin. apply in_map_iff in Hin as ([k0 p] & [= <- <-] & Hin).
  exists p. auto.
Qed.

Lemma local_closeHandles_spec p :
  In (Local.ConnectionClose (Local.obj p)) (Local.closeHandles p) /\
  (Local.channel p <> None -> In (Local.ChannelClose (Local.obj p)) (Local.closeHandles p)) /\
  forallb (fun e => negb (localNegotiates e)) (Local.closeHandles p) = true.
Proof.
  unfold Local.closeHandles. destruct (Local.channel p); simpl; repeat split; auto.
Qed.

Lemma mesh_failure_keeps_record : ~ mesh_failure_removes_record.
Proof.
  intros H.
  specialize (H connectedToAnn "a"
    (Mesh.mkPeer "a" "Ann" (mkPc (Some "offer") (Some "answer") []) (Some ChOpen) true 0)
    eq_refl).
  vm_compute in H. discriminate.
Qed.

(** C5, amended. When the connection of a peer's record reaches the failed
    state, the broadcast-channel manager marks the record disconnected,
    reports the count, then removes the peer: channel (when present) and
    connection closed, record out of the map and of [getConnectedPeers]. The
    mesh manager only marks the record disconnected and reports the roster:
    the record stays in the map with its handles, is listed by the
    connection-change callback with [connected = false], and is left out of
    [getConnectedPeers]. Neither manager creates a connection or sends a
    signal. *)
Theorem failed_connection_local_removes_mesh_flags :
  (forall (st : Local.State) (pid : string) (p : Local.Peer),
     localKeyed st ->
     JsMap.get (Local.peers st) pid = Some p ->
     let res := Local.onconnectionstatechange st (Local.obj p) pid CsFailed in
     JsMap.get (Local.peers (fst res)) pid = None /\
     In (Local.ConnectionClose (Local.obj p)) (snd res) /\
     (Local.channel p <> None -> In (Local.ChannelClose (Local.obj p)) (snd res)) /\
     ~ In pid (map fst (Local.getConnectedPeers (fst res))) /\
     forallb (fun e => negb (localNegotiates e)) (snd res) = true)
  /\
  (forall (st : Mesh.State) (pid : string) (p : Mesh.PeerConnection),
     meshKeyed st ->
     JsMap.get (Mesh.peers st) pid = Some p ->
     let res := Mesh.onconnectionstatechange st (Mesh.obj p) CsFailed in
     JsMap.get (Mesh.peers (fst res)) pid = Some (Mesh.with_connected false p) /\
     snd res = [Mesh.OnConnectionChange (Mesh.peerList (fst res))] /\
     In (Mesh.mkPeerInfo pid (Mesh.name p) false) (Mesh.peerList (fst res)) /\
     ~ In pid (map Mesh.infoId (Mesh.getConnectedPeers (fst res))) /\
     forallb (fun e => negb (meshNegotiates e)) (snd res) = true).
Proof.
  split.
  - intros st pid p [Hnd Hkey] Hget. cbn zeta.
    unfold Local.onconnectionstatechange, Local.removePeer.
    cbn [Local.set_peers Local.peers].
    rewrite local_get_mutate, Hget. cbn [option_map].
    rewrite Nat.eqb_refl. cbn [fst snd Local.set_peers Local.peers].
    destruct (local_closeHandles_spec (Local.with_connected false p)) as (Hc & Hch & Hneg).
    cbn [Local.with_connected Local.obj Local.channel] in Hc, Hch.
    split; [apply JsMapFacts.get_delete_eq|].
    split; [apply in_or_app; right; apply in_or_app; now left|].
    split; [intros Hp; apply in_or_app; right; apply in_or_app; left; auto|].
    split.
    + unfold Local.getConnectedPeers. cbn [Local.peers]. rewrite map_map. cbn [fst].
      intros Hin. apply in_map_iff in Hin as (q & Hid & Hq).
      apply List.filter_In in Hq as [Hq _].
      unfold JsMap.values in Hq. apply in_map_iff in Hq as ([k q'] & Hsnd & Hq).
      cbn in Hsnd. subst q'.
      apply JsMapFacts.In_delete in Hq as [Hq Hne].
      apply local_In_mutate in Hq as (q0 & Hq0 & ->).
      apply Hkey in Hq0. apply Hne. rewrite <- Hq0, <- Hid.
      now destruct (Nat.eqb (Local.obj q0) (Local.obj p)).
    + rewrite !forallb_app, Hneg. reflexivity.
  - intros st pid p [Hnd Hkey] Hget. cbn zeta.
    unfold Mesh.onconnectionstatechange. cbn [fst snd Mesh.set_peers Mesh.peers].
    assert (Hget' : JsMap.get (Mesh.mutate (Mesh.obj p) (Mesh.with_connected false) (Mesh.peers st)) pid
                    = Some (Mesh.with_connected false p)).
    { rewrite mesh_get_mutate, Hget. cbn. now rewrite Nat.eqb_refl. }
    split; [exact Hget'|]. split; [reflexivity|]. split; [|split; [|reflexivity]].
    + unfold Mesh.peerList. cbn [Mesh.peers]. apply in_map_iff.
      exists (Mesh.with_connected false p). split.
      * cbn. f_equal. apply Hkey. now apply JsMapFacts.get_In.
      * unfold JsMap.values. apply in_map_iff.
        exists (pid, Mesh.with_connected false p). split; [reflexivity|].
        now apply JsMapFacts.get_In.
    + unfold Mesh.getConnectedPeers. cbn [Mesh.peers]. rewrite map_map. cbn [Mesh.infoId].
      intros Hin. apply in_map_iff in Hin as (q & Hid & Hq).
      apply List.filter_In in Hq as [Hq Hconn].
      unfold JsMap.values in Hq. apply in_map_iff in Hq as ([k q'] & Hsnd & Hq).
      cbn in Hsnd. subst q'.
      assert (Hk : k = pid).
      { apply mesh_In_mutate in Hq as (q0 & Hq0 & ->).
        apply Hkey in Hq0. rewrite <- Hq0, <- Hid.
        now destruct (Nat.eqb (Mesh.obj q0) (Mesh.obj p)). }
      subst k. cbn [Mesh.set_peers Mesh.peers] in Hq.
      apply JsMapFacts.In_get in Hq; [|now rewrite mesh_keys_mutate].
      rewrite Hget' in Hq. injection Hq as <-. cbn in Hconn. discriminate.
Qed.

Lemma connectedToAnn_keyed : meshKeyed connectedToAnn.
Proof.
  split.
  - apply NoDup_singleton.
  - intros k p [Hin|[]]. now injection Hin as <- <-.
Defined.

Lemma localConnectedToAnn_keyed : localKeyed localConnectedToAnn.
Proof.
  split.
  - apply NoDup_singleton.
  - intros k p [Hin|[]]. now injection Hin as <- <-.
Defined.

Lemma failed_connection_local_removes_mesh_flags_witness :
  (let p := Local.mkPeer "a" "Ann" (mkPc (Some "offer") (Some "answer") []) (Some ChOpen) true 0 in
   let res := Local.onconnectionstatechange localConnectedToAnn 0 "a" CsFailed in
   JsMap.get (Local.peers (fst res)) "a" = None /\
   In (Local.ConnectionClose 0) (snd res) /\
   (Local.channel p <> None -> In (Local.ChannelClose 0) (snd res)) /\
   ~ In "a" (map fst (Local.getConnectedPeers (fst res))) /\
   forallb (fun e => negb (localNegotiates e)) (snd res) = true)
  /\
  (let p := Mesh.mkPeer "a" "Ann" (mkPc (Some "offer") (Some "answer") []) (Some ChOpen) true 0 in
   let res := Mesh.onconnectionstatechange connectedToAnn 0 CsFailed in
   JsMap.get (Mesh.peers (fst res)) "a" = Some (Mesh.with_connected false p) /\
   snd res = [Mesh.OnConnectionChange (Mesh.peerList (fst res))] /\
   In (Mesh.mkPeerInfo "a" "Ann" false) (Mesh.peerList (fst res)) /\
   ~ In "a" (map Mesh.infoId (Mesh.getConnectedPeers (fst res))) /\
   forallb (fun e => negb (meshNegotiates e)) (snd res) = true).
Proof.
  split.
  - exact (proj1 failed_connection_local_removes_mesh_flags localConnectedToAnn "a"
             (Local.mkPeer "a" "Ann" (mkPc (Some "offer") (Some "answer") []) (Some ChOpen) true 0)
             localConnectedToAnn_keyed eq_refl).
  - exact (proj2 failed_connection_local_removes_mesh_flags connectedToAnn "a"
             (Mesh.mkPeer "a" "Ann" (mkPc (Some "offer") (Some "answer") []) (Some ChOpen) true 0)
             connectedToAnn_keyed eq_refl).
Defined.

Example mesh_failure_is_only_reported :
  Mesh.onconnectionstatechange connectedToAnn 0 CsFailed =
    (Mesh.mkState "me" "Me" "R" (Some Mesh.OPEN)
       [("a", Mesh.mkPeer "a" "Ann" (mkPc (Some "offer") (Some "answer") []) (Some ChOpen) false 0)]
       ∅ 1,
     [Mesh.OnConnectionChange [Mesh.mkPeerInfo "a" "Ann" false]]).
Proof. reflexivity. Qed.

Example local_failure_removes_the_peer :
  Local.onconnectionstatechange localConnectedToAnn 0 "a" CsFailed =
    (Local.mkState "me" "Me" "R" [] 1,
     [Local.OnConnectionChange false 0;
      Local.ChannelClose 0; Local.ConnectionClose 0;
      Local.OnPeerLeave "a"; Local.OnConnectionChange false 0]).
Proof. reflexivity. Qed.

(** *** Signals on the broadcast channel and the manager's own id *)

Lemma offer_from_self_creates_own_record : ~ own_record_never_touched.
Proof.
  intros H.
  specialize (H (fun _ => "offer") (fun _ => "answer") localAlone
                (Local.Offer "me" "Me" "me" "sdp")).
  vm_compute in H. discriminate.
Qed.

Section LocalSignals.
Variable createOffer : nat -> Sdp.
Variable createAnswer : nat -> Sdp.

Lemma local_handleOffer_other st from fromName offer k :
  from <> k ->
  JsMap.get (Local.peers (fst (Local.handleOffer createOffer createAnswer st from fromName offer))) k
  = JsMap.get (Local.peers st) k.
Proof.
  intros Hne. unfold Local.handleOffer.
  destruct (JsMap.get (Local.peers st) from) as [peer|].
  - cbn. now rewrite JsMapFacts.get_alter_ne.
  - cbn. rewrite JsMapFacts.get_alter_ne by assumption.
    now rewrite JsMapFacts.get_set_ne.
Qed.

(** C10, amended. The manager ignores an announce or a leave that carries
    its own id, and an offer, answer or candidate addressed to another peer:
    the state is unchanged and nothing is called. Any signal whose sender is
    not the manager itself leaves the entry of the map under the manager's
    own id as it was. (The sender of an offer addressed to the manager is not
    compared with the manager's id.) *)
Theorem signals_from_others_leave_own_entry (st : Local.State) (s : Local.SignalType) :
  (notForMe (Local.peerId st) s = true ->
     Local.handleSignal createOffer createAnswer st s = (st, [])) /\
  (senderOf s <> Local.peerId st ->
     JsMap.get (Local.peers (fst (Local.handleSignal createOffer createAnswer st s)))
               (Local.peerId st)
     = JsMap.get (Local.peers st) (Local.peerId st)).
Proof.
  split.
  - destruct s as [pid pname|from fromName to offer|from fromName to answer|from to c|pid];
      cbn [notForMe Local.handleSignal]; intros H.
    + now rewrite H.
    + apply negb_true_iff in H. now rewrite H.
    + apply negb_true_iff in H. now rewrite H.
    + apply negb_true_iff in H. now rewrite H.
    + now rewrite H.
  - destruct s as [pid pname|from fromName to offer|from fromName to answer|from to c|pid];
      cbn [senderOf Local.handleSignal]; intros Hne.
    + destruct (negb (String.eqb pid (Local.peerId st)) && negb (JsMap.has (Local.peers st) pid));
        [|reflexivity].
      cbn. now rewrite JsMapFacts.get_set_ne.
    + destruct (String.eqb to (Local.peerId st)); [|reflexivity].
      now apply local_handleOffer_other.
    + destruct (String.eqb to (Local.peerId st)); [|reflexivity].
      unfold Local.handleAnswer.
      destruct (JsMap.get (Local.peers st) from); [|reflexivity].
      cbn. now rewrite JsMapFacts.get_alter_ne.
    + destruct (String.eqb to (Local.peerId st)); [|reflexivity].
      unfold Local.handleIceCandidate.
      destruct (JsMap.get (Local.peers st) from); [|reflexivity].
      cbn. now rewrite JsMapFacts.get_alter_ne.
    + destruct (negb (String.eqb pid (Local.peerId st))); [|reflexivity].
      unfold Local.removePeer.
      destruct (JsMap.get (Local.peers st) pid); [|reflexivity].
      cbn. now rewrite JsMapFacts.get_delete_ne.
Qed.
End LocalSignals.

Lemma signals_from_others_leave_own_entry_witness :
  let createOffer := fun _ : nat => "offer" in
  let createAnswer := fun _ : nat => "answer" in
  (Local.handleSignal createOffer createAnswer localAlone (Local.Announce "me" "Me")
     = (localAlone, [])) /\
  (JsMap.get (Local.peers (fst (Local.handleSignal createOffer createAnswer localAlone
                                  (Local.Offer "a" "Ann" "me" "sdp")))) "me"
   = JsMap.get (Local.peers localAlone) "me").
Proof.
  split.
  - exact (proj1 (signals_from_others_leave_own_entry (fun _ => "offer") (fun _ => "answer")
                    localAlone (Local.Announce "me" "Me")) eq_refl).
  - refine (proj2 (signals_from_others_leave_own_entry (fun _ => "offer") (fun _ => "answer")
                     localAlone (Local.Offer "a" "Ann" "me" "sdp")) _).
    cbn. discriminate.
Defined.

Example offer_addressed_elsewhere_is_ignored :
  Local.handleSignal (fun _ => "offer") (fun _ => "answer") localConnectedToAnn
    (Local.Offer "b" "Bob" "a" "sdp") = (localConnectedToAnn, []).
Proof. reflexivity. Qed.

Example offer_from_self_is_accepted :
  JsMap.keys (Local.peers (fst (Local.handleSignal (fun _ => "offer") (fun _ => "answer")
                                  localAlone (Local.Offer "me" "Me" "me" "sdp")))) = ["me"].
Proof. reflexivity. Qed.

(** *** The peer maps the managers reach *)

Section MeshInvariant.
Variable createOffer : nat -> Sdp.
Variable createAnswer : nat -> Sdp.

Lemma allFresh_set m k v : allFresh m -> freshRecord v -> allFresh (JsMap.set m k v).
Proof.
  intros Hm Hv k' p Hin. apply JsMapFacts.In_set in Hin as [[_ ->]|Hin]; eauto.
Qed.

Lemma allFresh_alter f m k :
  (forall v, JsMap.get m k = Some v -> freshRecord v -> freshRecord (f v)) ->
  allFresh m -> allFresh (JsMap.alter f m k).
Proof.
  intros Hf Hm k' p Hin.
  apply JsMapFacts.In_alter_get in Hin as [Hin|(-> & v & Hv & ->)]; [eauto|].
  apply Hf; [assumption|]. apply (Hm k). now apply JsMapFacts.get_In.
Qed.

Lemma allFresh_delete m k : allFresh m -> allFresh (JsMap.delete m k).
Proof.
  intros Hm k' p Hin. apply JsMapFacts.In_delete in Hin as [Hin _]. eauto.
Qed.

Lemma allFresh_mutate o f m :
  (forall p, freshRecord p -> freshRecord (f p)) -> allFresh m -> allFresh (Mesh.mutate o f m).
Proof.
  intros Hf Hm k q Hin. apply mesh_In_mutate in Hin as (p & Hp & ->).
  destruct (Nat.eqb (Mesh.obj p) o); eauto.
Qed.

Lemma keyed_mesh_mutate o f m :
  (forall p, Mesh.id (f p) = Mesh.id p) -> keyed Mesh.id m -> keyed Mesh.id (Mesh.mutate o f m).
Proof.
  intros Hf Hk. rewrite mesh_mutate_map.
  apply (KeyedFacts.keyed_map_values Mesh.id
           (fun p => if Nat.eqb (Mesh.obj p) o then f p else p)); [|assumption].
  intros p. destruct (Nat.eqb (Mesh.obj p) o); auto.
Qed.

Lemma meshSound_createPeerConnection st k kname b :
  meshSound st ->
  meshSound (fst (fst (Mesh.createPeerConnection createOffer st k kname b))).
Proof.
  intros [Hk Hf]. unfold Mesh.createPeerConnection.
  destruct b; cbn; (split;
    [apply KeyedFacts.keyed_set; [assumption | reflexivity]
    | apply allFresh_set; [assumption | intros _; reflexivity]]).
Qed.

Lemma meshSound_connectAll members : forall st,
  meshSound st -> meshSound (fst (Mesh.connectAll createOffer st members)).
Proof.
  induction members as [|[k kname] rest IH]; intros st Hs; [exact Hs|].
  cbn [Mesh.connectAll].
  pose proof (meshSound_createPeerConnection st k kname true Hs) as H1.
  destruct (Mesh.createPeerConnection createOffer st k kname true) as [[st1 p1] eff1].
  specialize (IH st1 H1).
  now destruct (Mesh.connectAll createOffer st1 rest) as [st2 eff2].
Qed.

Lemma meshSound_described st k d :
  meshSound st ->
  meshSound (Mesh.set_peers st (JsMap.alter (Mesh.with_pc (setRemoteDescription d)) (Mesh.peers st) k)) /\
  meshSound (Mesh.set_peers st (JsMap.alter (Mesh.with_pc (setLocalDescription d)) (Mesh.peers st) k)).
Proof.
  intros [Hk Hf]. split; (split; cbn;
    [apply KeyedFacts.keyed_alter; [reflexivity | assumption]
    | apply allFresh_alter; [|assumption]]).
  - intros v _ _ Hnone. discriminate.
  - intros v _ Hv. exact Hv.
Qed.

Lemma meshSound_drain st k o :
  meshSound st ->
  (forall p, JsMap.get (Mesh.peers st) k = Some p -> remoteDescription (Mesh.pc p) <> None) ->
  meshSound (fst (Mesh.drain st k o)).
Proof.
  intros [Hk Hf] Hset. unfold Mesh.drain. split; cbn.
  - apply KeyedFacts.keyed_alter; [reflexivity | assumption].
  - apply allFresh_alter; [|assumption].
    intros v Hv _ Hnone. cbn in Hnone. rewrite fold_addIceCandidate in Hnone.
    cbn in Hnone. now destruct (Hset v Hv).
Qed.

Lemma meshSound_handleOffer st k kname offer :
  meshSound st -> meshSound (fst (Mesh.handleOffer createOffer createAnswer st k kname offer)).
Proof.
  intros Hs. unfold Mesh.handleOffer.
  assert (Hpre : exists st0 peer eff0,
             match JsMap.get (Mesh.peers st) k with
             | Some peer => (st, peer, [])
             | None => Mesh.createPeerConnection createOffer st k kname false
             end = (st0, peer, eff0) /\ meshSound st0).
  { destruct (JsMap.get (Mesh.peers st) k) as [peer|].
    - exists st, peer, []. auto.
    - pose proof (meshSound_createPeerConnection st k kname false Hs) as H1.
      destruct (Mesh.createPeerConnection createOffer st k kname false) as [[st0 p0] eff0].
      exists st0, p0, eff0. auto. }
  destruct Hpre as (st0 & peer & eff0 & -> & Hs0).
  set (st2 := Mesh.set_peers st0 _).
  assert (Hs2 : meshSound st2) by apply (meshSound_described st0 k offer Hs0).
  assert (Hs3 : meshSound (fst (Mesh.drain st2 k (Mesh.obj peer)))).
  { apply meshSound_drain; [assumption|]. intros p Hp. subst st2. cbn in Hp.
    rewrite JsMapFacts.get_alter_eq in Hp.
    destruct (JsMap.get (Mesh.peers st0) k); [|discriminate].
    injection Hp as <-. discriminate. }
  destruct (Mesh.drain st2 k (Mesh.obj peer)) as [st3 eff3]. cbn [fst] in *.
  apply (meshSound_described st3 k (createAnswer (Mesh.obj peer)) Hs3).
Qed.

Lemma meshSound_handleAnswer st k answer :
  meshSound st -> meshSound (fst (Mesh.handleAnswer st k answer)).
Proof.
  intros Hs. unfold Mesh.handleAnswer.
  destruct (JsMap.get (Mesh.peers st) k) as [peer|] eqn:Hget; [|exact Hs].
  set (st2 := Mesh.set_peers st _).
  assert (Hs2 : meshSound st2) by apply (meshSound_described st k answer Hs).
  assert (Hs3 : meshSound (fst (Mesh.drain st2 k (Mesh.obj peer)))).
  { apply meshSound_drain; [assumption|]. intros p Hp. subst st2. cbn in Hp.
    rewrite JsMapFacts.get_alter_eq, Hget in Hp. injection Hp as <-. discriminate. }
  now destruct (Mesh.drain st2 k (Mesh.obj peer)) as [st3 eff3].
Qed.

Lemma meshSound_handleIceCandidate st k c :
  meshSound st -> meshSound (fst (Mesh.handleIceCandidate st k c)).
Proof.
  intros [Hk Hf]. unfold Mesh.handleIceCandidate.
  destruct (JsMap.get (Mesh.peers st) k) as [peer|] eqn:Hget; [|now split].
  destruct (remoteDescription (Mesh.pc peer)) as [d|] eqn:Hrd; [|now split].
  split; cbn.
  - apply KeyedFacts.keyed_alter; [reflexivity | assumption].
  - apply allFresh_alter; [|assumption].
    intros v Hv _ Hnone. cbn in Hnone. congruence.
Qed.

Lemma meshSound_removePeer st k :
  meshSound st -> meshSound (fst (Mesh.removePeer st k)).
Proof.
  intros [Hk Hf]. unfold Mesh.removePeer.
  destruct (JsMap.get (Mesh.peers st) k); [|now split].
  split; cbn; [now apply KeyedFacts.keyed_delete | now apply allFresh_delete].
Qed.

(** Every signal keeps the peer map sound. *)
Lemma meshSound_handleSignal st s :
  meshSound st -> meshSound (fst (Mesh.handleSignal createOffer createAnswer st s)).
Proof.
  intros Hs. destruct s as [room members|k kname|k kname|k kname offer|k answer|k c|l|];
    cbn [Mesh.handleSignal]; try exact Hs.
  - pose proof (meshSound_connectAll members (Mesh.set_roomId st room) Hs) as H1.
    now destruct (Mesh.connectAll createOffer (Mesh.set_roomId st room) members).
  - pose proof (meshSound_removePeer st k Hs) as H1.
    now destruct (Mesh.removePeer st k).
  - now apply meshSound_handleOffer.
  - now apply meshSound_handleAnswer.
  - now apply meshSound_handleIceCandidate.
Qed.

Lemma meshSound_handleSignals signals : forall st,
  meshSound st -> meshSound (fst (Mesh.handleSignals createOffer createAnswer st signals)).
Proof.
  induction signals as [|s rest IH]; intros st Hs; [exact Hs|].
  cbn [Mesh.handleSignals].
  pose proof (meshSound_handleSignal st s Hs) as H1.
  destruct (Mesh.handleSignal createOffer createAnswer st s) as [st1 eff1].
  specialize (IH st1 H1).
  now destruct (Mesh.handleSignals createOffer createAnswer st1 rest).
Qed.

(** So do the events of the connections and channels. *)
Lemma meshSound_events st o state rs :
  meshSound st ->
  meshSound (fst (Mesh.onconnectionstatechange st o state)) /\
  meshSound (Mesh.ondatachannel st o rs) /\
  meshSound (fst (Mesh.channel_onopen st o)) /\
  meshSound (fst (Mesh.channel_onclose st o)).
Proof.
  intros [Hk Hf].
  assert (Hm : forall f, (forall p, Mesh.id (f p) = Mesh.id p) ->
                         (forall p, Mesh.pc (f p) = Mesh.pc p) ->
                         meshSound (Mesh.set_peers st (Mesh.mutate o f (Mesh.peers st)))).
  { intros f Hid Hpc. split; cbn; [now apply keyed_mesh_mutate|].
    apply allFresh_mutate; [|assumption]. intros p Hp. unfold freshRecord. now rewrite Hpc. }
  split; [|split; [|split]].
  - unfold Mesh.onconnectionstatechange. destruct state; cbn [fst];
      try (now split); now apply Hm.
  - now apply Hm.
  - now apply Hm.
  - now apply Hm.
Qed.

Lemma meshSound_create pid pname : meshSound (Mesh.create pid pname).
Proof. split; [apply KeyedFacts.keyed_nil | intros k p []]. Qed.

(** In a sound state, a peer without remote description is unsettled. *)
Lemma meshSound_unsettled st pid :
  meshSound st ->
  (forall p, JsMap.get (Mesh.peers st) pid = Some p -> remoteDescription (Mesh.pc p) = None) ->
  unsettled st pid.
Proof.
  intros [[Hnd Hid] Hf] Hnone p Hin.
  assert (Hrd : remoteDescription (Mesh.pc p) = None)
    by (apply Hnone; now apply JsMapFacts.In_get).
  split; [assumption|]. now apply (Hf pid).
Qed.
End MeshInvariant.

Section LocalInvariant.
Variable createOffer : nat -> Sdp.
Variable createAnswer : nat -> Sdp.

Lemma localKeyed_handleSignal st s :
  localKeyed st -> localKeyed (fst (Local.handleSignal createOffer createAnswer st s)).
Proof.
  unfold localKeyed. intros Hk.
  destruct s as [pid pname|from fromName to offer|from fromName to answer|from to c|pid];
    cbn [Local.handleSignal].
  - destruct (negb (String.eqb pid (Local.peerId st)) && negb (JsMap.has (Local.peers st) pid));
      [|exact Hk].
    cbn. apply KeyedFacts.keyed_set; [assumption | reflexivity].
  - destruct (String.eqb to (Local.peerId st)); [|exact Hk].
    unfold Local.handleOffer. destruct (JsMap.get (Local.peers st) from); cbn.
    + apply KeyedFacts.keyed_alter; [reflexivity | assumption].
    + apply KeyedFacts.keyed_alter; [reflexivity|].
      apply KeyedFacts.keyed_set; [assumption | reflexivity].
  - destruct (String.eqb to (Local.peerId st)); [|exact Hk].
    unfold Local.handleAnswer. destruct (JsMap.get (Local.peers st) from); [|exact Hk].
    cbn. apply KeyedFacts.keyed_alter; [reflexivity | assumption].
  - destruct (String.eqb to (Local.peerId st)); [|exact Hk].
    unfold Local.handleIceCandidate. destruct (JsMap.get (Local.peers st) from); [|exact Hk].
    cbn. apply KeyedFacts.keyed_alter; [reflexivity | assumption].
  - destruct (negb (String.eqb pid (Local.peerId st))); [|exact Hk].
    unfold Local.removePeer. destruct (JsMap.get (Local.peers st) pid); [|exact Hk].
    cbn. now apply KeyedFacts.keyed_delete.
Qed.

Lemma localKeyed_create pid room pname : localKeyed (fst (Local.create pid room pname)).
Proof. apply KeyedFacts.keyed_nil. Qed.
End LocalInvariant.

(** *** The handshake on sample states *)

Example newcomer_offers_to_ann :
  snd (Mesh.handleSignal (fun _ => "offer") (fun _ => "answer") askedToOffer
         (Mesh.RoomJoined "R" [("a", "Ann")])) =
  [Mesh.OnRoomJoined "R" [("a", "Ann")];
   Mesh.NewPeerConnection 0; Mesh.CreateDataChannel 0; Mesh.CreateOffer 0;
   Mesh.SetLocalDescription 0 "offer";
   Mesh.WsSend (Mesh.Offer "me" "Me" "a" "offer")].
Proof. reflexivity. Qed.

Example incumbent_answers_and_applies_early_candidate :
  snd (Mesh.handleSignals (fun _ => "offer") (fun _ => "answer") askedToOffer
         [Mesh.PeerJoined "b" "Bob"; Mesh.SIceCandidate "b" "c1";
          Mesh.SOffer "b" "Bob" "offer-b"; Mesh.SIceCandidate "b" "c2"]) =
  [Mesh.OnPeerJoin "b" "Bob";
   Mesh.NewPeerConnection 0; Mesh.SetRemoteDescription 0 "offer-b";
   Mesh.AddIceCandidate 0 "c1";
   Mesh.CreateAnswer 0; Mesh.SetLocalDescription 0 "answer";
   Mesh.WsSend (Mesh.Answer "me" "Me" "b" "answer");
   Mesh.AddIceCandidate 0 "c2"].
Proof. vm_compute. reflexivity. Qed.

Example closed_socket_sends_no_offer :
  offersTo (snd (Mesh.handleSignal (fun _ => "offer") (fun _ => "answer")
                   (Mesh.create "me" "Me") (Mesh.RoomJoined "R" [("a", "Ann")]))) = [].
Proof. reflexivity. Qed.

Example message_goes_to_open_channels_only :
  Mesh.sendMessage fourPeers "m1" 17 "hi" =
  (mkMessage "m1" "me" "Me" "hi" 17,
   [Mesh.ChannelSend 0 (mkMessage "m1" "me" "Me" "hi" 17);
    Mesh.ChannelSend 3 (mkMessage "m1" "me" "Me" "hi" 17)]).
Proof. reflexivity. Qed.

Example message_is_returned_without_peers :
  Local.sendMessage localAlone "m1" 17 "hi" = (mkMessage "m1" "me" "Me" "hi" 17, []).
Proof. reflexivity. Qed.

End ManagerFacts.

(** ** Rooms: reachable server states and joining *)

Module RoomFacts.
Import Server ServerProps.

(** *** Reachable states *)

Lemma conn_ok_mono n c : conn_ok n c -> conn_ok (S n) c.
Proof. unfold conn_ok. destruct (peerInfo c); [lia | auto]. Qed.

Lemma join_conn ready rs n w c roomId pid pname :
  let c' := snd (fst (join ready rs n w c roomId pid pname)) in
  c' = c \/ c' = mkConn roomId (Some (mkPeerInfo w pid pname n)).
Proof.
  unfold join.
  destruct (truthy (currentRoom c) && JsMap.has rs (currentRoom c));
    [destruct (peerInfo c)|]; cbn; auto.
Qed.

Lemma wf_step ready st e : wf st -> wf (fst (step ready st e)).
Proof.
  intros Hwf. destruct e as [w|w data|w]; cbn [step fst].
  - unfold onConnection. destruct (JsMap.has (conns st) w); [exact Hwf|].
    intros w' c' Hin. cbn in Hin.
    apply JsMapFacts.In_set in Hin as [[_ ->]|Hin]; [reflexivity | now apply (Hwf w')].
  - unfold onMessage.
    destruct (JsMap.get (conns st) w) as [c|] eqn:Hc; [|exact Hwf].
    destruct data as [[roomId pid pname|ty to rest|rest| |rest]|]; try exact Hwf.
    pose proof (join_conn ready (rooms st) (nextObj st) w c roomId pid pname) as Hj.
    destruct (join ready (rooms st) (nextObj st) w c roomId pid pname) as [[rs c'] out].
    cbn [fst snd] in *. intros w' c0 Hin. cbn in Hin.
    apply JsMapFacts.In_set in Hin as [[_ ->]|Hin].
    + destruct Hj as [->| ->].
      * apply conn_ok_mono, (Hwf w). now apply JsMapFacts.get_In.
      * cbn. lia.
    + apply conn_ok_mono. now apply (Hwf w').
  - unfold onClose.
    destruct (JsMap.get (conns st) w) as [c|] eqn:Hc; [|exact Hwf].
    assert (Hsub : forall rs, wf (mkState rs (JsMap.delete (conns st) w) (nextObj st))).
    { intros rs w' c' Hin. cbn in Hin. apply JsMapFacts.In_delete in Hin as [Hin _].
      now apply (Hwf w'). }
    destruct (peerInfo c); [|apply Hsub].
    destruct (truthy (currentRoom c) && JsMap.has (rooms st) (currentRoom c)); apply Hsub.
Qed.

Lemma wf_run es : forall st, wf st -> wf (fst (run st es)).
Proof.
  induction es as [|[ready e] es IH]; intros st Hwf; [exact Hwf|].
  cbn [run]. pose proof (wf_step ready st e Hwf) as H1.
  destruct (step ready st e) as [st1 out1]. cbn [fst] in H1.
  specialize (IH st1 H1). destruct (run st1 es) as [st2 out2]. exact IH.
Qed.

Lemma wf_reachable st : reachable st -> wf st.
Proof.
  intros [es <-]. apply wf_run. intros w c [].
Qed.

(** *** Joining a room *)

(** What one [join] does for the joiner: it is answered with the members
    found in the room, and is then the room's last member. A member found in
    the room before stays in it unless it is the joiner's previous object. *)
Lemma join_enters_room ready rs n w c roomId pid pname :
  conn_ok n c ->
  let info := mkPeerInfo w pid pname n in
  exists rs' out room,
    join ready rs n w c roomId pid pname = (rs', mkConn roomId (Some info), out) /\
    JsMap.get rs' roomId = Some (room ++ [info]) /\
    In (w, RoomJoined roomId (peerList room)) out /\
    (forall room0 q,
       JsMap.get rs roomId = Some room0 -> In q room0 ->
       (forall old, peerInfo c = Some old -> obj q <> obj old) ->
       In q room).
Proof.
  intros Hok info. unfold join.
  assert (Hleft : exists rs1 out1,
    (if truthy (currentRoom c) && JsMap.has rs (currentRoom c)
     then match peerInfo c with
          | Some old =>
              Some (JsMap.alter (set_delete (obj old)) rs (currentRoom c),
                    broadcastToRoom ready
                      (JsMap.alter (set_delete (obj old)) rs (currentRoom c))
                      (currentRoom c) (PeerLeft (peerId old) (peerName old)) (Some w))
          | None => None
          end
     else Some (rs, [])) = Some (rs1, out1) /\
    (forall room0 q,
       JsMap.get rs roomId = Some room0 -> In q room0 ->
       (forall old, peerInfo c = Some old -> obj q <> obj old) ->
       exists room1, JsMap.get rs1 roomId = Some room1 /\ In q room1)).
  { destruct (truthy (currentRoom c) && JsMap.has rs (currentRoom c)) eqn:Hcur.
    - unfold conn_ok in Hok. destruct (peerInfo c) as [old|].
      + eexists _, _. split; [reflexivity|].
        intros room0 q Hget Hq Hne. rewrite JsMapFacts.get_alter, Hget.
        destruct (decide (currentRoom c = roomId)); [|eauto].
        cbn. eexists. split; [reflexivity|].
        unfold set_delete. apply List.filter_In. split; [assumption|].
        apply negb_true_iff, Nat.eqb_neq. now apply Hne.
      + apply andb_true_iff in Hcur as [Ht _]. congruence.
    - eexists _, _. split; [reflexivity|]. eauto. }
  destruct Hleft as (rs1 & out1 & -> & Hkeep).
  set (rs2 := if JsMap.has rs1 roomId then rs1 else JsMap.set rs1 roomId []).
  assert (Hroom : exists room, JsMap.get rs2 roomId = Some room /\
            (forall room1, JsMap.get rs1 roomId = Some room1 -> room = room1)).
  { subst rs2. destruct (JsMap.has rs1 roomId) eqn:Hhas.
    - apply JsMapFacts.has_get in Hhas as [room Hroom]. exists room.
      split; [assumption|]. congruence.
    - exists []. split; [apply JsMapFacts.get_set_eq|].
      apply JsMapFacts.has_false in Hhas. congruence. }
  destruct Hroom as (room & Hroom & Hsame).
  eexists _, _, room. split; [reflexivity|]. split; [|split].
  - rewrite JsMapFacts.get_alter_eq, Hroom. reflexivity.
  - apply in_or_app. right. rewrite Hroom. now left.
  - intros room0 q Hget Hq Hne.
    destruct (Hkeep room0 q Hget Hq Hne) as (room1 & Hget1 & Hq1).
    now rewrite (Hsame room1 Hget1).
Qed.

(** Two connections that join under the same room id, one after the other:
    the second is told of the first and both are members of the room. *)
Lemma second_joiner_meets_first st ready1 ready2 w1 w2 roomId p1 n1 p2 n2 :
  wf st ->
  JsMap.has (conns st) w1 = true -> JsMap.has (conns st) w2 = true -> w1 <> w2 ->
  let s1 := onMessage ready1 st w1 (Some (Join roomId p1 n1)) in
  let s2 := onMessage ready2 (fst s1) w2 (Some (Join roomId p2 n2)) in
  exists existing room a b,
    In (w2, RoomJoined roomId existing) (snd s2) /\
    In (p1, n1) existing /\
    JsMap.get (rooms (fst s2)) roomId = Some room /\
    In a room /\ In b room /\
    ws a = w1 /\ peerId a = p1 /\ ws b = w2 /\ peerId b = p2.
Proof.
  intros Hwf Hw1 Hw2 Hne.
  apply JsMapFacts.has_get in Hw1 as [c1 Hc1], Hw2 as [c2 Hc2].
  assert (Hok1 : conn_ok (nextObj st) c1) by (apply (Hwf w1); now apply JsMapFacts.get_In).
  assert (Hok2 : conn_ok (nextObj st) c2) by (apply (Hwf w2); now apply JsMapFacts.get_In).
  destruct (join_enters_room ready1 (rooms st) (nextObj st) w1 c1 roomId p1 n1 Hok1)
    as (rs1 & out1 & room1 & Hj1 & Hget1 & _ & _).
  assert (E1 : onMessage ready1 st w1 (Some (Join roomId p1 n1)) =
               (mkState rs1
                  (JsMap.set (conns st) w1
                     (mkConn roomId (Some (mkPeerInfo w1 p1 n1 (nextObj st)))))
                  (S (nextObj st)), out1)).
  { unfold onMessage. now rewrite Hc1, Hj1. }
  cbn zeta. rewrite E1. cbn [fst].
  destruct (join_enters_room ready2 rs1 (S (nextObj st)) w2 c2 roomId p2 n2
              (conn_ok_mono _ _ Hok2))
    as (rs2 & out2 & room2 & Hj2 & Hget2 & Hout2 & Hkeep).
  match goal with
  | |- context [onMessage ready2 ?st1 w2 ?m] =>
      assert (E2 : onMessage ready2 st1 w2 m =
                   (mkState rs2
                      (JsMap.set (conns st1) w2
                         (mkConn roomId (Some (mkPeerInfo w2 p2 n2 (S (nextObj st))))))
                      (S (S (nextObj st))), out2))
  end.
  { unfold onMessage. cbn [conns rooms nextObj].
    rewrite JsMapFacts.get_set_ne by assumption. now rewrite Hc2, Hj2. }
  rewrite E2. cbn [fst snd rooms].
  set (a := mkPeerInfo w1 p1 n1 (nextObj st)).
  assert (Ha : In a room2).
  { apply (Hkeep _ a Hget1); [apply in_or_app; right; now left|].
    intros old Hold. unfold conn_ok in Hok2. rewrite Hold in Hok2. cbn. lia. }
  exists (peerList room2), (room2 ++ [mkPeerInfo w2 p2 n2 (S (nextObj st))]), a,
         (mkPeerInfo w2 p2 n2 (S (nextObj st))).
  split; [exact Hout2|]. split.
  { unfold peerList. apply in_map_iff. exists a. auto. }
  split; [exact Hget2|].
  split; [apply in_or_app; now left|].
  split; [apply in_or_app; right; now left|].
  repeat split.
Qed.

(** *** Room ids and letter case *)

Lemma toUpperCase_empty s : Popup.toUpperCase s = "" -> s = "".
Proof. destruct s; [reflexivity | discriminate]. Qed.

Lemma popup_joinRoom_sends (m : Mesh.State) (r : string) :
  Mesh.ws m = Some Mesh.OPEN -> Popup.trim r <> "" ->
  snd (Popup.joinRoom (Some m) r) =
    [Mesh.WsSend (Mesh.Join (Popup.toUpperCase (Popup.trim r)) (Mesh.peerId m) (Mesh.peerName m))].
Proof.
  intros Hws Hr. unfold Popup.joinRoom.
  apply String.eqb_neq in Hr. rewrite Hr.
  unfold Mesh.joinRoom, Mesh.send. now rewrite Hws.
Qed.

Lemma server_compares_room_ids_exactly : ~ server_folds_case.
Proof.
  intros H.
  specialize (H (fst (run init two_connected)) all_ready 1 2 "ABCD" "abcd"
                (JStr "a") (JStr "Ann") (JStr "b") (JStr "Bob")).
  destruct H as (existing & Hin & Hex).
  - now exists two_connected.
  - reflexivity.
  - reflexivity.
  - discriminate.
  - reflexivity.
  - vm_compute in Hin. destruct Hin as [Hin|[]]. injection Hin as <-. destruct Hex.
Qed.

(** C7, amended. The popup trims a room id and upper-cases it before it
    calls [joinRoom]; the manager sends the id it is given and the server
    keys its rooms by the id it receives, compared exactly. So when two
    clients join through the popup with (ASCII) room ids that differ only in
    letter case, both join messages carry the same upper-cased id, the
    second joiner's [room-joined] reply lists the first, and both are members
    of that one room. *)
Theorem popup_joins_meet_in_upper_cased_room
    (st : State) (ready1 ready2 : Socket -> bool) (w1 w2 : Socket)
    (m1 m2 : Mesh.State) (r1 r2 : string) :
  reachable st ->
  JsMap.has (conns st) w1 = true -> JsMap.has (conns st) w2 = true -> w1 <> w2 ->
  Mesh.ws m1 = Some Mesh.OPEN -> Mesh.ws m2 = Some Mesh.OPEN ->
  Popup.isAscii r1 = true -> Popup.isAscii r2 = true ->
  Popup.trim r1 <> "" ->
  Popup.toUpperCase (Popup.trim r1) = Popup.toUpperCase (Popup.trim r2) ->
  let R := Popup.toUpperCase (Popup.trim r1) in
  let e1 := Mesh.Join R (Mesh.peerId m1) (Mesh.peerName m1) in
  let e2 := Mesh.Join R (Mesh.peerId m2) (Mesh.peerName m2) in
  snd (Popup.joinRoom (Some m1) r1) = [Mesh.WsSend e1] /\
  snd (Popup.joinRoom (Some m2) r2) = [Mesh.WsSend e2] /\
  let s1 := onMessage ready1 st w1 (Some (Wire.toServer e1)) in
  let s2 := onMessage ready2 (fst s1) w2 (Some (Wire.toServer e2)) in
  exists existing room a b,
    In (w2, RoomJoined (JStr R) existing) (snd s2) /\
    In (JStr (Mesh.peerId m1), JStr (Mesh.peerName m1)) existing /\
    JsMap.get (rooms (fst s2)) (JStr R) = Some room /\
    In a room /\ In b room /\
    ws a = w1 /\ peerId a = JStr (Mesh.peerId m1) /\
    ws b = w2 /\ peerId b = JStr (Mesh.peerId m2).
Proof.
  intros Hreach Hw1 Hw2 Hne Hws1 Hws2 _ _ Hr1 Heq. cbn zeta.
  assert (Hr2 : Popup.trim r2 <> "").
  { intros H0. rewrite H0 in Heq. cbn in Heq. now apply toUpperCase_empty in Heq. }
  split; [now apply popup_joinRoom_sends|].
  split; [rewrite Heq; now apply popup_joinRoom_sends|].
  cbn [Wire.toServer].
  apply second_joiner_meets_first; auto using wf_reachable.
Qed.

Lemma popup_joins_meet_in_upper_cased_room_witness :
  let st := fst (run init two_connected) in
  let m1 := Mesh.mkState "a" "Ann" "" (Some Mesh.OPEN) [] ∅ 0 in
  let m2 := Mesh.mkState "b" "Bob" "" (Some Mesh.OPEN) [] ∅ 0 in
  let e1 := Mesh.Join "ABCD" "a" "Ann" in
  let e2 := Mesh.Join "ABCD" "b" "Bob" in
  snd (Popup.joinRoom (Some m1) "ABCD") = [Mesh.WsSend e1] /\
  snd (Popup.joinRoom (Some m2) " abcd ") = [Mesh.WsSend e2] /\
  let s1 := onMessage all_ready st 1 (Some (Wire.toServer e1)) in
  let s2 := onMessage all_ready (fst s1) 2 (Some (Wire.toServer e2)) in
  exists existing room a b,
    In (2, RoomJoined (JStr "ABCD") existing) (snd s2) /\
    In (JStr "a", JStr "Ann") existing /\
    JsMap.get (rooms (fst s2)) (JStr "ABCD") = Some room /\
    In a room /\ In b room /\
    ws a = 1 /\ peerId a = JStr "a" /\
    ws b = 2 /\ peerId b = JStr "b".
Proof.
  apply (popup_joins_meet_in_upper_cased_room
           (fst (run init two_connected)) all_ready all_ready 1 2
           (Mesh.mkState "a" "Ann" "" (Some Mesh.OPEN) [] ∅ 0)
           (Mesh.mkState "b" "Bob" "" (Some Mesh.OPEN) [] ∅ 0)
           "ABCD" " abcd ").
  - now exists two_connected.
  - reflexivity.
  - reflexivity.
  - discriminate.
  - reflexivity.
  - reflexivity.
  - reflexivity.
  - reflexivity.
  - discriminate.
  - reflexivity.
Defined.

Example raw_joins_in_two_cases_make_two_rooms :
  let st := fst (run init two_connected) in
  let s1 := onMessage all_ready st 1 (Some (Join (JStr "ABCD") (JStr "a") (JStr "Ann"))) in
  let s2 := onMessage all_ready (fst s1) 2 (Some (Join (JStr "abcd") (JStr "b") (JStr "Bob"))) in
  snd s2 = [(2, RoomJoined (JStr "abcd") [])] /\
  JsMap.keys (rooms (fst s2)) = [JStr "ABCD"; JStr "abcd"].
Proof. split; reflexivity. Qed.



End RoomFacts.

(** ** More on the server: broadcasts, closing, listings, the HTTP endpoint *)

Module ServerMore.
Import Server ServerProps.

(** *** [broadcastToRoom] *)

(** X1. [broadcastToRoom] sends the message, and nothing else, to the sockets
    of the members of the named room that are ready and are not the excluded
    socket, once per such member; for a room that does not exist it sends
    nothing. A [broadcast] message goes this way to the sender's current
    room, the sender excluded, and changes nothing in the server. *)
Theorem broadcast_reaches_ready_members_only
    (ready : Socket -> bool) (rs : Rooms) (roomId : JsVal) (msg : Frame)
    (excludeWs : option Socket) :
  (forall s f,
     In (s, f) (broadcastToRoom ready rs roomId msg excludeWs) <->
     f = msg /\ ready s = true /\ excludeWs <> Some s /\
     exists room p, JsMap.get rs roomId = Some room /\ In p room /\ ws p = s) /\
  (forall room,
     JsMap.get rs roomId = Some room ->
     map fst (broadcastToRoom ready rs roomId msg excludeWs) =
       List.filter (fun s => negb (bool_decide (Some s = excludeWs)) && ready s)
                   (map ws room)) /\
  (JsMap.get rs roomId = None -> broadcastToRoom ready rs roomId msg excludeWs = []) /\
  (forall st w c rest,
     JsMap.get (conns st) w = Some c ->
     onMessage ready st w (Some (Broadcast rest)) =
       (st, broadcastToRoom ready (rooms st) (currentRoom c)
              (Forward (Broadcast rest)) (Some w)) /\
     ~ In w (map fst (snd (onMessage ready st w (Some (Broadcast rest)))))).
Proof.
  split; [|split; [|split]].
  - intros s f. unfold broadcastToRoom.
    destruct (JsMap.get rs roomId) as [room|].
    + rewrite in_map_iff. split.
      * intros (p & [= <- <-] & Hp). apply List.filter_In in Hp as [Hin Hp].
        apply andb_true_iff in Hp as [Hex Hr].
        apply negb_true_iff, bool_decide_eq_false in Hex.
        split; [reflexivity|]. split; [assumption|]. split; [congruence|]. eauto.
      * intros (-> & Hr & Hex & room' & p & [= <-] & Hin & <-).
        exists p. split; [reflexivity|]. apply List.filter_In. split; [assumption|].
        apply andb_true_iff. split; [|assumption].
        apply negb_true_iff, bool_decide_eq_false. congruence.
    + split; [intros [] | intros (_ & _ & _ & room & p & Hn & _); discriminate].
  - intros room Hroom. unfold broadcastToRoom. rewrite Hroom, map_map. cbn [fst].
    clear Hroom. induction room as [|p room IH]; [reflexivity|]. cbn.
    destruct (negb (bool_decide (Some (ws p) = excludeWs)) && ready (ws p)); cbn;
      now rewrite IH.
  - intros Hnone. unfold broadcastToRoom. now rewrite Hnone.
  - intros st w c rest Hc. unfold onMessage. rewrite Hc. split; [reflexivity|].
    cbn [snd]. intros Hin. apply in_map_iff in Hin as ([s f] & Hs & Hin).
    cbn in Hs. subst s. apply ServerFacts.broadcast_recipients in Hin as [_ Hne].
    now apply Hne.
Qed.

Example closed_socket_is_skipped :
  broadcastToRoom (fun s => negb (Nat.eqb s 2)) (rooms (fst (run init three_in_R)))
    (JStr "R") (PeerLeft (JStr "x") (JStr "X")) (Some 3)
  = [(1, PeerLeft (JStr "x") (JStr "X"))].
Proof. reflexivity. Qed.

(** *** Closing a connection *)

Lemma set_delete_removes o room q : In q (set_delete o room) <-> In q room /\ obj q <> o.
Proof.
  unfold set_delete. rewrite List.filter_In, negb_true_iff, Nat.eqb_neq. tauto.
Qed.

(** X2. When a connection that joined a room (under a truthy room id)
    closes, the connection is forgotten and its object is taken out of that
    room; the room is deleted if that leaves it empty, so afterwards the
    table holds either no room under that id or a non-empty one; no other
    room changes, and only [peer-left] frames naming the closed peer are
    sent, to ready members that remain. *)
Theorem close_leaves_room_and_deletes_it_when_empty
    (ready : Socket -> bool) (st : State) (w : Socket) (c : Conn) (info : PeerInfo) :
  JsMap.get (conns st) w = Some c ->
  peerInfo c = Some info ->
  truthy (currentRoom c) = true ->
  let st' := fst (onClose ready st w) in
  let out := snd (onClose ready st w) in
  JsMap.get (conns st') w = None /\
  (forall room, JsMap.get (rooms st') (currentRoom c) = Some room ->
     room <> [] /\
     (forall q, In q room -> obj q <> obj info) /\
     (forall room0, JsMap.get (rooms st) (currentRoom c) = Some room0 ->
        forall q, In q room0 -> obj q <> obj info -> In q room)) /\
  (forall k, k <> currentRoom c -> JsMap.get (rooms st') k = JsMap.get (rooms st) k) /\
  (forall s f, In (s, f) out ->
     f = PeerLeft (peerId info) (peerName info) /\ ready s = true /\
     exists room q, JsMap.get (rooms st) (currentRoom c) = Some room /\
                    In q room /\ obj q <> obj info /\ ws q = s).
Proof.
  intros Hc Hinfo Htr. cbn zeta. unfold onClose. rewrite Hc, Hinfo, Htr. cbn [andb].
  destruct (JsMap.has (rooms st) (currentRoom c)) eqn:Hhas.
  - apply JsMapFacts.has_get in Hhas as [room0 Hroom0].
    set (rs1 := JsMap.alter (set_delete (obj info)) (rooms st) (currentRoom c)).
    assert (H1 : JsMap.get rs1 (currentRoom c) = Some (set_delete (obj info) room0)).
    { subst rs1. now rewrite JsMapFacts.get_alter_eq, Hroom0. }
    rewrite H1. cbn [fst snd conns rooms].
    split; [apply JsMapFacts.get_delete_eq|]. split; [|split].
    + intros room Hroom.
      destruct (set_delete (obj info) room0) as [|q0 r0] eqn:Hdel.
      * rewrite JsMapFacts.get_delete_eq in Hroom. discriminate.
      * rewrite H1 in Hroom. injection Hroom as <-. split; [discriminate|]. split.
        -- intros q Hq. rewrite <- Hdel in Hq. now apply set_delete_removes in Hq.
        -- intros room1 Hr1 q Hq Hne. rewrite Hroom0 in Hr1. injection Hr1 as <-.
           rewrite <- Hdel. now apply set_delete_removes.
    + intros k Hk.
      assert (Hk1 : JsMap.get rs1 k = JsMap.get (rooms st) k)
        by (subst rs1; apply JsMapFacts.get_alter_ne; congruence).
      destruct (set_delete (obj info) room0); [|exact Hk1].
      rewrite JsMapFacts.get_delete_ne by congruence. exact Hk1.
    + intros s f Hin. unfold broadcastToRoom in Hin. rewrite H1 in Hin.
      apply in_map_iff in Hin as (q & [= <- <-] & Hq).
      apply List.filter_In in Hq as [Hq Hr]. apply andb_true_iff in Hr as [_ Hr].
      apply set_delete_removes in Hq as [Hq Hne].
      split; [reflexivity|]. split; [assumption|]. eauto 8.
  - apply JsMapFacts.has_false in Hhas. cbn [fst snd conns rooms].
    split; [apply JsMapFacts.get_delete_eq|]. split; [|split].
    + intros room Hroom. congruence.
    + reflexivity.
    + intros s f [].
Qed.

Lemma close_leaves_room_and_deletes_it_when_empty_witness :
  let st := fst (run init two_in_R) in
  let info := mkPeerInfo 2 (JStr "b") (JStr "Bob") 1 in
  let st' := fst (onClose all_ready st 2) in
  let out := snd (onClose all_ready st 2) in
  JsMap.get (conns st') 2 = None /\
  (forall room, JsMap.get (rooms st') (JStr "R") = Some room ->
     room <> [] /\
     (forall q, In q room -> obj q <> 1) /\
     (forall room0, JsMap.get (rooms st) (JStr "R") = Some room0 ->
        forall q, In q room0 -> obj q <> 1 -> In q room)) /\
  (forall k, k <> JStr "R" -> JsMap.get (rooms st') k = JsMap.get (rooms st) k) /\
  (forall s f, In (s, f) out ->
     f = PeerLeft (JStr "b") (JStr "Bob") /\ all_ready s = true /\
     exists room q, JsMap.get (rooms st) (JStr "R") = Some room /\
                    In q room /\ obj q <> 1 /\ ws q = s).
Proof.
  apply (close_leaves_room_and_deletes_it_when_empty all_ready (fst (run init two_in_R)) 2
           (mkConn (JStr "R") (Some (mkPeerInfo 2 (JStr "b") (JStr "Bob") 1)))
           (mkPeerInfo 2 (JStr "b") (JStr "Bob") 1)); reflexivity.
Defined.

Example close_tells_the_others :
  onClose all_ready (fst (run init two_in_R)) 2 =
    (mkState [(JStr "R", [mkPeerInfo 1 (JStr "a") (JStr "Ann") 0])]
             [(1, mkConn (JStr "R") (Some (mkPeerInfo 1 (JStr "a") (JStr "Ann") 0)))] 2,
     [(1, PeerLeft (JStr "b") (JStr "Bob"))]).
Proof. reflexivity. Qed.

(** *** Every joined connection is a member of its room *)

(** A join keeps, in every room, the members that are not the joiner's
    previous object. *)
Lemma join_keeps_members ready (rs : Rooms) n w c roomId pid pname k (room0 : Room) q :
  JsMap.get rs k = Some room0 -> In q room0 ->
  (forall old, peerInfo c = Some old -> obj q <> obj old) ->
  exists room',
    JsMap.get (fst (fst (join ready rs n w c roomId pid pname))) k = Some room' /\
    In q room'.
Proof.
  intros Hget Hq Hne. unfold join.
  assert (Hleft : forall old, peerInfo c = Some old ->
            exists room1,
              JsMap.get (JsMap.alter (set_delete (obj old)) rs (currentRoom c)) k = Some room1 /\
              In q room1).
  { intros old Hold. rewrite JsMapFacts.get_alter.
    destruct (decide (currentRoom c = k)); [|eauto].
    eexists. split; [exact (f_equal (option_map (set_delete (obj old))) Hget)|].
    apply set_delete_removes. auto. }
  assert (Hrest : forall (rs1 : Rooms) (room1 : Room),
            JsMap.get rs1 k = Some room1 -> In q room1 ->
            exists room',
              JsMap.get
                (JsMap.alter (set_add (mkPeerInfo w pid pname n))
                   (if JsMap.has rs1 roomId then rs1 else JsMap.set rs1 roomId []) roomId) k
              = Some room' /\ In q room').
  { intros rs1 room1 H1 Hq1.
    set (rs2 := if JsMap.has rs1 roomId then rs1 else JsMap.set rs1 roomId []).
    assert (H2 : JsMap.get rs2 k = Some room1).
    { subst rs2. destruct (JsMap.has rs1 roomId) eqn:Hhas; [assumption|].
      apply JsMapFacts.has_false in Hhas.
      rewrite JsMapFacts.get_set_ne; [assumption | congruence]. }
    rewrite JsMapFacts.get_alter.
    destruct (decide (roomId = k)); [|eauto].
    eexists. split; [exact (f_equal (option_map (set_add (mkPeerInfo w pid pname n))) H2)|].
    apply in_or_app. now left. }
  cbv zeta.
  destruct (truthy (currentRoom c) && JsMap.has rs (currentRoom c)).
  - destruct (peerInfo c) as [old|]; [|cbn; eauto].
    destruct (Hleft old eq_refl) as (room1 & H1 & Hq1).
    lazy beta iota zeta delta [fst]. exact (Hrest _ room1 H1 Hq1).
  - lazy beta iota zeta delta [fst]. exact (Hrest rs room0 Hget Hq).
Qed.

Lemma linked_step ready st e : wf st -> linked st -> linked (fst (step ready st e)).
Proof.
  intros Hwf Hl. pose proof Hl as (Hnd & Hmem & Hdis). destruct e as [w|w data|w]; cbn [step fst].
  - (* connection *)
    unfold onConnection. destruct (JsMap.has (conns st) w); [exact Hl|].
    split; [|split]; cbn [conns rooms].
    + now apply JsMapFacts.keys_set_NoDup.
    + intros w0 c0 i0 Hin Hi.
      apply JsMapFacts.In_set_NoDup in Hin as [[_ ->]|[_ Hin]]; [discriminate| |assumption].
      eauto.
    + intros w1 c1 i1 w2 c2 i2 H1 H2 Hi1 Hi2 Ho.
      apply JsMapFacts.In_set_NoDup in H1 as [[_ ->]|[_ H1]]; [discriminate| |assumption].
      apply JsMapFacts.In_set_NoDup in H2 as [[_ ->]|[_ H2]]; [discriminate| |assumption].
      eauto.
  - (* message *)
    unfold onMessage.
    destruct (JsMap.get (conns st) w) as [c|] eqn:Hc; [|exact Hl].
    destruct data as [[roomId pid pname|ty to rest|rest| |rest]|]; try exact Hl.
    assert (Hin_c : In (w, c) (conns st)) by now apply JsMapFacts.get_In.
    assert (Hok : conn_ok (nextObj st) c) by now apply (Hwf w).
    pose proof (fun k room0 q => join_keeps_members ready (rooms st) (nextObj st) w c
                                   roomId pid pname k room0 q) as Hkeep.
    destruct (RoomFacts.join_enters_room ready (rooms st) (nextObj st) w c roomId pid pname Hok)
      as (rs' & out & room & Hj & Hget & _ & _).
    rewrite Hj in Hkeep |- *. cbn [fst snd conns rooms] in *.
    split; [|split].
    + now apply JsMapFacts.keys_set_NoDup.
    + intros w0 c0 i0 Hin Hi.
      apply JsMapFacts.In_set_NoDup in Hin as [[-> ->]|[Hw0 Hin]]; [| |assumption].
      * cbn in Hi. injection Hi as <-. cbn. split; [reflexivity|].
        eexists. split; [exact Hget|]. apply in_or_app. right. now left.
      * destruct (Hmem w0 c0 i0 Hin Hi) as [Hws (room0 & Hr0 & Hi0)].
        split; [assumption|]. apply (Hkeep _ room0 i0 Hr0 Hi0).
        intros old Hold Ho. apply Hw0. exact (Hdis w0 c0 i0 w c old Hin Hin_c Hi Hold Ho).
    + intros w1 c1 i1 w2 c2 i2 H1 H2 Hi1 Hi2 Ho.
      apply JsMapFacts.In_set_NoDup in H1 as [[-> ->]|[Hw1 H1]]; [| |assumption];
        apply JsMapFacts.In_set_NoDup in H2 as [[-> ->]|[Hw2 H2]]; try assumption;
        try reflexivity.
      * cbn in Hi1. injection Hi1 as <-. cbn in Ho.
        pose proof (Hwf w2 c2 H2) as Hok2. unfold conn_ok in Hok2. rewrite Hi2 in Hok2. lia.
      * cbn in Hi2. injection Hi2 as <-. cbn in Ho.
        pose proof (Hwf w1 c1 H1) as Hok1. unfold conn_ok in Hok1. rewrite Hi1 in Hok1. lia.
      * eauto.
  - (* close *)
    unfold onClose.
    destruct (JsMap.get (conns st) w) as [c|] eqn:Hc; [|exact Hl].
    assert (Hin_c : In (w, c) (conns st)) by now apply JsMapFacts.get_In.
    assert (Hsame : forall rs,
              (forall w0 c0 i0, In (w0, c0) (conns st) -> w0 <> w -> peerInfo c0 = Some i0 ->
                 exists room, JsMap.get rs (currentRoom c0) = Some room /\ In i0 room) ->
              linked (mkState rs (JsMap.delete (conns st) w) (nextObj st))).
    { intros rs Hrs. split; [|split]; cbn [conns rooms].
      - now apply JsMapFacts.keys_delete_NoDup.
      - intros w0 c0 i0 Hin Hi. apply JsMapFacts.In_delete in Hin as [Hin Hw0].
        split; [now apply (Hmem w0 c0)|]. eauto.
      - intros w1 c1 i1 w2 c2 i2 H1 H2.
        apply JsMapFacts.In_delete in H1 as [H1 _], H2 as [H2 _]. eauto. }
    assert (Hold : forall w0 c0 i0, In (w0, c0) (conns st) -> w0 <> w -> peerInfo c0 = Some i0 ->
              exists room, JsMap.get (rooms st) (currentRoom c0) = Some room /\ In i0 room).
    { intros w0 c0 i0 Hin _ Hi. now apply (Hmem w0 c0). }
    destruct (peerInfo c) as [info|] eqn:Hinfo; [|now apply Hsame].
    destruct (truthy (currentRoom c) && JsMap.has (rooms st) (currentRoom c));
      [|now apply Hsame].
    apply Hsame. intros w0 c0 i0 Hin Hw0 Hi.
    destruct (Hmem w0 c0 i0 Hin Hi) as [_ (room0 & Hr0 & Hi0)].
    assert (Hne : obj i0 <> obj info).
    { intros Ho. apply Hw0. exact (Hdis w0 c0 i0 w c info Hin Hin_c Hi Hinfo Ho). }
    set (rs1 := JsMap.alter (set_delete (obj info)) (rooms st) (currentRoom c)).
    assert (H1 : exists room1, JsMap.get rs1 (currentRoom c0) = Some room1 /\ In i0 room1).
    { subst rs1. rewrite JsMapFacts.get_alter, Hr0.
      destruct (decide (currentRoom c = currentRoom c0)); [|eauto].
      cbn. eexists. split; [reflexivity|]. now apply set_delete_removes. }
    destruct H1 as (room1 & H1 & Hi1).
    destruct (JsMap.get rs1 (currentRoom c)) as [[|q r]|] eqn:Hcur; eauto.
    destruct (decide (currentRoom c = currentRoom c0)) as [Heq|Hneq].
    + rewrite Heq, H1 in Hcur. injection Hcur as ->. destruct Hi1.
    + rewrite JsMapFacts.get_delete_ne by assumption. eauto.
Qed.

Lemma linked_run es : forall st, wf st -> linked st -> linked (fst (run st es)).
Proof.
  induction es as [|[ready e] es IH]; intros st Hwf Hl; [exact Hl|].
  cbn [run]. pose proof (RoomFacts.wf_step ready st e Hwf) as Hwf1.
  pose proof (linked_step ready st e Hwf Hl) as Hl1.
  destruct (step ready st e) as [st1 out1]. cbn [fst] in *.
  specialize (IH st1 Hwf1 Hl1). now destruct (run st1 es).
Qed.

Lemma linked_init : linked init.
Proof.
  split; [constructor|]. split; [intros w c info []|intros w1 c1 i1 w2 c2 i2 []].
Qed.

(** X3. In every state the server reaches, the object of a connection that
    has joined carries the connection's socket and is a member of the room
    the connection names as its current room; hence a room listing shows
    that room with this peer among its peers. *)
Theorem joined_connection_is_listed_in_its_room
    (es : list ((Socket -> bool) * Event)) (w : Socket) (c : Conn) (info : PeerInfo) :
  let st := fst (run init es) in
  JsMap.get (conns st) w = Some c ->
  peerInfo c = Some info ->
  ws info = w /\
  (exists room, JsMap.get (rooms st) (currentRoom c) = Some room /\ In info room) /\
  (exists s, In s (roomList (rooms st)) /\ id s = currentRoom c /\
             In (peerId info, peerName info) (peers s) /\ 0 < peerCount s).
Proof.
  cbn zeta. intros Hc Hinfo.
  destruct (linked_run es init) as (_ & Hmem & _); [intros w0 c0 [] | apply linked_init |].
  destruct (Hmem w c info (JsMapFacts.get_In _ _ _ Hc) Hinfo) as [Hws (room & Hroom & Hin)].
  split; [assumption|]. split; [eauto|].
  exists (mkSummary (currentRoom c) (length room) (peerList room)). split; [|split; [|split]].
  - unfold roomList. apply in_map_iff. exists (currentRoom c, room).
    split; [reflexivity | now apply JsMapFacts.get_In].
  - reflexivity.
  - cbn. unfold peerList. apply in_map_iff. now exists info.
  - cbn. destruct room; [destruct Hin | cbn; lia].
Qed.

Lemma joined_connection_is_listed_in_its_room_witness :
  let st := fst (run init three_in_R) in
  let info := mkPeerInfo 2 (JStr "b") (JStr "Bob") 1 in
  ws info = 2 /\
  (exists room, JsMap.get (rooms st) (JStr "R") = Some room /\ In info room) /\
  (exists s, In s (roomList (rooms st)) /\ id s = JStr "R" /\
             In (JStr "b", JStr "Bob") (peers s) /\ 0 < peerCount s).
Proof.
  apply (joined_connection_is_listed_in_its_room three_in_R 2
           (mkConn (JStr "R") (Some (mkPeerInfo 2 (JStr "b") (JStr "Bob") 1)))
           (mkPeerInfo 2 (JStr "b") (JStr "Bob") 1)); reflexivity.
Defined.

(** *** The reply to a join *)

Lemma framesTo_app w a b : framesTo w (a ++ b) = framesTo w a ++ framesTo w b.
Proof. unfold framesTo. now rewrite List.filter_app, map_app. Qed.

Lemma framesTo_broadcast ready rs k msg w :
  framesTo w (broadcastToRoom ready rs k msg (Some w)) = [].
Proof.
  unfold framesTo.
  assert (H : List.filter (fun sf => Nat.eqb (fst sf) w)
                (broadcastToRoom ready rs k msg (Some w)) = []).
  { pose proof (fun s f => ServerFacts.broadcast_recipients ready rs k msg w s f) as Hrec.
    induction (broadcastToRoom ready rs k msg (Some w)) as [|[s f] l IH]; [reflexivity|].
    cbn. destruct (Hrec s f (or_introl eq_refl)) as [_ Hne].
    apply Nat.eqb_neq in Hne. rewrite Hne. apply IH.
    intros s' f' Hin. apply Hrec. now right. }
  now rewrite H.
Qed.

(** X4. The joiner gets exactly one frame for a join: [room-joined] for
    the requested room id, listing the members the room had before, without
    the joiner's own previous object when it rejoins the room it is in; a
    room that did not exist gives the empty list. Neither [peer-joined] nor
    [peer-left] comes back to the joiner. *)
Theorem joiner_gets_one_reply_listing_the_others
    (ready : Socket -> bool) (rs : Rooms) (n : nat) (w : Socket) (c : Conn)
    (roomId pid pname : JsVal) :
  conn_ok n c ->
  let before := default [] (JsMap.get rs roomId) in
  let others :=
    match peerInfo c with
    | Some old =>
        if truthy (currentRoom c) && bool_decide (currentRoom c = roomId)
        then set_delete (obj old) before else before
    | None => before
    end in
  framesTo w (snd (join ready rs n w c roomId pid pname)) =
    [RoomJoined roomId (peerList others)].
Proof.
  intros Hok. cbn zeta. unfold join, conn_ok in *.
  assert (Hgen : forall (rs1 : Rooms) out1 (room : Room),
            framesTo w out1 = [] ->
            default [] (JsMap.get rs1 roomId) = room ->
            framesTo w
              (out1 ++
               [(w, RoomJoined roomId
                      (peerList (default []
                         (JsMap.get (if JsMap.has rs1 roomId then rs1
                                     else JsMap.set rs1 roomId []) roomId))))] ++
               broadcastToRoom ready
                 (if JsMap.has rs1 roomId then rs1 else JsMap.set rs1 roomId [])
                 roomId (PeerJoined pid pname) (Some w))
            = [RoomJoined roomId (peerList room)]).
  { intros rs1 out1 room Hout1 Hroom.
    rewrite !framesTo_app, Hout1, framesTo_broadcast. cbn [app].
    unfold framesTo. cbn. rewrite Nat.eqb_refl. cbn. do 3 f_equal.
    destruct (JsMap.has rs1 roomId) eqn:Hhas; [assumption|].
    apply JsMapFacts.has_false in Hhas. rewrite Hhas in Hroom.
    now rewrite JsMapFacts.get_set_eq. }
  destruct (truthy (currentRoom c)) eqn:Htr; cbn [andb].
  - destruct (peerInfo c) as [old|]; [|discriminate].
    destruct (JsMap.has rs (currentRoom c)) eqn:Hhas; lazy beta iota zeta delta [snd].
    + apply Hgen; [apply framesTo_broadcast|].
      rewrite JsMapFacts.get_alter.
      destruct (decide (currentRoom c = roomId)) as [Heq|Hneq].
      * rewrite bool_decide_eq_true_2 by assumption.
        now destruct (JsMap.get rs roomId).
      * now rewrite bool_decide_eq_false_2.
    + apply Hgen; [reflexivity|].
      destruct (decide (currentRoom c = roomId)) as [Heq|Hneq].
      * rewrite bool_decide_eq_true_2 by assumption.
        apply JsMapFacts.has_false in Hhas. rewrite Heq in Hhas. now rewrite Hhas.
      * now rewrite bool_decide_eq_false_2.
  - lazy beta iota zeta delta [snd].
    replace (match peerInfo c with
             | Some _ => default [] (JsMap.get rs roomId)
             | None => default [] (JsMap.get rs roomId)
             end) with (default [] (JsMap.get rs roomId)) by now destruct (peerInfo c).
    now apply Hgen.
Qed.

Lemma joiner_gets_one_reply_listing_the_others_witness :
  let rs := rooms (fst (run init two_in_R)) in
  let c := mkConn (JStr "R") (Some (mkPeerInfo 2 (JStr "b") (JStr "Bob") 1)) in
  framesTo 2 (snd (join all_ready rs 2 2 c (JStr "R") (JStr "b") (JStr "Bobby"))) =
    [RoomJoined (JStr "R") [(JStr "a", JStr "Ann")]].
Proof.
  apply (joiner_gets_one_reply_listing_the_others all_ready
           (rooms (fst (run init two_in_R))) 2 2
           (mkConn (JStr "R") (Some (mkPeerInfo 2 (JStr "b") (JStr "Bob") 1)))
           (JStr "R") (JStr "b") (JStr "Bobby")).
  unfold conn_ok. cbn. lia.
Defined.

(** *** The two room listings and the HTTP endpoint *)

Lemma summaryJson_roomList roomId ps :
  summaryJson roomId ps = summaryToJson (mkSummary roomId (length ps) (peerList ps)).
Proof.
  unfold summaryJson, summaryToJson, peerList. cbn. now rewrite map_map.
Qed.

(** X5. The [get-rooms] reply and [GET /rooms] list the same rooms in the
    order of the room table: one summary per room, with the room's id, the
    number of its members as [peerCount], and as many peers as that count;
    [get-rooms] sends it to the asking socket only and changes nothing. *)
Theorem room_listings_agree
    (ready : Socket -> bool) (st : State) (w : Socket) (c : Conn) (req : Request) :
  (JsMap.get (conns st) w = Some c ->
   onMessage ready st w (Some GetRooms) = (st, [(w, RoomsList (roomList (rooms st)))])) /\
  (method req <> "OPTIONS" -> url req = "/rooms" ->
   status (httpServer (rooms st) req) = 200 /\
   body (httpServer (rooms st) req) =
     JsonBody (Jarr (map summaryToJson (roomList (rooms st))))) /\
  map id (roomList (rooms st)) = JsMap.keys (rooms st) /\
  (forall s, In s (roomList (rooms st)) ->
     peerCount s = length (peers s) /\
     exists room, In (id s, room) (rooms st) /\ peers s = peerList room).
Proof.
  split; [|split; [|split]].
  - intros Hc. unfold onMessage. now rewrite Hc.
  - intros Hm Hu. unfold httpServer.
    apply String.eqb_neq in Hm. rewrite Hm, Hu. cbn.
    split; [reflexivity|]. do 2 f_equal. unfold roomList. rewrite map_map.
    apply map_ext. intros [roomId ps]. apply summaryJson_roomList.
  - unfold roomList, JsMap.keys. rewrite map_map. apply map_ext. now intros [roomId ps].
  - intros s Hin. unfold roomList in Hin.
    apply in_map_iff in Hin as ([roomId ps] & <- & Hin). cbn.
    split; [unfold peerList; now rewrite length_map | eauto].
Qed.

Lemma room_listings_agree_witness :
  let st := fst (run init three_in_R) in
  let req := mkRequest "GET" "/rooms" in
  onMessage all_ready st 3 (Some GetRooms) = (st, [(3, RoomsList (roomList (rooms st)))]) /\
  status (httpServer (rooms st) req) = 200 /\
  body (httpServer (rooms st) req) =
    JsonBody (Jarr (map summaryToJson (roomList (rooms st)))).
Proof.
  split.
  - apply (proj1 (room_listings_agree all_ready (fst (run init three_in_R)) 3
                    (mkConn (JStr "R") (Some (mkPeerInfo 3 (JStr "c") (JStr "Cy") 2)))
                    (mkRequest "GET" "/rooms"))).
    reflexivity.
  - apply (proj1 (proj2 (room_listings_agree all_ready (fst (run init three_in_R)) 3
                    (mkConn (JStr "R") (Some (mkPeerInfo 3 (JStr "c") (JStr "Cy") 2)))
                    (mkRequest "GET" "/rooms")))).
    + discriminate.
    + reflexivity.
Defined.

(** X6. Every HTTP response carries the three CORS headers. [OPTIONS]
    to any URL is answered 200 with no body; any other request is answered
    404 with the text "Not found" exactly when its URL is neither [/health]
    nor [/rooms], and 200 with a JSON body otherwise. *)
Theorem http_responses (rs : Rooms) (req : Request) :
  (forall h, In h cors -> In h (headers (httpServer rs req))) /\
  (method req = "OPTIONS" ->
     status (httpServer rs req) = 200 /\ body (httpServer rs req) = NoBody) /\
  (method req <> "OPTIONS" ->
     (status (httpServer rs req) = 404 <->
        url req <> "/health" /\ url req <> "/rooms") /\
     (status (httpServer rs req) = 404 -> body (httpServer rs req) = TextBody "Not found") /\
     (status (httpServer rs req) <> 404 ->
        status (httpServer rs req) = 200 /\
        exists j, body (httpServer rs req) = JsonBody j /\
                  In ("Content-Type", "application/json") (headers (httpServer rs req)))).
Proof.
  unfold httpServer. split; [|split].
  - intros h Hh.
    destruct (String.eqb (method req) "OPTIONS"); [assumption|].
    destruct (String.eqb (url req) "/health"); [apply in_or_app; now left|].
    destruct (String.eqb (url req) "/rooms"); [apply in_or_app; now left | assumption].
  - intros ->. cbn. split; reflexivity.
  - intros Hm. apply String.eqb_neq in Hm. rewrite Hm.
    destruct (String.eqb_spec (url req) "/health") as [Hh|Hh];
      [|destruct (String.eqb_spec (url req) "/rooms") as [Hr|Hr]]; cbn.
    + split; [split; [discriminate | intros [H _]; contradiction]|].
      split; [discriminate|]. intros _. split; [reflexivity|]. eexists. split; [reflexivity|].
      right. right. right. now left.
    + split; [split; [discriminate | intros [_ H]; contradiction]|].
      split; [discriminate|]. intros _. split; [reflexivity|]. eexists. split; [reflexivity|].
      right. right. right. now left.
    + split; [split; [now split | reflexivity]|].
      split; [reflexivity|]. intros H. now destruct H.
Qed.

Lemma http_responses_witness :
  (status (httpServer [] (mkRequest "OPTIONS" "/anything")) = 200 /\
   body (httpServer [] (mkRequest "OPTIONS" "/anything")) = NoBody) /\
  (status (httpServer [] (mkRequest "GET" "/nowhere")) = 404 ->
   body (httpServer [] (mkRequest "GET" "/nowhere")) = TextBody "Not found").
Proof.
  split.
  - apply (proj1 (proj2 (http_responses [] (mkRequest "OPTIONS" "/anything")))). reflexivity.
  - apply (proj2 (proj2 (http_responses [] (mkRequest "GET" "/nowhere")))). discriminate.
Defined.

End ServerMore.

(** ** Relaying *)

Module RelayFacts.
Import Server ServerProps.


(** *** Members of a room and their connections *)







(** *** The relay *)




Example relay_from_the_nameless_room :
  let st := fst (run init ann_leaves_the_nameless_room) in
  snd (onMessage all_ready st 2 (Some (Relay Offer (JStr "a") "sdp")))
    = [(1, Forward (Relay Offer (JStr "a") "sdp"))] /\
  JsMap.get (conns st) 1 =
    Some (mkConn (JStr "B") (Some (mkPeerInfo 1 (JStr "a") (JStr "Ann") 1))).
Proof. split; reflexivity. Qed.

End RelayFacts.

(** ** More on the mesh manager *)

Module MeshFactsMore.
Import Rtc ManagerProps.

Section Mesh.
Variable createOffer : nat -> Sdp.
Variable createAnswer : nat -> Sdp.

(** *** What a handler leaves alone *)

Lemma createPeerConnection_keeps st k kname b :
  let st1 := fst (fst (Mesh.createPeerConnection createOffer st k kname b)) in
  Mesh.peerId st1 = Mesh.peerId st /\ Mesh.peerName st1 = Mesh.peerName st /\
  Mesh.ws st1 = Mesh.ws st /\
  Mesh.pendingCandidates st1 = Mesh.pendingCandidates st /\
  Mesh.nextObj st1 = S (Mesh.nextObj st) /\
  Mesh.peers st1 =
    JsMap.set (Mesh.peers st) k
      (snd (fst (Mesh.createPeerConnection createOffer st k kname b))) /\
  Mesh.obj (snd (fst (Mesh.createPeerConnection createOffer st k kname b))) = Mesh.nextObj st.
Proof. unfold Mesh.createPeerConnection. destruct b; cbn; repeat split. Qed.

Lemma connectAll_keeps members : forall st,
  let st1 := fst (Mesh.connectAll createOffer st members) in
  Mesh.peerId st1 = Mesh.peerId st /\ Mesh.peerName st1 = Mesh.peerName st /\
  Mesh.ws st1 = Mesh.ws st /\
  Mesh.pendingCandidates st1 = Mesh.pendingCandidates st /\
  Mesh.nextObj st1 = Mesh.nextObj st + length members /\
  (forall k, ~ In k (map fst members) ->
     JsMap.get (Mesh.peers st1) k = JsMap.get (Mesh.peers st) k).
Proof.
  induction members as [|[k kname] rest IH]; intros st.
  - cbn. repeat split. lia.
  - cbn [Mesh.connectAll].
    pose proof (createPeerConnection_keeps st k kname true) as (H1 & H2 & H3 & H4 & H5 & H6 & _).
    destruct (Mesh.createPeerConnection createOffer st k kname true) as [[st1 p1] eff1].
    cbn [fst snd] in *. specialize (IH st1).
    destruct (Mesh.connectAll createOffer st1 rest) as [st2 eff2].
    cbn [fst] in *. destruct IH as (I1 & I2 & I3 & I4 & I5 & I6).
    repeat split; try congruence.
    + rewrite I5, H5. cbn. lia.
    + intros k0 Hk0. cbn in Hk0. rewrite I6 by tauto.
      rewrite H6. apply JsMapFacts.get_set_ne. tauto.
Qed.

(** The identity and the socket of the manager are the same after any
    signal. *)
Lemma handleSignal_keeps st s :
  let st1 := fst (Mesh.handleSignal createOffer createAnswer st s) in
  Mesh.peerId st1 = Mesh.peerId st /\ Mesh.peerName st1 = Mesh.peerName st /\
  Mesh.ws st1 = Mesh.ws st.
Proof.
  destruct s as [room members|k kname|k kname|k kname offer|k answer|k c|l|];
    cbn [Mesh.handleSignal]; try (now repeat split).
  - pose proof (connectAll_keeps members (Mesh.set_roomId st room)) as (H1 & H2 & H3 & _).
    now destruct (Mesh.connectAll createOffer (Mesh.set_roomId st room) members).
  - unfold Mesh.removePeer. destruct (JsMap.get (Mesh.peers st) k); now repeat split.
  - unfold Mesh.handleOffer.
    destruct (JsMap.get (Mesh.peers st) k); cbn; now repeat split.
  - unfold Mesh.handleAnswer.
    destruct (JsMap.get (Mesh.peers st) k); cbn; now repeat split.
  - unfold Mesh.handleIceCandidate.
    destruct (JsMap.get (Mesh.peers st) k) as [p|]; [|now repeat split].
    destruct (remoteDescription (Mesh.pc p)); now repeat split.
Qed.

Lemma sent_app a b : sent (a ++ b) = sent a ++ sent b.
Proof. unfold sent. apply flat_map_app. Qed.

Lemma sent_cons_other e l :
  (forall x, e <> Mesh.WsSend x) -> sent (e :: l) = sent l.
Proof. intros He. destruct e; try reflexivity. now destruct (He e). Qed.

Lemma sent_drained o l : sent (map (Mesh.AddIceCandidate o) l) = [].
Proof. induction l as [|c l IH]; [reflexivity | exact IH]. Qed.

Lemma sent_send st e :
  sent (Mesh.send st e) = if decide (Mesh.ws st = Some Mesh.OPEN) then [e] else [].
Proof.
  unfold Mesh.send. destruct (Mesh.ws st) as [[]|]; cbn;
    destruct (decide _) as [H|H]; try reflexivity; try discriminate; now destruct H.
Qed.

Lemma sent_closeHandles p : sent (Mesh.closeHandles p) = [].
Proof. unfold Mesh.closeHandles. now destruct (Mesh.channel p). Qed.

(** The envelopes each signal makes the manager send. *)
Lemma sent_handleSignal st s :
  forall e, In e (sent (snd (Mesh.handleSignal createOffer createAnswer st s))) ->
    Mesh.ws st = Some Mesh.OPEN /\
    stampedBy (Mesh.peerId st) (Mesh.peerName st) e /\
    match e with
    | Mesh.Offer _ _ to _ => exists room members, s = Mesh.RoomJoined room members /\
                                                 In to (map fst members)
    | Mesh.Answer _ _ to _ => exists fromName offer, s = Mesh.SOffer to fromName offer
    | _ => False
    end.
Proof.
  destruct s as [room members|k kname|k kname|k kname offer|k answer|k c|l|];
    cbn [Mesh.handleSignal]; try (intros e []).
  - assert (Hgen : forall members st0 e,
              In e (sent (snd (Mesh.connectAll createOffer st0 members))) ->
              Mesh.ws st0 = Some Mesh.OPEN /\
              stampedBy (Mesh.peerId st0) (Mesh.peerName st0) e /\
              match e with
              | Mesh.Offer _ _ to _ => In to (map fst members)
              | _ => False
              end).
    { clear. induction members as [|[k kname] rest IH]; intros st0 e; [intros []|].
      cbn [Mesh.connectAll].
      pose proof (createPeerConnection_keeps st0 k kname true) as (H1 & H2 & H3 & _).
      destruct (Mesh.createPeerConnection createOffer st0 k kname true) as [[st1 p1] eff1] eqn:E1.
      specialize (IH st1 e).
      destruct (Mesh.connectAll createOffer st1 rest) as [st2 eff2].
      cbn [fst snd] in *. rewrite sent_app. intros Hin. apply in_app_or in Hin as [Hin|Hin].
      - unfold Mesh.createPeerConnection in E1. injection E1 as _ _ <-.
        cbn in Hin. rewrite sent_send in Hin.
        destruct (decide (Mesh.ws st0 = Some Mesh.OPEN)); [|destruct Hin].
        destruct Hin as [<-|[]]. cbn. auto.
      - destruct (IH Hin) as (Hws & Hst & Hto). rewrite H1, H2 in Hst.
        split; [congruence|]. split; [assumption|].
        destruct e; try contradiction. cbn. now right. }
    intros e Hin.
    destruct (Mesh.connectAll createOffer (Mesh.set_roomId st room) members)
      as [st1 eff] eqn:E.
    cbn [snd] in Hin. rewrite sent_cons_other in Hin by (intros; discriminate).
    specialize (Hgen members (Mesh.set_roomId st room) e). rewrite E in Hgen.
    destruct (Hgen Hin) as (Hws & Hst & Hto).
    split; [assumption|]. split; [assumption|].
    destruct e; try contradiction. eauto.
  - unfold Mesh.removePeer. destruct (JsMap.get (Mesh.peers st) k) as [p|]; cbn [snd].
    + rewrite !sent_app, sent_closeHandles. intros e [].
    + intros e [].
  - assert (Hsent : sent (snd (Mesh.handleOffer createOffer createAnswer st k kname offer)) =
                    if decide (Mesh.ws st = Some Mesh.OPEN)
                    then [Mesh.Answer (Mesh.peerId st) (Mesh.peerName st) k
                            (createAnswer
                               (match JsMap.get (Mesh.peers st) k with
                                | Some p => Mesh.obj p
                                | None => Mesh.nextObj st
                                end))]
                    else []).
    { unfold Mesh.handleOffer, Mesh.drain.
      destruct (JsMap.get (Mesh.peers st) k) as [p|];
        [|unfold Mesh.createPeerConnection]; cbn [snd fst app Mesh.obj];
        rewrite !sent_cons_other by (intros; discriminate);
        rewrite sent_app, sent_drained; cbn [app];
        rewrite !sent_cons_other by (intros; discriminate);
        apply sent_send. }
    rewrite Hsent. destruct (decide (Mesh.ws st = Some Mesh.OPEN)) as [Hopen|_];
      [|intros x []].
    intros x [<-|[]]. cbn. eauto 6.
  - unfold Mesh.handleAnswer, Mesh.drain.
    destruct (JsMap.get (Mesh.peers st) k) as [p|]; cbn [snd app]; [|intros e []].
    rewrite sent_cons_other by (intros; discriminate). rewrite sent_drained. intros e [].
  - unfold Mesh.handleIceCandidate.
    destruct (JsMap.get (Mesh.peers st) k) as [p|]; [|intros e []].
    destruct (remoteDescription (Mesh.pc p)); intros e [].
Qed.

(** X7. The manager hands an envelope to its socket only while the
    socket is open, and stamps it with its own id (and name): whatever
    signals arrive, every envelope sent is an offer to a peer listed in a
    [room-joined] among them or an answer to a peer whose offer is among
    them. With the socket not open no signal, no local candidate, no
    [joinRoom] and no [getRooms] sends anything. *)
Theorem envelopes_need_an_open_socket_and_carry_own_id
    (st : Mesh.State) (signals : list Mesh.Signal) :
  (forall e, In e (sent (snd (Mesh.handleSignals createOffer createAnswer st signals))) ->
     Mesh.ws st = Some Mesh.OPEN /\
     stampedBy (Mesh.peerId st) (Mesh.peerName st) e /\
     match e with
     | Mesh.Offer _ _ to _ =>
         exists room members, In (Mesh.RoomJoined room members) signals /\
                              In to (map fst members)
     | Mesh.Answer _ _ to _ =>
         exists fromName offer, In (Mesh.SOffer to fromName offer) signals
     | _ => False
     end) /\
  (forall pid c e, In e (sent (MeshMore.onicecandidate st pid c)) ->
     Mesh.ws st = Some Mesh.OPEN /\
     exists x, c = Some x /\ e = Mesh.IceCandidate (Mesh.peerId st) pid x) /\
  (Mesh.ws st <> Some Mesh.OPEN ->
     sent (snd (Mesh.handleSignals createOffer createAnswer st signals)) = [] /\
     (forall room, snd (Mesh.joinRoom st room) = []) /\
     Mesh.getRooms st = [] /\
     (forall pid c, MeshMore.onicecandidate st pid c = [])).
Proof.
  assert (Hsig : forall signals st e,
            In e (sent (snd (Mesh.handleSignals createOffer createAnswer st signals))) ->
            Mesh.ws st = Some Mesh.OPEN /\
            stampedBy (Mesh.peerId st) (Mesh.peerName st) e /\
            match e with
            | Mesh.Offer _ _ to _ =>
                exists room members, In (Mesh.RoomJoined room members) signals /\
                                     In to (map fst members)
            | Mesh.Answer _ _ to _ =>
                exists fromName offer, In (Mesh.SOffer to fromName offer) signals
            | _ => False
            end).
  { clear. induction signals as [|s rest IH]; intros st e; [intros []|].
    cbn [Mesh.handleSignals].
    pose proof (handleSignal_keeps st s) as (H1 & H2 & H3).
    pose proof (sent_handleSignal st s e) as Hs.
    destruct (Mesh.handleSignal createOffer createAnswer st s) as [st1 eff1].
    specialize (IH st1 e).
    destruct (Mesh.handleSignals createOffer createAnswer st1 rest) as [st2 eff2].
    cbn [fst snd] in *. rewrite sent_app. intros Hin. apply in_app_or in Hin as [Hin|Hin].
    - destruct (Hs Hin) as (Hws & Hst & Hto). split; [assumption|]. split; [assumption|].
      destruct e; try contradiction.
      + destruct Hto as (room & members & -> & Hto).
        exists room, members. split; [now left | assumption].
      + destruct Hto as (fn & o & ->). exists fn, o. now left.
    - destruct (IH Hin) as (Hws & Hst & Hto). rewrite H1, H2 in Hst.
      split; [congruence|]. split; [assumption|].
      destruct e; try contradiction.
      + destruct Hto as (room & members & Hr & Hto).
        exists room, members. split; [now right | assumption].
      + destruct Hto as (fn & o & Hs'). exists fn, o. now right. }
  split; [apply Hsig|]. split.
  - intros pid c e Hin. unfold MeshMore.onicecandidate in Hin.
    destruct c as [x|]; [|destruct Hin]. rewrite sent_send in Hin.
    destruct (decide (Mesh.ws st = Some Mesh.OPEN)); [|destruct Hin].
    destruct Hin as [<-|[]]. eauto.
  - intros Hws.
    assert (Hsend : forall e, Mesh.send st e = []).
    { intros e. unfold Mesh.send. destruct (Mesh.ws st) as [[]|]; try reflexivity.
      now destruct Hws. }
    split; [|split; [|split]].
    + destruct (sent (snd (Mesh.handleSignals createOffer createAnswer st signals)))
        as [|e l] eqn:E; [reflexivity|].
      destruct (Hsig signals st e) as [Hopen _]; [rewrite E; now left | contradiction].
    + intros room. cbn. apply Hsend.
    + apply Hsend.
    + intros pid [c|]; [apply Hsend | reflexivity].
Qed.




Lemma closed_app a b : closed (a ++ b) = closed a ++ closed b.
Proof. unfold closed. apply flat_map_app. Qed.




(** *** A signal concerns the peers it names and no other *)

(** X8. A signal changes the record and the candidate queue of the peers
    it is about (the sender of an offer, answer or candidate, the peer that
    left, the members listed by [room-joined]) and of no other peer. *)
Theorem signal_leaves_other_peers_alone
    (st : Mesh.State) (s : Mesh.Signal) (k : string) :
  ~ In k (touched s) ->
  let st1 := fst (Mesh.handleSignal createOffer createAnswer st s) in
  JsMap.get (Mesh.peers st1) k = JsMap.get (Mesh.peers st) k /\
  Mesh.pendingCandidates st1 !! k = Mesh.pendingCandidates st !! k.
Proof.
  intros Hk. destruct s as [room members|x xname|x xname|x xname offer|x answer|x c|l|];
    cbn [Mesh.handleSignal touched] in *; try (now split).
  - pose proof (connectAll_keeps members (Mesh.set_roomId st room)) as (_ & _ & _ & Hq & _ & Hp).
    destruct (Mesh.connectAll createOffer (Mesh.set_roomId st room) members) as [st1 eff].
    cbn [fst] in *. split; [now apply Hp | now rewrite Hq].
  - assert (Hx : x <> k) by (intros ->; apply Hk; now left).
    unfold Mesh.removePeer. destruct (JsMap.get (Mesh.peers st) x); [|now split].
    cbn. split; [now apply JsMapFacts.get_delete_ne | reflexivity].
  - assert (Hx : x <> k) by (intros ->; apply Hk; now left).
    unfold Mesh.handleOffer, Mesh.drain.
    destruct (JsMap.get (Mesh.peers st) x); cbn.
    + rewrite !JsMapFacts.get_alter_ne by assumption.
      split; [reflexivity | now apply lookup_delete_ne].
    + rewrite !JsMapFacts.get_alter_ne by assumption.
      rewrite JsMapFacts.get_set_ne by assumption.
      split; [reflexivity | now apply lookup_delete_ne].
  - assert (Hx : x <> k) by (intros ->; apply Hk; now left).
    unfold Mesh.handleAnswer, Mesh.drain.
    destruct (JsMap.get (Mesh.peers st) x); [|now split]. cbn.
    rewrite !JsMapFacts.get_alter_ne by assumption.
    split; [reflexivity | now apply lookup_delete_ne].
  - assert (Hx : x <> k) by (intros ->; apply Hk; now left).
    unfold Mesh.handleIceCandidate, Mesh.enqueue.
    destruct (JsMap.get (Mesh.peers st) x) as [p|].
    + destruct (remoteDescription (Mesh.pc p)); cbn.
      * split; [now apply JsMapFacts.get_alter_ne | reflexivity].
      * split; [reflexivity | now apply lookup_insert_ne].
    + cbn. split; [reflexivity | now apply lookup_insert_ne].
Qed.

(** *** [room-joined] for a peer that has a record *)






Example relisted_peer_loses_its_connection :
  Mesh.handleSignal (fun _ => "offer") (fun _ => "answer") connectedToAnn
    (Mesh.RoomJoined "R" [("a", "Ann")]) =
  (Mesh.mkState "me" "Me" "R" (Some Mesh.OPEN)
     [("a", Mesh.mkPeer "a" "Ann" (mkPc (Some "offer") None []) (Some ChConnecting) false 1)]
     ∅ 2,
   [Mesh.OnRoomJoined "R" [("a", "Ann")];
    Mesh.NewPeerConnection 1; Mesh.CreateDataChannel 1; Mesh.CreateOffer 1;
    Mesh.SetLocalDescription 1 "offer"; Mesh.WsSend (Mesh.Offer "me" "Me" "a" "offer")]).
Proof. reflexivity. Qed.

(** *** An offer for a peer that has a record *)


Example glare_offer_overwrites_own_offer :
  Mesh.handleSignal (fun _ => "offer") (fun _ => "answer") offeringToAnn
    (Mesh.SOffer "a" "Ann2" "offer-a") =
  (Mesh.mkState "me" "Me" "R" (Some Mesh.OPEN)
     [("a", Mesh.mkPeer "a" "Ann" (mkPc (Some "answer") (Some "offer-a") [])
              (Some ChConnecting) false 0)]
     (base.delete "a" ∅) 1,
   [Mesh.SetRemoteDescription 0 "offer-a"; Mesh.CreateAnswer 0;
    Mesh.SetLocalDescription 0 "answer";
    Mesh.WsSend (Mesh.Answer "me" "Me" "a" "answer")]).
Proof. reflexivity. Qed.

(** *** The roster, and who a message is sent to *)

Lemma values_mutate o f ps :
  JsMap.values (Mesh.mutate o f ps) =
    map (fun p => if Nat.eqb (Mesh.obj p) o then f p else p) (JsMap.values ps).
Proof.
  unfold JsMap.values, Mesh.mutate. rewrite !map_map. apply map_ext.
  intros [k p]. cbn. now destruct (Nat.eqb (Mesh.obj p) o).
Qed.

Lemma sends_after_mutate o f ps (message : Message) :
  (forall p, Mesh.channel (f p) = Mesh.channel p /\ Mesh.obj (f p) = Mesh.obj p) ->
  map (fun p => Mesh.ChannelSend (Mesh.obj p) message)
      (List.filter Mesh.isOpen (JsMap.values (Mesh.mutate o f ps))) =
  map (fun p => Mesh.ChannelSend (Mesh.obj p) message)
      (List.filter Mesh.isOpen (JsMap.values ps)).
Proof.
  intros Hf. rewrite values_mutate.
  induction (JsMap.values ps) as [|p l IH]; [reflexivity|].
  cbn [map List.filter].
  assert (Hg : Mesh.isOpen (if Nat.eqb (Mesh.obj p) o then f p else p) = Mesh.isOpen p /\
               Mesh.obj (if Nat.eqb (Mesh.obj p) o then f p else p) = Mesh.obj p).
  { destruct (Nat.eqb (Mesh.obj p) o); [|now split].
    destruct (Hf p) as [Hc Ho]. unfold Mesh.isOpen. now rewrite Hc, Ho. }
  destruct Hg as [Hopen Hobj]. rewrite Hopen.
  destruct (Mesh.isOpen p); cbn [map]; [rewrite Hobj; f_equal|]; exact IH.
Qed.

Lemma getConnectedPeers_roster st :
  Mesh.getConnectedPeers st = List.filter Mesh.infoConnected (Mesh.peerList st).
Proof.
  unfold Mesh.getConnectedPeers, Mesh.peerList.
  induction (JsMap.values (Mesh.peers st)) as [|p l IH]; [reflexivity|].
  cbn. destruct (Mesh.connected p) eqn:Hc; cbn; [|exact IH].
  now rewrite IH.
Qed.

(** X11. Which peers a chat message goes to depends on the ready state
    of the channels the records hold and on nothing else: neither a change
    of a connection's state nor the open or close handler of a channel
    changes any send, and a record whose held channel the platform reports
    open is sent to. The roster differs: [getConnectedPeers] is the
    connected part, in order, of the list given to the connection-change
    callback, and a record is marked connected by the open handler of any
    channel set up for it, also one that [ondatachannel] has since replaced,
    and by the connection reaching the connected state, whatever the channel
    it holds. So after a channel that is not open has replaced the record's
    channel, the open event of the old one lists the peer as connected while
    no message is sent to it. *)
Theorem sends_follow_channels_roster_follows_flags
    (st : Mesh.State) (freshId : string) (now : nat) (txt : string) :
  (forall o state,
     snd (Mesh.sendMessage (fst (Mesh.onconnectionstatechange st o state)) freshId now txt)
     = snd (Mesh.sendMessage st freshId now txt)) /\
  (forall o,
     snd (Mesh.sendMessage (fst (Mesh.channel_onopen st o)) freshId now txt)
     = snd (Mesh.sendMessage st freshId now txt) /\
     snd (Mesh.sendMessage (fst (Mesh.channel_onclose st o)) freshId now txt)
     = snd (Mesh.sendMessage st freshId now txt)) /\
  Mesh.getConnectedPeers st = List.filter Mesh.infoConnected (Mesh.peerList st) /\
  (forall pid p,
     JsMap.get (Mesh.peers st) pid = Some p ->
     let message := mkMessage freshId (Mesh.peerId st) (Mesh.peerName st) txt now in
     let opened := fst (Mesh.channel_onopen st (Mesh.obj p)) in
     let linked := fst (Mesh.onconnectionstatechange st (Mesh.obj p) CsConnected) in
     In (Mesh.mkPeerInfo (Mesh.id p) (Mesh.name p) true) (Mesh.getConnectedPeers opened) /\
     In (Mesh.mkPeerInfo (Mesh.id p) (Mesh.name p) true) (Mesh.getConnectedPeers linked) /\
     snd (Mesh.channel_onopen st (Mesh.obj p)) =
       [Mesh.OnConnectionChange (Mesh.peerList opened)] /\
     (Mesh.channel p <> None ->
      In (Mesh.ChannelSend (Mesh.obj p) message)
         (snd (Mesh.sendMessage (Mesh.readyStateChange st (Mesh.obj p) ChOpen)
                 freshId now txt))) /\
     (forall rs, rs <> ChOpen ->
      let replaced := Mesh.ondatachannel st (Mesh.obj p) rs in
      let late := fst (Mesh.channel_onopen replaced (Mesh.obj p)) in
      In (Mesh.mkPeerInfo (Mesh.id p) (Mesh.name p) true) (Mesh.getConnectedPeers late) /\
      ~ In (Mesh.ChannelSend (Mesh.obj p) message)
           (snd (Mesh.sendMessage late freshId now txt)))).
Proof.
  split; [|split; [|split]].
  - intros o state. unfold Mesh.sendMessage, Mesh.onconnectionstatechange.
    destruct state; cbn [fst snd Mesh.set_peers Mesh.peers Mesh.peerId Mesh.peerName];
      try reflexivity; now apply sends_after_mutate.
  - intros o. unfold Mesh.sendMessage, Mesh.channel_onopen, Mesh.channel_onclose.
    cbn [fst snd Mesh.set_peers Mesh.peers Mesh.peerId Mesh.peerName].
    split; now apply sends_after_mutate.
  - apply getConnectedPeers_roster.
  - intros pid p Hget. cbn zeta.
    assert (Hin : forall ps q f, JsMap.get ps pid = Some q ->
                    In (f q) (JsMap.values (Mesh.mutate (Mesh.obj q) f ps))).
    { intros ps q f Hps. unfold JsMap.values. apply in_map_iff. exists (pid, f q).
      split; [reflexivity|]. apply JsMapFacts.get_In.
      rewrite ManagerFacts.mesh_get_mutate, Hps. cbn. now rewrite Nat.eqb_refl. }
    split; [|split; [|split; [|split]]].
    + unfold Mesh.getConnectedPeers, Mesh.channel_onopen.
      cbn [fst Mesh.set_peers Mesh.peers]. apply in_map_iff.
      exists (Mesh.with_connected true p).
      split; [reflexivity|]. apply List.filter_In.
      split; [|reflexivity]. now apply (Hin _ p (Mesh.with_connected true)).
    + unfold Mesh.getConnectedPeers, Mesh.onconnectionstatechange.
      cbn [fst Mesh.set_peers Mesh.peers]. apply in_map_iff.
      exists (Mesh.with_connected true p).
      split; [reflexivity|]. apply List.filter_In.
      split; [|reflexivity]. now apply (Hin _ p (Mesh.with_connected true)).
    + reflexivity.
    + intros Hch. unfold Mesh.sendMessage, Mesh.readyStateChange.
      cbn [fst snd Mesh.set_peers Mesh.peers Mesh.peerId Mesh.peerName].
      apply in_map_iff.
      exists (Mesh.with_channel (option_map (fun _ => ChOpen) (Mesh.channel p)) p).
      split; [reflexivity|]. apply List.filter_In. split.
      * now apply (Hin _ p (fun q => Mesh.with_channel
                                       (option_map (fun _ => ChOpen) (Mesh.channel q)) q)).
      * unfold Mesh.isOpen. cbn. destruct (Mesh.channel p); [reflexivity | now destruct Hch].
    + intros rs Hrs. cbn zeta. split.
      * unfold Mesh.getConnectedPeers, Mesh.channel_onopen, Mesh.ondatachannel.
        cbn [fst Mesh.set_peers Mesh.peers]. apply in_map_iff.
        exists (Mesh.with_connected true (Mesh.with_channel (Some rs) p)).
        split; [reflexivity|]. apply List.filter_In.
        split; [|reflexivity].
        apply (Hin _ (Mesh.with_channel (Some rs) p) (Mesh.with_connected true)).
        rewrite ManagerFacts.mesh_get_mutate, Hget. cbn. now rewrite Nat.eqb_refl.
      * unfold Mesh.sendMessage, Mesh.channel_onopen, Mesh.ondatachannel.
        cbn [fst snd Mesh.set_peers Mesh.peers Mesh.peerId Mesh.peerName].
        intros H. apply in_map_iff in H as (q & Hq & Hfil).
        injection Hq as Hobj. apply List.filter_In in Hfil as [Hval Hopen].
        rewrite !values_mutate, map_map in Hval.
        apply in_map_iff in Hval as (q0 & <- & _).
        destruct (Nat.eqb (Mesh.obj q0) (Mesh.obj p)) eqn:E0; cbn in Hopen, Hobj.
        -- rewrite E0 in Hopen. unfold Mesh.isOpen in Hopen. cbn in Hopen.
           destruct rs; try discriminate. now destruct Hrs.
        -- rewrite E0 in Hobj. apply Nat.eqb_neq in E0. now destruct E0.
Qed.

Lemma sends_follow_channels_roster_follows_flags_witness :
  let late := fst (Mesh.channel_onopen (Mesh.ondatachannel offeringToAnn 0 ChConnecting) 0) in
  In (Mesh.mkPeerInfo "a" "Ann" true) (Mesh.getConnectedPeers late) /\
  ~ In (Mesh.ChannelSend 0 (mkMessage "m1" "me" "Me" "hi" 17))
       (snd (Mesh.sendMessage late "m1" 17 "hi")).
Proof.
  destruct (sends_follow_channels_roster_follows_flags offeringToAnn "m1" 17 "hi")
    as (_ & _ & _ & H).
  destruct (H "a" (Mesh.mkPeer "a" "Ann" (mkPc (Some "offer") None []) (Some ChConnecting)
                     false 0) eq_refl) as (_ & _ & _ & _ & H5).
  apply (H5 ChConnecting). discriminate.
Defined.

Example connected_without_channel_gets_no_message :
  let linked := fst (Mesh.onconnectionstatechange offeringToAnn 0 CsConnected) in
  Mesh.getConnectedPeers linked = [Mesh.mkPeerInfo "a" "Ann" true] /\
  snd (Mesh.sendMessage linked "m1" 17 "hi") = [].
Proof. split; reflexivity. Qed.

Example open_of_a_replaced_channel_sends_nothing :
  let replaced := Mesh.ondatachannel offeringToAnn 0 ChConnecting in
  let late := fst (Mesh.channel_onopen replaced 0) in
  Mesh.getConnectedPeers late = [Mesh.mkPeerInfo "a" "Ann" true] /\
  snd (Mesh.sendMessage late "m1" 17 "hi") = [] /\
  snd (Mesh.sendMessage (Mesh.readyStateChange late 0 ChOpen) "m1" 17 "hi") =
    [Mesh.ChannelSend 0 (mkMessage "m1" "me" "Me" "hi" 17)].
Proof. repeat split. Qed.

(** *** Runs of the manager *)

Lemma meshSound_same_peers st st' :
  Mesh.peers st' = Mesh.peers st -> meshSound st -> meshSound st'.
Proof. unfold meshSound. now intros ->. Qed.

Lemma meshSound_step st i :
  meshSound st -> meshSound (MeshMore.step createOffer createAnswer st i).
Proof.
  intros Hs. destruct i as [s|o state|o rs|o rs|o|o|e|room|]; cbn [MeshMore.step].
  - now apply ManagerFacts.meshSound_handleSignal.
  - now apply (ManagerFacts.meshSound_events st o state ChOpen).
  - now apply (ManagerFacts.meshSound_events st o CsNew rs).
  - destruct Hs as [Hk Hf]. split; cbn.
    + now apply ManagerFacts.keyed_mesh_mutate.
    + apply ManagerFacts.allFresh_mutate; [|assumption].
      intros p Hp. exact Hp.
  - now apply (ManagerFacts.meshSound_events st o CsNew ChOpen).
  - now apply (ManagerFacts.meshSound_events st o CsNew ChOpen).
  - apply (meshSound_same_peers st); [|assumption].
    unfold MeshMore.wsStep, MeshMore.timeout.
    destruct e; cbn; try reflexivity. now destruct (Mesh.ws st) as [[]|].
  - exact Hs.
  - split; [apply KeyedFacts.keyed_nil | intros k p []].
Qed.

(** X12. From its creation on, whatever signals, connection and channel
    events, socket events, [joinRoom] and [disconnect] calls follow, the
    manager's map holds at most one record per peer id, each stored under
    the id it carries, and a connection without remote description has had
    no candidate applied. *)
Theorem manager_runs_keep_the_peer_map_sound
    (pid pname : string) (inputs : list MeshMore.Input) :
  let st := MeshMore.run createOffer createAnswer (Mesh.create pid pname) inputs in
  meshSound st /\
  NoDup (JsMap.keys (Mesh.peers st)) /\
  (forall k p, JsMap.get (Mesh.peers st) k = Some p ->
     Mesh.id p = k /\
     (remoteDescription (Mesh.pc p) = None -> candidates (Mesh.pc p) = [])).
Proof.
  cbn zeta.
  assert (Hs : meshSound (MeshMore.run createOffer createAnswer (Mesh.create pid pname) inputs)).
  { unfold MeshMore.run.
    generalize (Mesh.create pid pname), (ManagerFacts.meshSound_create pid pname).
    induction inputs as [|i rest IH]; intros st Hst; [exact Hst|].
    cbn [fold_left]. apply IH. now apply meshSound_step. }
  split; [exact Hs|]. destruct Hs as [[Hnd Hid] Hfr]. split; [exact Hnd|].
  intros k p Hget. apply JsMapFacts.get_In in Hget. split; [now apply Hid|].
  now apply (Hfr k).
Qed.

End Mesh.

Lemma signal_leaves_other_peers_alone_witness :
  let st1 := fst (Mesh.handleSignal (fun _ => "offer") (fun _ => "answer") waitingForAnswer
                    (Mesh.SOffer "b" "Bob" "offer-b")) in
  JsMap.get (Mesh.peers st1) "a" = JsMap.get (Mesh.peers waitingForAnswer) "a" /\
  Mesh.pendingCandidates st1 !! "a" = Mesh.pendingCandidates waitingForAnswer !! "a".
Proof.
  apply (signal_leaves_other_peers_alone (fun _ => "offer") (fun _ => "answer")
           waitingForAnswer (Mesh.SOffer "b" "Bob" "offer-b") "a").
  cbn. intros [H|[]]. discriminate.
Defined.

(** *** [connect()] *)

Lemma resolved_stays (st : Mesh.State) (b : bool) (events : list MeshMore.WsEvent) :
  snd (fold_left MeshMore.wsStep events (st, Some b)) = Some b.
Proof.
  revert st. induction events as [|e rest IH]; intros st; [reflexivity|].
  cbn [fold_left]. unfold MeshMore.wsStep at 2.
  destruct e; cbn [fst MeshMore.ws_onopen MeshMore.ws_onclose MeshMore.ws_onerror
                       MeshMore.resolve]; try apply IH.
  unfold MeshMore.timeout. destruct (Mesh.ws st) as [[]|]; cbn; apply IH.
Qed.

Lemma pending_run (st : Mesh.State) (events : list MeshMore.WsEvent) :
  Mesh.ws st <> Some Mesh.OPEN ->
  let final := snd (fold_left MeshMore.wsStep events (st, None)) in
  (In MeshMore.Timeout events \/ In MeshMore.Error events \/ In MeshMore.Open events ->
   final <> None) /\
  (final = Some true <->
   exists pre post, events = pre ++ MeshMore.Open :: post /\
                    Forall (fun e => e = MeshMore.Closed) pre).
Proof.
  revert st. induction events as [|e rest IH]; intros st Hws; cbn zeta.
  - split; [intros [[]|[[]|[]]]|]. split; [discriminate|].
    intros (pre & post & H & _). now destruct pre.
  - cbn [fold_left]. unfold MeshMore.wsStep at 2 4.
    destruct e; cbn [fst MeshMore.ws_onopen MeshMore.ws_onclose MeshMore.ws_onerror
                         MeshMore.resolve].
    + rewrite resolved_stays. split; [discriminate|]. split; [|reflexivity].
      intros _. exists [], rest. split; [reflexivity | constructor].
    + destruct (IH (MeshMore.set_ws st (option_map (fun _ => Mesh.CLOSED) (Mesh.ws st))))
        as [H1 H2].
      { cbn. destruct (Mesh.ws st); discriminate. }
      split.
      * intros [[H|H]|[[H|H]|[H|H]]]; try discriminate; apply H1; auto.
      * rewrite H2. split.
        -- intros (pre & post & -> & Hpre). exists (MeshMore.Closed :: pre), post.
           split; [reflexivity | now constructor].
        -- intros (pre & post & H & Hpre). destruct pre as [|x pre]; [discriminate|].
           injection H as _ ->. exists pre, post. split; [reflexivity|].
           inversion Hpre; assumption.
    + rewrite resolved_stays. split; [discriminate|]. split; [discriminate|].
      intros (pre & post & H & Hpre). destruct pre as [|x pre]; [discriminate|].
      injection H as <- _. inversion Hpre; discriminate.
    + assert (Ht : exists st', fst (MeshMore.timeout st None) = (st', Some false)).
      { unfold MeshMore.timeout. destruct (Mesh.ws st) as [[]|]; cbn; eauto.
        now destruct Hws. }
      destruct Ht as [st' ->]. rewrite resolved_stays.
      split; [discriminate|]. split; [discriminate|].
      intros (pre & post & H & Hpre). destruct pre as [|x pre]; [discriminate|].
      injection H as <- _. inversion Hpre; discriminate.
Qed.

(** X13. The promise of [connect()] is settled by the first of: the
    socket's open event (true), its error event (false), the timeout while
    the socket is not open (false, and the socket is closed); a close event
    alone settles nothing. So the promise is settled once the timeout has
    fired, and it is true exactly when the open event came before any error
    and before the timeout. When the socket cannot even be created the
    promise is false at once. *)
Theorem connect_settles_by_the_timeout
    (st : Mesh.State) (events : list MeshMore.WsEvent) :
  let final := snd (fold_left MeshMore.wsStep events (MeshMore.connect st false)) in
  (In MeshMore.Timeout events -> final <> None) /\
  (final = Some true <->
   exists pre post, events = pre ++ MeshMore.Open :: post /\
                    Forall (fun e => e = MeshMore.Closed) pre) /\
  (forall other, snd (fold_left MeshMore.wsStep other (MeshMore.connect st true)) = Some false) /\
  (forall s promise, Mesh.ws st = Some s -> s <> Mesh.OPEN ->
     MeshMore.timeout st promise =
       (MeshMore.set_ws st (Some (MeshMore.closing s)), MeshMore.resolve false promise,
        [MeshMore.SocketClose])).
Proof.
  cbn zeta. unfold MeshMore.connect.
  destruct (pending_run (MeshMore.set_ws st (Some Mesh.CONNECTING)) events) as [H1 H2];
    [discriminate|].
  split; [intros Hin; apply H1; now left|]. split; [exact H2|]. split.
  - intros other. apply resolved_stays.
  - intros s promise Hs Hne. unfold MeshMore.timeout. rewrite Hs.
    destruct s; try reflexivity. now destruct Hne.
Qed.

Lemma connect_settles_by_the_timeout_witness :
  let st := Mesh.create "me" "Me" in
  let events := [MeshMore.Closed; MeshMore.Timeout; MeshMore.Open] in
  snd (fold_left MeshMore.wsStep events (MeshMore.connect st false)) <> None.
Proof.
  apply (proj1 (connect_settles_by_the_timeout (Mesh.create "me" "Me")
                  [MeshMore.Closed; MeshMore.Timeout; MeshMore.Open])).
  right. now left.
Defined.

Example late_open_does_not_unsettle :
  snd (fold_left MeshMore.wsStep [MeshMore.Timeout; MeshMore.Open]
         (MeshMore.connect (Mesh.create "me" "Me") false)) = Some false.
Proof. reflexivity. Qed.


End MeshFactsMore.

(** ** The broadcast-channel manager along its runs *)

Module LocalFacts.
Import Rtc ManagerProps LocalProps.

Lemma values_set_new {V : Type} (m : list (string * V)) (k : string) (v : V) :
  JsMap.get m k = None -> JsMap.values (JsMap.set m k v) = JsMap.values m ++ [v].
Proof.
  induction m as [|[k' v'] r IH]; cbn; [reflexivity|].
  destruct (decide (k' = k)); [discriminate|].
  intros H. cbn. f_equal. now apply IH.
Qed.

Lemma flags_alter (f : Local.Peer -> Local.Peer) (m : list (string * Local.Peer)) (k : string) :
  (forall p, Local.connected (f p) = Local.connected p) ->
  map Local.connected (JsMap.values (JsMap.alter f m k)) =
  map Local.connected (JsMap.values m).
Proof.
  intros Hf. induction m as [|[k' v'] r IH]; cbn; [reflexivity|].
  destruct (decide (k' = k)); cbn.
  - now rewrite Hf.
  - f_equal. exact IH.
Qed.

Lemma flags_mutate o (f : Local.Peer -> Local.Peer) (ps : list (string * Local.Peer)) :
  (forall p, Local.connected (f p) = Local.connected p) ->
  map Local.connected (JsMap.values (Local.mutate o f ps)) =
  map Local.connected (JsMap.values ps).
Proof.
  intros Hf. induction ps as [|[k' v'] r IH]; cbn; [reflexivity|].
  destruct (Nat.eqb (Local.obj v') o); cbn; [rewrite Hf|]; f_equal; exact IH.
Qed.

Lemma count_flags (l l' : list Local.Peer) :
  map Local.connected l = map Local.connected l' ->
  length (List.filter Local.connected l) = length (List.filter Local.connected l').
Proof.
  revert l'. induction l as [|x r IH]; intros [|x' r']; cbn; try discriminate; [reflexivity|].
  intros H. injection H as Hx Hr. rewrite Hx. destruct (Local.connected x'); cbn;
    [f_equal|]; now apply IH.
Qed.

Lemma current_flags (st st' : Local.State) :
  map Local.connected (JsMap.values (Local.peers st')) =
  map Local.connected (JsMap.values (Local.peers st)) ->
  current st' = current st.
Proof.
  intros H. unfold current, Local.connectedCount. now rewrite (count_flags _ _ H).
Qed.

Lemma current_new_record (st st' : Local.State) (k : string) (v : Local.Peer) :
  JsMap.get (Local.peers st) k = None -> Local.connected v = false ->
  map Local.connected (JsMap.values (Local.peers st')) =
  map Local.connected (JsMap.values (JsMap.set (Local.peers st) k v)) ->
  current st' = current st.
Proof.
  intros Hget Hv H. unfold current, Local.connectedCount.
  rewrite (count_flags _ _ H), values_set_new by assumption.
  rewrite List.filter_app, length_app. cbn. rewrite Hv. cbn. now rewrite Nat.add_0_r.
Qed.

Lemma reportedFrom_app (x : bool * nat) (l l' : list Local.Effect) :
  reportedFrom x (l ++ l') = reportedFrom (reportedFrom x l) l'.
Proof. apply fold_left_app. Qed.

Lemma reportedFrom_notify (x : bool * nat) (st : Local.State) :
  reportedFrom x (Local.notifyConnectionChange st) = current st.
Proof. reflexivity. Qed.

Lemma reportedFrom_sends (x : bool * nat) (m : Message) (l : list Local.Peer) :
  reportedFrom x (map (fun p => Local.ChannelSend (Local.obj p) m) l) = x.
Proof. induction l as [|p r IH]; [reflexivity | exact IH]. Qed.

Section Local.
Variable createOffer : nat -> Sdp.
Variable createAnswer : nat -> Sdp.

Lemma removePeer_sync (st : Local.State) (pid : string) (x : bool * nat) :
  reportedFrom x (snd (Local.removePeer st pid)) =
    match JsMap.get (Local.peers st) pid with
    | Some _ => current (fst (Local.removePeer st pid))
    | None => x
    end.
Proof.
  unfold Local.removePeer. destruct (JsMap.get (Local.peers st) pid) as [peer|]; [|reflexivity].
  cbn [fst snd]. rewrite !reportedFrom_app. apply reportedFrom_notify.
Qed.

Lemma step_sync (st : Local.State) (i : LocalMore.Input) :
  i <> LocalMore.Leave ->
  reportedFrom (current st) (snd (LocalMore.step createOffer createAnswer st i)) =
    current (fst (LocalMore.step createOffer createAnswer st i)).
Proof.
  intros Hi. destruct i as [s|pid c|o pid state|o rs|o rs|o|o|parsed|freshId now txt|];
    cbn [LocalMore.step fst snd].
  - destruct s as [pid pname|from fromName to offer|from fromName to answer|from to c|pid];
      cbn [Local.handleSignal].
    + destruct (negb (String.eqb pid (Local.peerId st))); cbn [andb]; [|reflexivity].
      destruct (JsMap.has (Local.peers st) pid) eqn:Hhas; cbn [negb]; [reflexivity|].
      apply JsMapFacts.has_false in Hhas. cbn.
      symmetry. eapply current_new_record; [exact Hhas| |reflexivity]. reflexivity.
    + destruct (String.eqb to (Local.peerId st)); [|reflexivity].
      unfold Local.handleOffer.
      destruct (JsMap.get (Local.peers st) from) as [peer|] eqn:Hget; cbn.
      * symmetry. apply current_flags. cbn. now apply flags_alter.
      * symmetry. eapply current_new_record; [exact Hget| |].
        2:{ cbn. apply flags_alter. reflexivity. }
        reflexivity.
    + destruct (String.eqb to (Local.peerId st)); [|reflexivity].
      unfold Local.handleAnswer.
      destruct (JsMap.get (Local.peers st) from) as [peer|]; [|reflexivity]. cbn.
      symmetry. apply current_flags. cbn. now apply flags_alter.
    + destruct (String.eqb to (Local.peerId st)); [|reflexivity].
      unfold Local.handleIceCandidate.
      destruct (JsMap.get (Local.peers st) from) as [peer|]; [|reflexivity]. cbn.
      symmetry. apply current_flags. cbn. now apply flags_alter.
    + destruct (negb (String.eqb pid (Local.peerId st))); [|reflexivity].
      rewrite removePeer_sync. unfold Local.removePeer.
      destruct (JsMap.get (Local.peers st) pid); reflexivity.
  - destruct c; reflexivity.
  - destruct state; cbn [Local.onconnectionstatechange fst snd]; try reflexivity.
    set (st' := Local.set_peers st (Local.mutate o (Local.with_connected false) (Local.peers st))).
    destruct (Local.removePeer st' pid) as [st'' eff] eqn:E. cbn [fst snd].
    rewrite reportedFrom_app, reportedFrom_notify.
    pose proof (removePeer_sync st' pid (current st')) as H. rewrite E in H. cbn [fst snd] in H.
    rewrite H. unfold Local.removePeer in E.
    destruct (JsMap.get (Local.peers st') pid); [reflexivity|]. now injection E as <- _.
  - symmetry. apply current_flags. cbn. now apply flags_mutate.
  - symmetry. apply current_flags. cbn. now apply flags_mutate.
  - reflexivity.
  - reflexivity.
  - destruct parsed; reflexivity.
  - cbn. apply reportedFrom_sends.
  - now destruct Hi.
Qed.

Lemma run_sync (inputs : list LocalMore.Input) : forall st,
  ~ In LocalMore.Leave inputs ->
  reportedFrom (current st) (snd (LocalMore.run createOffer createAnswer st inputs)) =
    current (fst (LocalMore.run createOffer createAnswer st inputs)).
Proof.
  induction inputs as [|i rest IH]; intros st Hno; [reflexivity|].
  cbn [LocalMore.run].
  pose proof (step_sync st i) as Hs.
  destruct (LocalMore.step createOffer createAnswer st i) as [st1 eff1].
  specialize (IH st1). destruct (LocalMore.run createOffer createAnswer st1 rest) as [st2 eff2].
  cbn [fst snd] in *. rewrite reportedFrom_app, Hs.
  - apply IH. intros H. apply Hno. now right.
  - intros ->. apply Hno. now left.
Qed.

(** X14. Until [leave()] is called, the count last given to the
    connection-change callback is the current number of connected peers,
    and the flag last given says whether that number is positive: whatever
    signals and connection and channel events the manager has handled since
    it was created, [getPeerCount()] and the length of
    [getConnectedPeers()] equal the count of the latest callback (0 and
    [false] before the first). *)
Theorem reported_count_is_current
    (pid room pname : string) (inputs : list LocalMore.Input) :
  ~ In LocalMore.Leave inputs ->
  let res := LocalMore.run createOffer createAnswer (fst (Local.create pid room pname)) inputs in
  let log := snd (Local.create pid room pname) ++ snd res in
  reported log = (negb (Nat.eqb (LocalMore.getPeerCount (fst res)) 0),
                  LocalMore.getPeerCount (fst res)) /\
  length (Local.getConnectedPeers (fst res)) = snd (reported log).
Proof.
  intros Hno. cbn zeta.
  pose proof (run_sync inputs (fst (Local.create pid room pname)) Hno) as H.
  unfold reported. rewrite reportedFrom_app.
  change (reportedFrom (false, 0) (snd (Local.create pid room pname)))
    with (current (fst (Local.create pid room pname))).
  rewrite H. split; [reflexivity|].
  unfold Local.getConnectedPeers. now rewrite length_map.
Qed.

End Local.

Lemma reported_count_is_current_witness :
  let inputs := [LocalMore.Received (Local.Announce "a" "Ann"); LocalMore.ChannelOpen 0;
                 LocalMore.Received (Local.Leave "a")] in
  let res := LocalMore.run (fun _ => "offer") (fun _ => "answer")
               (fst (Local.create "me" "R" "Me")) inputs in
  let log := snd (Local.create "me" "R" "Me") ++ snd res in
  reported log = (negb (Nat.eqb (LocalMore.getPeerCount (fst res)) 0),
                  LocalMore.getPeerCount (fst res)) /\
  length (Local.getConnectedPeers (fst res)) = snd (reported log).
Proof.
  apply (reported_count_is_current (fun _ => "offer") (fun _ => "answer") "me" "R" "Me"
           [LocalMore.Received (Local.Announce "a" "Ann"); LocalMore.ChannelOpen 0;
            LocalMore.Received (Local.Leave "a")]).
  cbn. intros [H|[H|[H|[]]]]; discriminate.
Defined.

Example leave_is_not_reported :
  let res := LocalMore.run (fun _ => "offer") (fun _ => "answer") localConnectedToAnn
               [LocalMore.Leave] in
  LocalMore.getPeerCount (fst res) = 0 /\
  reportedFrom (current localConnectedToAnn) (snd res) = (true, 1).
Proof. split; reflexivity. Qed.

(** *** One connection per record *)

Lemma localSound_same (st st' : Local.State) :
  localSound st ->
  localKeyed st' ->
  Local.nextObj st <= Local.nextObj st' ->
  (forall k p', In (k, p') (Local.peers st') ->
     exists p, In (k, p) (Local.peers st) /\ Local.obj p' = Local.obj p) ->
  localSound st'.
Proof.
  intros (Hk & Hlt & Hd) Hk' Hle Hsub. split; [exact Hk'|]. split.
  - intros k p' Hin. destruct (Hsub k p' Hin) as (p & Hp & ->).
    specialize (Hlt k p Hp). lia.
  - intros k1 p1 k2 p2 H1 H2 Heq.
    destruct (Hsub k1 p1 H1) as (q1 & Hq1 & E1).
    destruct (Hsub k2 p2 H2) as (q2 & Hq2 & E2).
    apply (Hd k1 q1 k2 q2 Hq1 Hq2). congruence.
Qed.

Lemma localSound_new (st : Local.State) (k : string) (v : Local.Peer) :
  localSound st -> Local.id v = k -> Local.obj v = Local.nextObj st ->
  localSound (Local.mkState (Local.peerId st) (Local.peerName st) (Local.roomId st)
                (JsMap.set (Local.peers st) k v) (S (Local.nextObj st))).
Proof.
  intros (Hk & Hlt & Hd) Hid Hobj. split; [|split]; cbn.
  - apply KeyedFacts.keyed_set; assumption.
  - intros k' p' Hin. apply JsMapFacts.In_set in Hin as [[_ ->]|Hin].
    + lia.
    + specialize (Hlt k' p' Hin). lia.
  - intros k1 p1 k2 p2 H1 H2 Heq.
    apply JsMapFacts.In_set in H1 as [[-> ->]|H1];
      apply JsMapFacts.In_set in H2 as [[-> ->]|H2].
    + reflexivity.
    + specialize (Hlt k2 p2 H2). lia.
    + specialize (Hlt k1 p1 H1). lia.
    + now apply (Hd k1 p1 k2 p2).
Qed.

Lemma localSound_alter (st : Local.State) (f : Local.Peer -> Local.Peer) (k : string) :
  (forall p, Local.id (f p) = Local.id p) -> (forall p, Local.obj (f p) = Local.obj p) ->
  localSound st ->
  localSound (Local.set_peers st (JsMap.alter f (Local.peers st) k)).
Proof.
  intros Hid Hobj Hs. apply (localSound_same st); [exact Hs| |reflexivity|].
  - apply KeyedFacts.keyed_alter; [exact Hid | apply Hs].
  - intros k' p' Hin. cbn in Hin. apply JsMapFacts.In_alter in Hin as [Hin|[-> (v & Hv & ->)]].
    + now exists p'.
    + exists v. split; [exact Hv | apply Hobj].
Qed.

Lemma localSound_mutate (st : Local.State) o (f : Local.Peer -> Local.Peer) :
  (forall p, Local.id (f p) = Local.id p) -> (forall p, Local.obj (f p) = Local.obj p) ->
  localSound st ->
  localSound (Local.set_peers st (Local.mutate o f (Local.peers st))).
Proof.
  intros Hid Hobj Hs. apply (localSound_same st); [exact Hs| |reflexivity|].
  - unfold localKeyed. cbn. rewrite ManagerFacts.local_mutate_map.
    apply (KeyedFacts.keyed_map_values _
             (fun p => if Nat.eqb (Local.obj p) o then f p else p)); [|apply Hs].
    intros p. destruct (Nat.eqb (Local.obj p) o); [apply Hid | reflexivity].
  - intros k p' Hin. cbn in Hin. apply ManagerFacts.local_In_mutate in Hin as (p & Hp & ->).
    exists p. split; [exact Hp|]. destruct (Nat.eqb (Local.obj p) o); [apply Hobj | reflexivity].
Qed.

Lemma localSound_removePeer (st : Local.State) (pid : string) :
  localSound st -> localSound (fst (Local.removePeer st pid)).
Proof.
  intros Hs. unfold Local.removePeer.
  destruct (JsMap.get (Local.peers st) pid); [|exact Hs]. cbn [fst].
  apply (localSound_same st); [exact Hs| |reflexivity|].
  - apply KeyedFacts.keyed_delete, Hs.
  - intros k p' Hin. cbn in Hin. apply JsMapFacts.In_delete in Hin as [Hin _]. now exists p'.
Qed.

Section Sound.
Variable createOffer : nat -> Sdp.
Variable createAnswer : nat -> Sdp.

Lemma localSound_handleSignal (st : Local.State) (s : Local.SignalType) :
  localSound st -> localSound (fst (Local.handleSignal createOffer createAnswer st s)).
Proof.
  intros Hs.
  destruct s as [pid pname|from fromName to offer|from fromName to answer|from to c|pid];
    cbn [Local.handleSignal].
  - destruct (negb (String.eqb pid (Local.peerId st)) && negb (JsMap.has (Local.peers st) pid));
      [|exact Hs].
    cbn. now apply localSound_new.
  - destruct (String.eqb to (Local.peerId st)); [|exact Hs].
    unfold Local.handleOffer. destruct (JsMap.get (Local.peers st) from); cbn.
    + now apply localSound_alter.
    + apply (localSound_alter
               (Local.mkState (Local.peerId st) (Local.peerName st) (Local.roomId st)
                  (JsMap.set (Local.peers st) from
                     (Local.mkPeer from fromName (mkPc None None []) None false (Local.nextObj st)))
                  (S (Local.nextObj st)))); try reflexivity.
      now apply localSound_new.
  - destruct (String.eqb to (Local.peerId st)); [|exact Hs].
    unfold Local.handleAnswer. destruct (JsMap.get (Local.peers st) from); [|exact Hs].
    cbn. now apply localSound_alter.
  - destruct (String.eqb to (Local.peerId st)); [|exact Hs].
    unfold Local.handleIceCandidate. destruct (JsMap.get (Local.peers st) from); [|exact Hs].
    cbn. now apply localSound_alter.
  - destruct (negb (String.eqb pid (Local.peerId st))); [|exact Hs].
    now apply localSound_removePeer.
Qed.

Lemma localSound_step (st : Local.State) (i : LocalMore.Input) :
  localSound st -> localSound (fst (LocalMore.step createOffer createAnswer st i)).
Proof.
  intros Hs. destruct i as [s|pid c|o pid state|o rs|o rs|o|o|parsed|freshId now txt|];
    cbn [LocalMore.step fst].
  - now apply localSound_handleSignal.
  - exact Hs.
  - destruct state; cbn [Local.onconnectionstatechange fst]; try exact Hs;
      try (now apply localSound_mutate).
    pose proof (localSound_removePeer
                  (Local.set_peers st (Local.mutate o (Local.with_connected false) (Local.peers st)))
                  pid (localSound_mutate st o (Local.with_connected false)
                         (fun _ => eq_refl) (fun _ => eq_refl) Hs)) as H.
    destruct (Local.removePeer _ pid). exact H.
  - now apply localSound_mutate.
  - now apply localSound_mutate.
  - now apply localSound_mutate.
  - now apply localSound_mutate.
  - exact Hs.
  - exact Hs.
  - split; [apply KeyedFacts.keyed_nil|]. split; [intros ? ? [] | intros ? ? ? ? []].
Qed.

Lemma localSound_run (inputs : list LocalMore.Input) : forall st,
  localSound st -> localSound (fst (LocalMore.run createOffer createAnswer st inputs)).
Proof.
  induction inputs as [|i rest IH]; intros st Hs; [exact Hs|].
  cbn [LocalMore.run]. pose proof (localSound_step st i Hs) as H1.
  destruct (LocalMore.step createOffer createAnswer st i) as [st1 eff1].
  specialize (IH st1 H1). now destruct (LocalMore.run createOffer createAnswer st1 rest).
Qed.

(** X15. From its creation on, whatever signals, connection and channel
    events and calls follow, the manager's map holds at most one record per
    peer id, each stored under the id it carries, and no two records share a
    connection: a record's connection was made by this manager and belongs
    to that record alone, so an event of a connection or of its channel
    concerns at most one peer. *)
Theorem local_runs_keep_one_connection_per_peer
    (pid room pname : string) (inputs : list LocalMore.Input) :
  let st := fst (LocalMore.run createOffer createAnswer
                   (fst (Local.create pid room pname)) inputs) in
  NoDup (JsMap.keys (Local.peers st)) /\
  (forall k p, JsMap.get (Local.peers st) k = Some p ->
     Local.id p = k /\ Local.obj p < Local.nextObj st) /\
  (forall k1 p1 k2 p2,
     JsMap.get (Local.peers st) k1 = Some p1 -> JsMap.get (Local.peers st) k2 = Some p2 ->
     Local.obj p1 = Local.obj p2 -> k1 = k2) /\
  (forall o f k1 k2,
     JsMap.get (Local.mutate o f (Local.peers st)) k1 <> JsMap.get (Local.peers st) k1 ->
     JsMap.get (Local.mutate o f (Local.peers st)) k2 <> JsMap.get (Local.peers st) k2 ->
     k1 = k2).
Proof.
  cbn zeta.
  assert (Hs : localSound (fst (Local.create pid room pname))).
  { split; [apply KeyedFacts.keyed_nil|]. split; [intros ? ? [] | intros ? ? ? ? []]. }
  apply (localSound_run inputs) in Hs.
  set (st := fst (LocalMore.run createOffer createAnswer _ inputs)) in *.
  destruct Hs as (Hk & Hlt & Hd). split; [apply Hk|]. split; [|split].
  - intros k p Hget. apply JsMapFacts.get_In in Hget. split; [now apply Hk | now apply (Hlt k)].
  - intros k1 p1 k2 p2 H1 H2. apply (Hd k1 p1 k2 p2); now apply JsMapFacts.get_In.
  - intros o f k1 k2 H1 H2. rewrite ManagerFacts.local_get_mutate in H1, H2.
    destruct (JsMap.get (Local.peers st) k1) as [p1|] eqn:E1; [|now destruct H1].
    destruct (JsMap.get (Local.peers st) k2) as [p2|] eqn:E2; [|now destruct H2].
    cbn in H1, H2.
    destruct (Nat.eqb (Local.obj p1) o) eqn:O1; [|now destruct H1].
    destruct (Nat.eqb (Local.obj p2) o) eqn:O2; [|now destruct H2].
    apply Nat.eqb_eq in O1, O2.
    apply (Hd k1 p1 k2 p2); [now apply JsMapFacts.get_In..|congruence].
Qed.

End Sound.

(** *** Two managers on one broadcast channel *)

Section Handshake.
Variable offerA : nat -> Sdp.
Variable answerA : nat -> Sdp.
Variable offerB : nat -> Sdp.
Variable answerB : nat -> Sdp.

(** X16. Two managers on the same broadcast channel complete the
    handshake in three messages. When [B] announces itself and [A] has no
    record of it, [A] makes one connection with a data channel and posts one
    offer addressed to [B]; [B], having no record of [A], makes one
    connection without data channel and posts one answer addressed to [A];
    [A] applies it and posts nothing more. Afterwards each holds one record
    of the other under the other's id and name, [A]'s local description is
    [B]'s remote one (the offer) and [B]'s local description is [A]'s
    remote one (the answer), and each has reported the other's arrival
    once. *)
Theorem announce_offer_answer_completes (A B : Local.State) :
  Local.peerId A <> Local.peerId B ->
  JsMap.get (Local.peers A) (Local.peerId B) = None ->
  JsMap.get (Local.peers B) (Local.peerId A) = None ->
  let a := Local.peerId A in
  let b := Local.peerId B in
  let offer := offerA (Local.nextObj A) in
  let answer := answerB (Local.nextObj B) in
  let r1 := Local.handleSignal offerA answerA A (Local.Announce b (Local.peerName B)) in
  let r2 := LocalMore.handleSignals offerB answerB B (posted (snd r1)) in
  let r3 := LocalMore.handleSignals offerA answerA (fst r1) (posted (snd r2)) in
  posted (snd r1) = [Local.Offer a (Local.peerName A) b offer] /\
  posted (snd r2) = [Local.Answer b (Local.peerName B) a answer] /\
  posted (snd r3) = [] /\
  (exists pa pb,
     JsMap.get (Local.peers (fst r3)) b = Some pa /\
     JsMap.get (Local.peers (fst r2)) a = Some pb /\
     Local.id pa = b /\ Local.name pa = Local.peerName B /\
     Local.id pb = a /\ Local.name pb = Local.peerName A /\
     localDescription (Local.connection pa) = Some offer /\
     remoteDescription (Local.connection pb) = Some offer /\
     localDescription (Local.connection pb) = Some answer /\
     remoteDescription (Local.connection pa) = Some answer /\
     Local.channel pa = Some ChConnecting /\ Local.channel pb = None) /\
  made (snd r1 ++ snd r3) = [Local.nextObj A] /\
  made (snd r2) = [Local.nextObj B] /\
  joined (snd r1 ++ snd r3) = [(b, Local.peerName B)] /\
  joined (snd r2) = [(a, Local.peerName A)].
Proof.
  intros Hne HA HB. cbn zeta.
  assert (Hba : String.eqb (Local.peerId B) (Local.peerId A) = false).
  { apply String.eqb_neq. congruence. }
  assert (HhasA : JsMap.has (Local.peers A) (Local.peerId B) = false).
  { now apply JsMapFacts.has_false. }
  cbn [Local.handleSignal]. rewrite Hba, HhasA. cbn [negb andb].
  cbn [Local.createConnection fst snd posted flat_map app LocalMore.handleSignals
       Local.handleSignal Local.peerId].
  rewrite String.eqb_refl. unfold Local.handleOffer. rewrite HB.
  cbn [Local.createConnection fst snd posted flat_map app LocalMore.handleSignals
       Local.handleSignal Local.peerId Local.obj Local.peerName].
  rewrite String.eqb_refl. unfold Local.handleAnswer. cbn [Local.peers].
  rewrite JsMapFacts.get_set_eq.
  cbn [fst snd posted flat_map app made joined Local.peers Local.set_peers].
  repeat split.
  eexists. eexists.
  rewrite !JsMapFacts.get_alter_eq, !JsMapFacts.get_set_eq. cbn [option_map].
  repeat split.
Qed.
End Handshake.

Lemma announce_offer_answer_completes_witness :
  let A := Local.mkState "a" "Ann" "R" [] 0 in
  let B := Local.mkState "b" "Bob" "R" [] 0 in
  let r1 := Local.handleSignal (fun _ => "offer") (fun _ => "none") A (Local.Announce "b" "Bob") in
  let r2 := LocalMore.handleSignals (fun _ => "none") (fun _ => "answer") B (posted (snd r1)) in
  posted (snd r1) = [Local.Offer "a" "Ann" "b" "offer"] /\
  posted (snd r2) = [Local.Answer "b" "Bob" "a" "answer"].
Proof.
  pose proof (announce_offer_answer_completes
                (fun _ => "offer") (fun _ => "none") (fun _ => "none") (fun _ => "answer")
                (Local.mkState "a" "Ann" "R" [] 0) (Local.mkState "b" "Bob" "R" [] 0)) as H.
  cbn zeta in H. split; apply H; (discriminate || reflexivity).
Defined.

(** *** Candidates are not kept for later *)

Section Candidates.
Variable createOffer : nat -> Sdp.
Variable createAnswer : nat -> Sdp.

Lemma handleSignals_app (l1 l2 : list Local.SignalType) : forall st,
  LocalMore.handleSignals createOffer createAnswer st (l1 ++ l2) =
    let '(st1, eff1) := LocalMore.handleSignals createOffer createAnswer st l1 in
    let '(st2, eff2) := LocalMore.handleSignals createOffer createAnswer st1 l2 in
    (st2, eff1 ++ eff2).
Proof.
  induction l1 as [|s r IH]; intros st; cbn [app LocalMore.handleSignals].
  - now destruct (LocalMore.handleSignals createOffer createAnswer st l2).
  - destruct (Local.handleSignal createOffer createAnswer st s) as [st1 eff1].
    rewrite IH. destruct (LocalMore.handleSignals createOffer createAnswer st1 r) as [st2 eff2].
    destruct (LocalMore.handleSignals createOffer createAnswer st2 l2) as [st3 eff3].
    now rewrite app_assoc.
Qed.

Lemma candidates_unknown_sender (st : Local.State) (from : string) (cs : list Candidate) :
  JsMap.get (Local.peers st) from = None ->
  LocalMore.handleSignals createOffer createAnswer st
    (candidateSignals from (Local.peerId st) cs) = (st, []).
Proof.
  intros Hget. induction cs as [|c r IH]; [reflexivity|].
  cbn [candidateSignals map LocalMore.handleSignals Local.handleSignal].
  rewrite String.eqb_refl. unfold Local.handleIceCandidate. rewrite Hget.
  unfold candidateSignals in IH. now rewrite IH.
Qed.

Lemma candidates_known_sender (from : string) (cs : list Candidate) :
  forall (st : Local.State) (p : Local.Peer),
  JsMap.get (Local.peers st) from = Some p ->
  let res := LocalMore.handleSignals createOffer createAnswer st
               (candidateSignals from (Local.peerId st) cs) in
  snd res = map (Local.AddIceCandidate (Local.obj p)) cs /\
  JsMap.get (Local.peers (fst res)) from =
    Some (Local.with_connection
            (fun c => mkPc (localDescription c) (remoteDescription c) (candidates c ++ cs)) p) /\
  (forall k, k <> from -> JsMap.get (Local.peers (fst res)) k = JsMap.get (Local.peers st) k).
Proof.
  induction cs as [|c r IH]; intros st p Hget; cbn zeta.
  - cbn. split; [reflexivity|]. split; [|reflexivity].
    rewrite Hget. destruct p as [i n [l rd cands] ch co o].
    unfold Local.with_connection. cbn. now rewrite app_nil_r.
  - cbn [candidateSignals map LocalMore.handleSignals Local.handleSignal].
    rewrite String.eqb_refl. unfold Local.handleIceCandidate. rewrite Hget.
    set (st1 := Local.set_peers st _).
    assert (Hget1 : JsMap.get (Local.peers st1) from =
                    Some (Local.with_connection (addIceCandidate c) p)).
    { unfold st1. cbn. now rewrite JsMapFacts.get_alter_eq, Hget. }
    destruct (IH st1 _ Hget1) as (E1 & E2 & E3). cbn zeta in *.
    change (Local.peerId st) with (Local.peerId st1).
    unfold candidateSignals in *.
    destruct (LocalMore.handleSignals createOffer createAnswer st1
                (map (Local.IceCandidate from (Local.peerId st1)) r)) as [st2 eff2].
    cbn [fst snd] in *. split; [|split].
    + cbn. now rewrite E1.
    + rewrite E2. unfold Local.with_connection. cbn. now rewrite <- app_assoc.
    + intros k Hk. rewrite (E3 k Hk). unfold st1. cbn.
      now rewrite JsMapFacts.get_alter_ne by congruence.
Qed.

(** X17. The broadcast-channel manager keeps no candidate for later. A
    candidate addressed to it from a peer it has no record of is dropped,
    leaving the manager as it was: when that peer's offer arrives afterwards
    the record is made with no candidate, and [addIceCandidate] has not been
    called. For a peer with a record, [addIceCandidate] is called on that
    record's connection for every candidate on arrival, in order, and for no
    other record. *)
Theorem candidates_before_the_offer_are_lost
    (st : Local.State) (from fromName : string) (cs : list Candidate) (offer : Sdp) :
  let me := Local.peerId st in
  (JsMap.get (Local.peers st) from = None ->
   let res := LocalMore.handleSignals createOffer createAnswer st
                (candidateSignals from me cs ++ [Local.Offer from fromName me offer]) in
   LocalMore.handleSignals createOffer createAnswer st (candidateSignals from me cs) = (st, []) /\
   applied (snd res) = [] /\
   exists p, JsMap.get (Local.peers (fst res)) from = Some p /\
             candidates (Local.connection p) = [] /\
             remoteDescription (Local.connection p) = Some offer) /\
  (forall p, JsMap.get (Local.peers st) from = Some p ->
   let res := LocalMore.handleSignals createOffer createAnswer st
                (candidateSignals from me cs) in
   applied (snd res) = map (fun c => (Local.obj p, c)) cs /\
   (exists p', JsMap.get (Local.peers (fst res)) from = Some p' /\
               Local.obj p' = Local.obj p /\
               candidates (Local.connection p') = candidates (Local.connection p) ++ cs) /\
   (forall k, k <> from -> JsMap.get (Local.peers (fst res)) k = JsMap.get (Local.peers st) k)).
Proof.
  cbn zeta. split.
  - intros Hget. split; [now apply candidates_unknown_sender|].
    rewrite handleSignals_app, candidates_unknown_sender by assumption.
    cbn [LocalMore.handleSignals Local.handleSignal]. rewrite String.eqb_refl.
    unfold Local.handleOffer. rewrite Hget. cbn. split; [reflexivity|].
    eexists. rewrite JsMapFacts.get_alter_eq, JsMapFacts.get_set_eq. cbn.
    split; [reflexivity|]. split; reflexivity.
  - intros p Hget. destruct (candidates_known_sender from cs st p Hget) as (E1 & E2 & E3).
    cbn zeta in *. split; [|split].
    + rewrite E1. clear. induction cs as [|c r IH]; [reflexivity|]. cbn. now rewrite <- IH.
    + eexists. split; [exact E2|]. split; reflexivity.
    + exact E3.
Qed.

End Candidates.

Lemma candidates_before_the_offer_are_lost_witness :
  let res := LocalMore.handleSignals (fun _ => "offer") (fun _ => "answer") localAlone
               (candidateSignals "a" "me" ["c1"; "c2"] ++ [Local.Offer "a" "Ann" "me" "offer-a"]) in
  applied (snd res) = [] /\
  exists p, JsMap.get (Local.peers (fst res)) "a" = Some p /\
            candidates (Local.connection p) = [] /\
            remoteDescription (Local.connection p) = Some "offer-a".
Proof.
  apply (proj1 (candidates_before_the_offer_are_lost (fun _ => "offer") (fun _ => "answer")
                  localAlone "a" "Ann" ["c1"; "c2"] "offer-a")).
  reflexivity.
Defined.

(** *** Leaving *)

Lemma posted_app (l l' : list Local.Effect) : posted (l ++ l') = posted l ++ posted l'.
Proof. apply flat_map_app. Qed.

Lemma left_app (l l' : list Local.Effect) : left (l ++ l') = left l ++ left l'.
Proof. apply flat_map_app. Qed.

Lemma closeHandles_quiet (p : Local.Peer) (x : bool * nat) :
  posted (Local.closeHandles p) = [] /\ left (Local.closeHandles p) = [] /\
  reportedFrom x (Local.closeHandles p) = x.
Proof. unfold Local.closeHandles. destruct (Local.channel p); repeat split. Qed.

Lemma closing_quiet (l : list Local.Peer) (x : bool * nat) :
  posted (flat_map Local.closeHandles l) = [] /\ left (flat_map Local.closeHandles l) = [] /\
  reportedFrom x (flat_map Local.closeHandles l) = x.
Proof.
  induction l as [|p r (IH1 & IH2 & IH3)]; [repeat split|].
  destruct (closeHandles_quiet p x) as (H1 & H2 & H3).
  cbn [flat_map]. rewrite posted_app, left_app, reportedFrom_app, H1, H2, H3, IH1, IH2, IH3.
  repeat split.
Qed.

Section Leaving.
Variable createOffer : nat -> Sdp.
Variable createAnswer : nat -> Sdp.

(** X18. [leave()] posts one [leave] signal with the manager's id, which
    is the first thing it does, closes the connection of every record (and
    its channel where there is one), empties the map and closes the
    broadcast channel last; it calls neither the peer-leave nor the
    connection-change callback, and afterwards a chat message is sent to
    nobody. Another manager that has a record of the leaver, on receiving
    that signal, closes and removes just this record, reports the leaver to
    its peer-leave callback once and gives the connection-change callback
    its new count. *)
Theorem leave_closes_all_and_is_heard_by_the_others
    (A B : Local.State) (pa : Local.Peer) (x : bool * nat) :
  Local.peerId A <> Local.peerId B ->
  JsMap.get (Local.peers B) (Local.peerId A) = Some pa ->
  let a := Local.peerId A in
  let r := Local.leave A in
  let rb := LocalMore.handleSignals createOffer createAnswer B (posted (snd r)) in
  (Local.peers (fst r) = [] /\
   posted (snd r) = [Local.Leave a] /\
   (exists rest, snd r = Local.PostMessage (Local.Leave a) :: rest ++ [Local.SignalChannelClose]) /\
   (forall k p, In (k, p) (Local.peers A) ->
      In (Local.ConnectionClose (Local.obj p)) (snd r) /\
      (Local.channel p <> None -> In (Local.ChannelClose (Local.obj p)) (snd r))) /\
   left (snd r) = [] /\ reportedFrom x (snd r) = x /\
   (forall freshId now txt, snd (Local.sendMessage (fst r) freshId now txt) = []) /\
   Local.getConnectedPeers (fst r) = []) /\
  (JsMap.get (Local.peers (fst rb)) a = None /\
   (forall k, k <> a -> JsMap.get (Local.peers (fst rb)) k = JsMap.get (Local.peers B) k) /\
   left (snd rb) = [a] /\
   In (Local.ConnectionClose (Local.obj pa)) (snd rb) /\
   (forall k p, In (k, p) (Local.peers (fst rb)) ->
      ~ In (Local.ConnectionClose (Local.obj p)) (snd rb) \/ Local.obj p = Local.obj pa) /\
   reportedFrom x (snd rb) = current (fst rb)).
Proof.
  intros Hne HB. cbn zeta. split.
  - unfold Local.leave. cbn [fst snd Local.peers Local.set_peers].
    destruct (closing_quiet (JsMap.values (Local.peers A)) x) as (H1 & H2 & H3).
    repeat split.
    + cbn [app posted flat_map]. rewrite posted_app, H1. reflexivity.
    + now eexists.
    + cbn [app]. right. apply in_or_app. left. apply in_flat_map. exists p.
      split; [apply (in_map snd _ _ H) | apply ManagerFacts.local_closeHandles_spec].
    + intros Hch. cbn [app]. right. apply in_or_app. left. apply in_flat_map. exists p.
      split; [apply (in_map snd _ _ H) | now apply ManagerFacts.local_closeHandles_spec].
    + cbn [app left flat_map]. rewrite left_app, H2. reflexivity.
    + cbn [app]. change (reportedFrom x (?e :: ?l)) with (reportedFrom x l).
      now rewrite reportedFrom_app, H3.
  - unfold Local.leave. cbn [snd app posted flat_map].
    rewrite posted_app, (proj1 (closing_quiet _ x)). cbn [app posted flat_map].
    cbn [LocalMore.handleSignals Local.handleSignal].
    assert (Hab : String.eqb (Local.peerId A) (Local.peerId B) = false)
      by now apply String.eqb_neq.
    rewrite Hab. cbn [negb]. unfold Local.removePeer. rewrite HB.
    cbn [fst snd Local.peers Local.set_peers]. rewrite app_nil_r.
    destruct (closeHandles_quiet pa x) as (H1 & H2 & H3).
    split; [apply JsMapFacts.get_delete_eq|].
    split; [intros k Hk; apply JsMapFacts.get_delete_ne; congruence|].
    split; [rewrite left_app, H2; reflexivity|].
    split; [apply in_or_app; left; apply ManagerFacts.local_closeHandles_spec|].
    split.
    + intros k p Hin.
      destruct (Nat.eq_dec (Local.obj p) (Local.obj pa)) as [E|E]; [now right|left].
      intros H. apply in_app_or in H as [H|[H|[H|[]]]]; try discriminate.
      unfold Local.closeHandles in H.
      destruct (Local.channel pa); cbn in H; intuition congruence.
    + now rewrite !reportedFrom_app.
Qed.

End Leaving.

Lemma leave_closes_all_and_is_heard_by_the_others_witness :
  let r := Local.leave (Local.mkState "a" "Ann" "R" [] 0) in
  let rb := LocalMore.handleSignals (fun _ => "offer") (fun _ => "answer") localConnectedToAnn
              (posted (snd r)) in
  JsMap.get (Local.peers (fst rb)) "a" = None /\ left (snd rb) = ["a"].
Proof.
  pose proof (leave_closes_all_and_is_heard_by_the_others
                (fun _ => "offer") (fun _ => "answer")
                (Local.mkState "a" "Ann" "R" [] 0) localConnectedToAnn
                (Local.mkPeer "a" "Ann" (mkPc (Some "offer") (Some "answer") []) (Some ChOpen) true 0)
                (false, 0)) as H.
  cbn zeta in H. split; apply H; (discriminate || reflexivity).
Defined.

End LocalFacts.

(** ** The manual manager: exchange by hand, and the channel *)

Module ManualFacts.
Import Rtc ManualProps.

Section Exchange.
Variable Text : Type.
Variable btoaStringify : Manual.Encoded -> Text.
Variable parseAtob : Text -> option Manual.Encoded.

(** X19. The exchange by hand carries names and descriptions across,
    provided the platform reads back the object it encoded. The creator's
    text is given to the offer-ready callback only, the joiner's to the
    answer-ready callback only, and only when gathering is over (a candidate
    event that carries a candidate, or one before a local description is
    set, surfaces nothing). When the joiner applies the creator's text and
    the creator the joiner's, each ends with the other's name as remote peer
    name, the joiner's remote description is the creator's local one and the
    creator's remote description is the joiner's local one. A text on which
    decoding throws changes nothing. *)
Theorem exchange_by_hand_carries_names_and_descriptions
    (C J : Manual.State) (offer full1 answer full2 : Sdp) :
  (forall data, parseAtob (btoaStringify data) = Some data) ->
  Manual.isCreator C = true ->
  Manual.isCreator J = false ->
  let c1 := Manual.gathered full1 (fst (Manual.createOffer (Text:=Text) C offer)) in
  exists text1 j1 eff1 text2 c2 eff2,
    Manual.onicecandidate btoaStringify c1 None = [Manual.OnOfferReady text1] /\
    Manual.applyOffer parseAtob J text1 answer = Some (j1, eff1) /\
    Manual.onicecandidate btoaStringify (Manual.gathered full2 j1) None =
      [Manual.OnAnswerReady text2] /\
    Manual.applyAnswer parseAtob c1 text2 = Some (c2, eff2) /\
    Manual.getRemotePeerName j1 = Manual.peerName C /\
    Manual.getRemotePeerName c2 = Manual.peerName J /\
    Manual.localDescription (Manual.pc c2) = Some (Manual.mkDesc "offer" full1) /\
    Manual.remoteDescription (Manual.pc (Manual.gathered full2 j1)) =
      Manual.localDescription (Manual.pc c2) /\
    Manual.localDescription (Manual.pc (Manual.gathered full2 j1)) =
      Some (Manual.mkDesc "answer" full2) /\
    Manual.remoteDescription (Manual.pc c2) =
      Manual.localDescription (Manual.pc (Manual.gathered full2 j1)) /\
    (forall st c, Manual.onicecandidate btoaStringify st (Some c) = []) /\
    (forall st, Manual.localDescription (Manual.pc st) = None ->
       Manual.onicecandidate btoaStringify st None = []) /\
    (forall st bad a, parseAtob bad = None ->
       Manual.applyOffer parseAtob st bad a = None /\
       Manual.applyAnswer parseAtob st bad = None).
Proof.
  intros Hcodec HC HJ. cbn zeta.
  eexists. eexists. eexists. eexists. eexists. eexists.
  split.
  { unfold Manual.onicecandidate. cbn. rewrite HC. reflexivity. }
  split.
  { unfold Manual.applyOffer, Manual.decodeDescription, Manual.encodeDescription.
    rewrite Hcodec. reflexivity. }
  split.
  { unfold Manual.onicecandidate. cbn. rewrite HJ. reflexivity. }
  split.
  { unfold Manual.applyAnswer, Manual.decodeDescription, Manual.encodeDescription.
    rewrite Hcodec. reflexivity. }
  repeat split.
  - intros st Hnone. unfold Manual.onicecandidate. now rewrite Hnone.
  - unfold Manual.applyOffer, Manual.decodeDescription. now rewrite H.
  - unfold Manual.applyAnswer, Manual.decodeDescription. now rewrite H.
Qed.
End Exchange.

Lemma exchange_by_hand_carries_names_and_descriptions_witness :
  let C := fst (Manual.create (Text:=Manual.Encoded) "c1" "Carol" true) in
  let J := fst (Manual.create (Text:=Manual.Encoded) "j1" "Jo" false) in
  let c1 := Manual.gathered "v=0 offer+ice"
              (fst (Manual.createOffer (Text:=Manual.Encoded) C "v=0 offer")) in
  exists text1 j1 eff1,
    Manual.onicecandidate (fun data => data) c1 None = [Manual.OnOfferReady text1] /\
    Manual.applyOffer Some J text1 "v=0 answer" = Some (j1, eff1) /\
    Manual.getRemotePeerName j1 = "Carol".
Proof.
  destruct (exchange_by_hand_carries_names_and_descriptions
              Manual.Encoded (fun data => data) Some
              (fst (Manual.create (Text:=Manual.Encoded) "c1" "Carol" true))
              (fst (Manual.create (Text:=Manual.Encoded) "j1" "Jo" false))
              "v=0 offer" "v=0 offer+ice" "v=0 answer" "v=0 answer+ice"
              (fun _ => eq_refl) eq_refl eq_refl)
    as (text1 & j1 & eff1 & text2 & c2 & eff2 & H1 & H2 & H3 & H4 & H5 & _).
  exists text1, j1, eff1. repeat split; assumption.
Defined.

Section Channel.
Context {Text : Type}.

(** X20. When its channel opens a manager sends one handshake with its
    own name and id before anything else. The manager at the other end
    takes the name from it as its remote peer name and reports it to the
    connection-change callback; it does not surface the handshake as a chat
    message and does not change its connected flag. A chat message is sent
    only on an open channel, carries the sender's id and name, and at the
    other end is surfaced once and changes nothing. The name reported when
    the channel opens is the remote peer name known then, or "Peer" when
    that is empty. *)
Theorem handshake_names_the_peer_and_is_not_a_message
    (P Q : Manual.State) (freshId : string) (now : nat) (txt : string) :
  Manual.channel P <> None ->
  let opened := Manual.channel_onopen (Text:=Text) P in
  let r := receive (Text:=Text) Q (payloads (snd opened)) in
  let m := fst (Manual.sendMessage (Text:=Text) (fst opened) freshId now txt) in
  let r' := receive (Text:=Text) (fst r)
              (payloads (snd (Manual.sendMessage (Text:=Text) (fst opened) freshId now txt))) in
  payloads (snd opened) = [Manual.Handshake (Manual.peerName P) (Manual.peerId P)] /\
  namesReported (snd opened) = [(true, Manual.orPeer (Manual.remotePeerName P))] /\
  Manual.isConnected (fst opened) = true /\
  Manual.getRemotePeerName (fst r) = Manual.peerName P /\
  surfaced (snd r) = [] /\
  namesReported (snd r) = [(true, Manual.peerName P)] /\
  Manual.isConnected (fst r) = Manual.isConnected Q /\
  fst r' = fst r /\
  snd r' = [Manual.OnMessage m] /\
  (sender m = Manual.peerId P /\ senderName m = Manual.peerName P /\ text m = txt) /\
  (Manual.channel P <> Some ChOpen ->
   payloads (snd (Manual.sendMessage (Text:=Text) P freshId now txt)) = []).
Proof.
  intros Hch. destruct (Manual.channel P) as [rs|] eqn:E; [|now destruct Hch].
  cbn zeta. unfold Manual.channel_onopen, Manual.sendMessage. rewrite E. cbn.
  repeat split. intros Hne. destruct rs; try reflexivity. now destruct Hne.
Qed.
End Channel.

Lemma handshake_names_the_peer_and_is_not_a_message_witness :
  let P := fst (Manual.create (Text:=string) "c1" "Carol" true) in
  let Q := Manual.ondatachannel (fst (Manual.create (Text:=string) "j1" "Jo" false)) ChOpen in
  Manual.getRemotePeerName
    (fst (receive (Text:=string) Q (payloads (snd (Manual.channel_onopen (Text:=string) P)))))
  = "Carol".
Proof.
  pose proof (handshake_names_the_peer_and_is_not_a_message (Text:=string)
                (fst (Manual.create (Text:=string) "c1" "Carol" true))
                (Manual.ondatachannel (fst (Manual.create (Text:=string) "j1" "Jo" false)) ChOpen)
                "m1" 0 "hi") as H.
  cbn zeta in H. apply H. discriminate.
Defined.

Example joiner_without_channel_sends_nothing :
  snd (Manual.sendMessage (Text:=string)
         (fst (Manual.create (Text:=string) "j1" "Jo" false)) "m1" 0 "hi") = [] /\
  snd (Manual.sendMessage (Text:=string)
         (fst (Manual.disconnect (Text:=string)
                (fst (Manual.channel_onopen (Text:=string)
                        (fst (Manual.create (Text:=string) "c1" "Carol" true))))))
         "m1" 0 "hi") = [].
Proof. split; reflexivity. Qed.

End ManualFacts.

(** ** A newcomer and an incumbent, through the server *)

Module NetFacts.
Import Rtc ManagerProps.

Section ServerSide.
Variable ready : Server.Socket -> bool.

Lemma join_second (st : Server.State) (wa wb : Server.Socket) (infoA : Server.PeerInfo)
    (room : string) (pid pname : Server.JsVal) :
  JsMap.get (Server.conns st) wb = Some (Server.mkConn Server.JNull None) ->
  JsMap.get (Server.rooms st) (Server.JStr room) = Some [infoA] ->
  Server.ws infoA = wa -> wa <> wb -> ready wa = true ->
  let infoB := Server.mkPeerInfo wb pid pname (Server.nextObj st) in
  Server.onMessage ready st wb (Some (Server.Join (Server.JStr room) pid pname)) =
    (Server.mkState
       (JsMap.alter (Server.set_add infoB) (Server.rooms st) (Server.JStr room))
       (JsMap.set (Server.conns st) wb (Server.mkConn (Server.JStr room) (Some infoB)))
       (S (Server.nextObj st)),
     [(wb, Server.RoomJoined (Server.JStr room)
             [(Server.peerId infoA, Server.peerName infoA)]);
      (wa, Server.PeerJoined pid pname)]).
Proof.
  intros HcB Hroom <- Hw Hready. cbn zeta.
  unfold Server.onMessage. rewrite HcB. unfold Server.join. cbn [Server.currentRoom Server.truthy andb].
  assert (Hhas : JsMap.has (Server.rooms st) (Server.JStr room) = true).
  { apply JsMapFacts.has_get. eauto. }
  rewrite Hhas, Hroom. cbn [default app]. unfold Server.broadcastToRoom. rewrite Hroom.
  cbn [List.filter]. rewrite bool_decide_eq_false_2 by congruence. rewrite Hready.
  reflexivity.
Qed.

Lemma relay_in_room (st : Server.State) (w target : Server.Socket) (c : Server.Conn)
    (members : list Server.PeerInfo) (p : Server.PeerInfo)
    (ty : Server.RelayType) (to : Server.JsVal) (rest : string) :
  JsMap.get (Server.conns st) w = Some c ->
  JsMap.get (Server.rooms st) (Server.currentRoom c) = Some members ->
  List.find (fun peer => bool_decide (Server.peerId peer = to)) members = Some p ->
  Server.ws p = target ->
  Server.onMessage ready st w (Some (Server.Relay ty to rest)) =
    (st, [(target, Server.Forward (Server.Relay ty to rest))]).
Proof.
  intros Hc Hroom Hfind <-. unfold Server.onMessage. rewrite Hc.
  unfold Server.relay. now rewrite Hroom, Hfind.
Qed.
End ServerSide.

Section Join.
Variable offerA : nat -> Sdp.
Variable answerA : nat -> Sdp.
Variable offerB : nat -> Sdp.
Variable answerB : nat -> Sdp.
Variable ready : Server.Socket -> bool.

(** X21. A newcomer and the one member of a room complete the offer and
    answer exchange through the server. The newcomer's [joinRoom] gives it
    [room-joined] listing the member and gives the member [peer-joined]; the
    newcomer's offer is forwarded to the member alone, whose answer is
    forwarded to the newcomer alone; then nobody has anything left to send.
    Afterwards the newcomer holds a record of the member with a data
    channel, the member a record of the newcomer without one, each under the
    other's id and name; the newcomer's local description is the member's
    remote one and the member's local description is the newcomer's remote
    one; and the server's room holds both. *)
Theorem newcomer_and_member_connect_through_the_server
    (st : Server.State) (wa wb : Server.Socket) (infoA : Server.PeerInfo)
    (mA mB : Mesh.State) (room : string) :
  JsMap.get (Server.conns st) wa = Some (Server.mkConn (Server.JStr room) (Some infoA)) ->
  JsMap.get (Server.conns st) wb = Some (Server.mkConn Server.JNull None) ->
  JsMap.get (Server.rooms st) (Server.JStr room) = Some [infoA] ->
  Server.ws infoA = wa ->
  Server.peerId infoA = Server.JStr (Mesh.peerId mA) ->
  Server.peerName infoA = Server.JStr (Mesh.peerName mA) ->
  wa <> wb -> ready wa = true ->
  Mesh.ws mA = Some Mesh.OPEN -> Mesh.ws mB = Some Mesh.OPEN ->
  Mesh.peerId mA <> Mesh.peerId mB ->
  JsMap.get (Mesh.peers mA) (Mesh.peerId mB) = None ->
  let a := Mesh.peerId mA in
  let b := Mesh.peerId mB in
  let offer := offerB (Mesh.nextObj mB) in
  let answer := answerA (Mesh.nextObj mA) in
  let rB1 := Mesh.joinRoom mB room in
  let s1 := Net.serve ready st wb (sent (snd rB1)) in
  let rB2 := Mesh.handleSignals offerB answerB (fst rB1) (Net.received (snd s1) wb) in
  let rA1 := Mesh.handleSignals offerA answerA mA (Net.received (snd s1) wa) in
  let s2 := Net.serve ready (fst s1) wb (sent (snd rB2)) in
  let rA2 := Mesh.handleSignals offerA answerA (fst rA1) (Net.received (snd s2) wa) in
  let s3 := Net.serve ready (fst s2) wa (sent (snd rA2)) in
  let rB3 := Mesh.handleSignals offerB answerB (fst rB2) (Net.received (snd s3) wb) in
  (Net.received (snd s1) wb = [Mesh.RoomJoined room [(a, Mesh.peerName mA)]] /\
   Net.received (snd s1) wa = [Mesh.PeerJoined b (Mesh.peerName mB)] /\
   sent (snd rA1) = [] /\
   sent (snd rB2) = [Mesh.Offer b (Mesh.peerName mB) a offer] /\
   Net.received (snd s2) wa = [Mesh.SOffer b (Mesh.peerName mB) offer] /\
   Net.received (snd s2) wb = [] /\
   sent (snd rA2) = [Mesh.Answer a (Mesh.peerName mA) b answer] /\
   Net.received (snd s3) wb = [Mesh.SAnswer a answer] /\
   Net.received (snd s3) wa = [] /\
   sent (snd rB3) = []) /\
  (exists pA pB,
     JsMap.get (Mesh.peers (fst rA2)) b = Some pA /\
     JsMap.get (Mesh.peers (fst rB3)) a = Some pB /\
     Mesh.name pA = Mesh.peerName mB /\ Mesh.name pB = Mesh.peerName mA /\
     localDescription (Mesh.pc pB) = Some offer /\
     remoteDescription (Mesh.pc pA) = Some offer /\
     localDescription (Mesh.pc pA) = Some answer /\
     remoteDescription (Mesh.pc pB) = Some answer /\
     Mesh.channel pB = Some ChConnecting /\ Mesh.channel pA = None) /\
  Mesh.roomId (fst rB3) = room /\
  (exists infoB,
     JsMap.get (Server.rooms (fst s3)) (Server.JStr room) = Some [infoA; infoB] /\
     Server.ws infoB = wb /\ Server.peerId infoB = Server.JStr b).
Proof.
  intros HcA HcB Hroom Hws Hid Hname Hw Hready HoA HoB Hab HgetA.
  intros a b offer answer rB1 s1 rB2 rA1 s2 rA2 s3 rB3.
  fold a in Hid, Hab. fold b in Hab, HgetA.
  assert (Ewab : Nat.eqb wa wb = false) by now apply Nat.eqb_neq.
  assert (Ewba : Nat.eqb wb wa = false) by (apply Nat.eqb_neq; congruence).
  assert (E1 : rB1 = (Mesh.set_roomId mB room,
                      [Mesh.WsSend (Mesh.Join room b (Mesh.peerName mB))])).
  { unfold rB1, Mesh.joinRoom, Mesh.send. now rewrite HoB. }
  set (infoB := Server.mkPeerInfo wb (Server.JStr b) (Server.JStr (Mesh.peerName mB))
                  (Server.nextObj st)).
  set (st1 := Server.mkState
                (JsMap.alter (Server.set_add infoB) (Server.rooms st) (Server.JStr room))
                (JsMap.set (Server.conns st) wb (Server.mkConn (Server.JStr room) (Some infoB)))
                (S (Server.nextObj st))).
  assert (Es1 : s1 = (st1, [(Mesh.Join room b (Mesh.peerName mB),
                             [(wb, Server.RoomJoined (Server.JStr room)
                                     [(Server.JStr a, Server.JStr (Mesh.peerName mA))]);
                              (wa, Server.PeerJoined (Server.JStr b)
                                     (Server.JStr (Mesh.peerName mB)))])])).
  { unfold s1. rewrite E1. cbn [fst snd sent flat_map app Net.serve Wire.toServer].
    rewrite (join_second ready st wa wb infoA room _ _ HcB Hroom Hws Hw Hready).
    now rewrite Hid, Hname. }
  assert (Ein1b : Net.received (snd s1) wb = [Mesh.RoomJoined room [(a, Mesh.peerName mA)]]).
  { rewrite Es1. cbn. now rewrite Nat.eqb_refl, Ewab. }
  assert (Ein1a : Net.received (snd s1) wa = [Mesh.PeerJoined b (Mesh.peerName mB)]).
  { rewrite Es1. cbn. now rewrite Nat.eqb_refl, Ewba. }
  assert (EA1 : rA1 = (mA, [Mesh.OnPeerJoin b (Mesh.peerName mB)])).
  { unfold rA1. rewrite Ein1a. reflexivity. }
  set (pB0 := Mesh.mkPeer a (Mesh.peerName mA) (mkPc (Some offer) None [])
                (Some ChConnecting) false (Mesh.nextObj mB)).
  set (mB2 := Mesh.mkState b (Mesh.peerName mB) room (Some Mesh.OPEN)
                (JsMap.set (Mesh.peers mB) a pB0) (Mesh.pendingCandidates mB)
                (S (Mesh.nextObj mB))).
  assert (EB2 : fst rB2 = mB2 /\
                sent (snd rB2) = [Mesh.Offer b (Mesh.peerName mB) a offer]).
  { unfold rB2. rewrite Ein1b, E1. cbn. unfold Mesh.send. cbn. rewrite HoB. cbn.
    split; reflexivity. }
  destruct EB2 as [EB2 EsentB2].
  assert (HgetR1 : JsMap.get (Server.rooms st1) (Server.JStr room) = Some [infoA; infoB]).
  { unfold st1. cbn [Server.rooms]. now rewrite JsMapFacts.get_alter_eq, Hroom. }
  assert (Es2 : s2 = (st1, [(Mesh.Offer b (Mesh.peerName mB) a offer,
                             [(wa, Server.Forward
                                     (Wire.toServer (Mesh.Offer b (Mesh.peerName mB) a offer)))])])).
  { unfold s2. rewrite EsentB2, Es1. cbn [fst snd Net.serve Wire.toServer].
    rewrite (relay_in_room ready st1 wb wa (Server.mkConn (Server.JStr room) (Some infoB))
               [infoA; infoB] infoA); try reflexivity; try assumption.
    - unfold st1. cbn [Server.conns]. apply JsMapFacts.get_set_eq.
    - cbn [List.find]. rewrite Hid. now rewrite bool_decide_eq_true_2. }
  assert (Ein2a : Net.received (snd s2) wa = [Mesh.SOffer b (Mesh.peerName mB) offer]).
  { rewrite Es2. cbn. now rewrite Nat.eqb_refl. }
  assert (Ein2b : Net.received (snd s2) wb = []).
  { rewrite Es2. cbn. now rewrite Ewab. }
  assert (EA2 : sent (snd rA2) = [Mesh.Answer a (Mesh.peerName mA) b answer] /\
                exists pA, JsMap.get (Mesh.peers (fst rA2)) b = Some pA /\
                  Mesh.name pA = Mesh.peerName mB /\
                  remoteDescription (Mesh.pc pA) = Some offer /\
                  localDescription (Mesh.pc pA) = Some answer /\
                  Mesh.channel pA = None).
  { unfold rA2. rewrite EA1, Ein2a.
    cbn [Mesh.handleSignals Mesh.handleSignal fst snd].
    unfold Mesh.handleOffer. rewrite HgetA. cbn. split.
    - rewrite app_nil_r. change (flat_map _ ?l) with (sent l).
      rewrite MeshFactsMore.sent_app, MeshFactsMore.sent_drained.
      unfold Mesh.send. rewrite HoA. reflexivity.
    - eexists. rewrite !JsMapFacts.get_alter_eq, JsMapFacts.get_set_eq. cbn [option_map].
      split; [reflexivity|]. cbn. rewrite ManagerFacts.fold_addIceCandidate. cbn.
      repeat split. }
  destruct EA2 as (EsentA2 & pA & HpA & HpA1 & HpA2 & HpA3 & HpA4).
  assert (HcA1 : JsMap.get (Server.conns st1) wa =
                 Some (Server.mkConn (Server.JStr room) (Some infoA))).
  { unfold st1. cbn [Server.conns]. rewrite JsMapFacts.get_set_ne by congruence. exact HcA. }
  assert (Es3 : s3 = (st1, [(Mesh.Answer a (Mesh.peerName mA) b answer,
                             [(wb, Server.Forward
                                     (Wire.toServer (Mesh.Answer a (Mesh.peerName mA) b answer)))])])).
  { unfold s3. rewrite EsentA2, Es2. cbn [fst snd Net.serve Wire.toServer].
    rewrite (relay_in_room ready st1 wa wb (Server.mkConn (Server.JStr room) (Some infoA))
               [infoA; infoB] infoB); try reflexivity; try assumption.
    cbn [List.find]. rewrite Hid.
    rewrite bool_decide_eq_false_2 by congruence.
    unfold infoB. cbn [Server.peerId]. now rewrite bool_decide_eq_true_2. }
  assert (Ein3b : Net.received (snd s3) wb = [Mesh.SAnswer a answer]).
  { rewrite Es3. cbn. now rewrite Nat.eqb_refl. }
  assert (Ein3a : Net.received (snd s3) wa = []).
  { rewrite Es3. cbn. now rewrite Ewba. }
  assert (EB3 : sent (snd rB3) = [] /\ Mesh.roomId (fst rB3) = room /\
                exists pB, JsMap.get (Mesh.peers (fst rB3)) a = Some pB /\
                  Mesh.name pB = Mesh.peerName mA /\
                  localDescription (Mesh.pc pB) = Some offer /\
                  remoteDescription (Mesh.pc pB) = Some answer /\
                  Mesh.channel pB = Some ChConnecting).
  { unfold rB3. rewrite EB2, Ein3b.
    cbn [Mesh.handleSignals Mesh.handleSignal fst snd].
    unfold Mesh.handleAnswer. unfold mB2 at 1. cbn [Mesh.peers].
    rewrite JsMapFacts.get_set_eq. cbn. rewrite !JsMapFacts.get_set_eq. cbn.
    split; [|split; [reflexivity|]].
    - rewrite app_nil_r. change (flat_map _ ?l) with (sent l).
      apply MeshFactsMore.sent_drained.
    - eexists. rewrite !JsMapFacts.get_alter_eq, JsMapFacts.get_set_eq. cbn [option_map].
      split; [reflexivity|]. cbn. rewrite ManagerFacts.fold_addIceCandidate. cbn.
      repeat split. }
  destruct EB3 as (EsentB3 & EroomB3 & pB & HpB & HpB1 & HpB2 & HpB3 & HpB4).
  split.
  { rewrite EA1. repeat split; assumption || reflexivity. }
  split.
  { exists pA, pB. repeat split; assumption. }
  split; [exact EroomB3|].
  exists infoB. rewrite Es3. cbn [fst]. repeat split. exact HgetR1.
Qed.
End Join.

Lemma newcomer_and_member_connect_through_the_server_witness :
  let ready := fun _ : Server.Socket => true in
  let offerOf := fun _ : nat => "offer" in
  let answerOf := fun _ : nat => "answer" in
  let rB1 := Mesh.joinRoom NetProps.bob "R" in
  let s1 := Net.serve ready NetProps.annWaits 1 (sent (snd rB1)) in
  let rB2 := Mesh.handleSignals offerOf answerOf (fst rB1) (Net.received (snd s1) 1) in
  let rA1 := Mesh.handleSignals offerOf answerOf NetProps.ann (Net.received (snd s1) 0) in
  let s2 := Net.serve ready (fst s1) 1 (sent (snd rB2)) in
  let rA2 := Mesh.handleSignals offerOf answerOf (fst rA1) (Net.received (snd s2) 0) in
  let s3 := Net.serve ready (fst s2) 0 (sent (snd rA2)) in
  let rB3 := Mesh.handleSignals offerOf answerOf (fst rB2) (Net.received (snd s3) 1) in
  Mesh.roomId (fst rB3) = "R" /\
  exists pA pB,
    JsMap.get (Mesh.peers (fst rA2)) "b" = Some pA /\
    JsMap.get (Mesh.peers (fst rB3)) "a" = Some pB /\
    localDescription (Mesh.pc pB) = remoteDescription (Mesh.pc pA) /\
    localDescription (Mesh.pc pA) = remoteDescription (Mesh.pc pB).
Proof.
  pose proof (newcomer_and_member_connect_through_the_server
                (fun _ => "offer") (fun _ => "answer") (fun _ => "offer") (fun _ => "answer")
                (fun _ => true) NetProps.annWaits 0 1 NetProps.annInfo
                NetProps.ann NetProps.bob "R"
                eq_refl eq_refl eq_refl eq_refl eq_refl eq_refl
                ltac:(discriminate) eq_refl eq_refl eq_refl ltac:(discriminate) eq_refl) as H.
  cbn zeta in H |- *.
  destruct H as (_ & (pA & pB & H1 & H2 & _ & _ & H5 & H6 & H7 & H8 & _) & Hroom & _).
  split; [exact Hroom|]. exists pA, pB. repeat split; try assumption; congruence.
Defined.

(** *** Candidates on their way *)

Section Candidates.
Variable offerA : nat -> Sdp.
Variable answerA : nat -> Sdp.
Variable ready : Server.Socket -> bool.

Lemma gathering_sent (mB : Mesh.State) (pid : string) (events : list (option Candidate)) :
  Mesh.ws mB = Some Mesh.OPEN ->
  sent (Net.gathering mB pid events) =
    map (Mesh.IceCandidate (Mesh.peerId mB) pid) (Net.found events).
Proof.
  intros Hopen. unfold Net.gathering.
  induction events as [|[c|] rest IH]; cbn [flat_map Net.found map]; [reflexivity| |exact IH].
  rewrite MeshFactsMore.sent_app, IH. unfold MeshMore.onicecandidate, Mesh.send.
  now rewrite Hopen.
Qed.

Lemma received_cons (e : Mesh.Envelope) (out : Server.Sends)
    (outs : list (Mesh.Envelope * Server.Sends)) (w : Server.Socket) :
  Net.received ((e, out) :: outs) w = Net.inbox e out w ++ Net.received outs w.
Proof. reflexivity. Qed.

Lemma serve_candidates (st : Server.State) (wa wb : Server.Socket) (cB : Server.Conn)
    (members : list Server.PeerInfo) (infoA : Server.PeerInfo) (from to : string)
    (cs : list Candidate) :
  JsMap.get (Server.conns st) wb = Some cB ->
  JsMap.get (Server.rooms st) (Server.currentRoom cB) = Some members ->
  List.find (fun peer => bool_decide (Server.peerId peer = Server.JStr to)) members
    = Some infoA ->
  Server.ws infoA = wa ->
  let s := Net.serve ready st wb (map (Mesh.IceCandidate from to) cs) in
  fst s = st /\
  Net.received (snd s) wa = map (Mesh.SIceCandidate from) cs /\
  (forall w, w <> wa -> Net.received (snd s) w = []).
Proof.
  intros Hc Hroom Hfind Hws. cbn zeta. induction cs as [|c rest IH];
    [repeat split|].
  cbn [map Net.serve Wire.toServer].
  rewrite (relay_in_room ready st wb wa cB members infoA _ _ _ Hc Hroom Hfind Hws).
  destruct (Net.serve ready st wb (map (Mesh.IceCandidate from to) rest)) as [st2 outs].
  cbn [fst snd] in *. destruct IH as (-> & IH2 & IH3). split; [reflexivity|]. split.
  - rewrite received_cons, IH2. cbn. now rewrite Nat.eqb_refl.
  - intros w Hw. rewrite received_cons, (IH3 w Hw). cbn.
    now rewrite (proj2 (Nat.eqb_neq wa w)) by congruence.
Qed.

Lemma candidates_on_arrival (from : string) (cs : list Candidate) :
  forall (mA : Mesh.State) (pA : Mesh.PeerConnection),
  JsMap.get (Mesh.peers mA) from = Some pA ->
  remoteDescription (Mesh.pc pA) <> None ->
  let rA := Mesh.handleSignals offerA answerA mA (map (Mesh.SIceCandidate from) cs) in
  snd rA = map (Mesh.AddIceCandidate (Mesh.obj pA)) cs /\
  JsMap.get (Mesh.peers (fst rA)) from =
    Some (Mesh.with_pc
            (fun c => mkPc (localDescription c) (remoteDescription c) (candidates c ++ cs)) pA) /\
  (forall k, k <> from -> JsMap.get (Mesh.peers (fst rA)) k = JsMap.get (Mesh.peers mA) k) /\
  Mesh.pendingCandidates (fst rA) = Mesh.pendingCandidates mA.
Proof.
  induction cs as [|c rest IH]; intros mA pA Hget Hrd; cbn zeta.
  - cbn. split; [reflexivity|]. split; [|split; reflexivity].
    rewrite Hget. destruct pA as [i n [l rd cands] ch co o].
    unfold Mesh.with_pc. cbn. now rewrite app_nil_r.
  - cbn [map Mesh.handleSignals Mesh.handleSignal].
    unfold Mesh.handleIceCandidate. rewrite Hget.
    destruct (remoteDescription (Mesh.pc pA)) as [rd|] eqn:Erd; [|now destruct Hrd].
    set (mA1 := Mesh.set_peers mA _).
    assert (Hget1 : JsMap.get (Mesh.peers mA1) from =
                    Some (Mesh.with_pc (addIceCandidate c) pA)).
    { unfold mA1. cbn. now rewrite JsMapFacts.get_alter_eq, Hget. }
    assert (Hrd1 : remoteDescription (Mesh.pc (Mesh.with_pc (addIceCandidate c) pA)) <> None).
    { cbn. now rewrite Erd. }
    destruct (IH mA1 _ Hget1 Hrd1) as (E1 & E2 & E3 & E4). cbn zeta in *.
    destruct (Mesh.handleSignals offerA answerA mA1 (map (Mesh.SIceCandidate from) rest))
      as [mA2 eff2].
    cbn [fst snd] in *. split; [|split; [|split]].
    + cbn. now rewrite E1.
    + rewrite E2. unfold Mesh.with_pc. cbn. now rewrite <- app_assoc.
    + intros k Hk. rewrite (E3 k Hk). unfold mA1. cbn.
      now rewrite JsMapFacts.get_alter_ne by congruence.
    + rewrite E4. reflexivity.
Qed.

(** X23. Candidates found by a manager reach the peer they are for and
    no other, and are applied there on arrival. For each candidate event
    that carries a candidate the manager sends one envelope (none for the
    event that ends gathering); the server, unchanged by them, forwards each
    to the first member of the sender's room that has the addressee's id;
    that manager, holding a record of the sender with a remote description,
    calls [addIceCandidate] for each in the order found, on that record's
    connection, and queues none. *)
Theorem candidates_are_relayed_and_applied_on_arrival
    (st : Server.State) (wa wb : Server.Socket) (cB : Server.Conn)
    (members : list Server.PeerInfo) (infoA : Server.PeerInfo)
    (mA mB : Mesh.State) (pA : Mesh.PeerConnection) (events : list (option Candidate)) :
  JsMap.get (Server.conns st) wb = Some cB ->
  JsMap.get (Server.rooms st) (Server.currentRoom cB) = Some members ->
  List.find (fun peer => bool_decide (Server.peerId peer = Server.JStr (Mesh.peerId mA)))
            members = Some infoA ->
  Server.ws infoA = wa ->
  Mesh.ws mB = Some Mesh.OPEN ->
  JsMap.get (Mesh.peers mA) (Mesh.peerId mB) = Some pA ->
  remoteDescription (Mesh.pc pA) <> None ->
  let cs := Net.found events in
  let envelopes := sent (Net.gathering mB (Mesh.peerId mA) events) in
  let s := Net.serve ready st wb envelopes in
  let rA := Mesh.handleSignals offerA answerA mA (Net.received (snd s) wa) in
  envelopes = map (Mesh.IceCandidate (Mesh.peerId mB) (Mesh.peerId mA)) cs /\
  fst s = st /\
  Net.received (snd s) wa = map (Mesh.SIceCandidate (Mesh.peerId mB)) cs /\
  (forall w, w <> wa -> Net.received (snd s) w = []) /\
  added (snd rA) = map (pair (Mesh.obj pA)) cs /\
  (exists pA', JsMap.get (Mesh.peers (fst rA)) (Mesh.peerId mB) = Some pA' /\
               Mesh.obj pA' = Mesh.obj pA /\
               candidates (Mesh.pc pA') = candidates (Mesh.pc pA) ++ cs /\
               remoteDescription (Mesh.pc pA') = remoteDescription (Mesh.pc pA)) /\
  (forall k, k <> Mesh.peerId mB ->
     JsMap.get (Mesh.peers (fst rA)) k = JsMap.get (Mesh.peers mA) k) /\
  Mesh.pendingCandidates (fst rA) = Mesh.pendingCandidates mA.
Proof.
  intros Hc Hroom Hfind Hws Hopen Hget Hrd. cbn zeta.
  rewrite (gathering_sent mB (Mesh.peerId mA) events Hopen).
  destruct (serve_candidates st wa wb cB members infoA (Mesh.peerId mB) (Mesh.peerId mA)
              (Net.found events) Hc Hroom Hfind Hws) as (S1 & S2 & S3).
  cbn zeta in *. rewrite S2.
  destruct (candidates_on_arrival (Mesh.peerId mB) (Net.found events) mA pA Hget Hrd)
    as (E1 & E2 & E3 & E4).
  cbn zeta in *.
  split; [reflexivity|]. split; [exact S1|]. split; [reflexivity|]. split; [exact S3|].
  split.
  { rewrite E1. generalize (Net.found events). intros l.
    induction l as [|c r IH]; [reflexivity|]. cbn. now rewrite <- IH. }
  split; [|split; assumption].
  eexists. split; [exact E2|]. repeat split.
Qed.
End Candidates.

Lemma candidates_are_relayed_and_applied_on_arrival_witness :
  let st := Server.mkState
              [(Server.JStr "R",
                [NetProps.annInfo;
                 Server.mkPeerInfo 1 (Server.JStr "b") (Server.JStr "Bob") 1])]
              [(0, Server.mkConn (Server.JStr "R") (Some NetProps.annInfo));
               (1, Server.mkConn (Server.JStr "R")
                     (Some (Server.mkPeerInfo 1 (Server.JStr "b") (Server.JStr "Bob") 1)))]
              2 in
  let mA := Mesh.mkState "a" "Ann" "R" (Some Mesh.OPEN)
              [("b", Mesh.mkPeer "b" "Bob" (mkPc (Some "answer") (Some "offer") []) None false 0)]
              ∅ 1 in
  let events := [Some "c1"; Some "c2"; None] in
  let s := Net.serve (fun _ => true) st 1 (sent (Net.gathering NetProps.bob "a" events)) in
  let rA := Mesh.handleSignals (fun _ => "offer") (fun _ => "answer") mA
              (Net.received (snd s) 0) in
  added (snd rA) = [(0, "c1"); (0, "c2")].
Proof.
  pose proof (candidates_are_relayed_and_applied_on_arrival
                (fun _ => "offer") (fun _ => "answer") (fun _ => true)
                (Server.mkState
                   [(Server.JStr "R",
                     [NetProps.annInfo;
                      Server.mkPeerInfo 1 (Server.JStr "b") (Server.JStr "Bob") 1])]
                   [(0, Server.mkConn (Server.JStr "R") (Some NetProps.annInfo));
                    (1, Server.mkConn (Server.JStr "R")
                          (Some (Server.mkPeerInfo 1 (Server.JStr "b") (Server.JStr "Bob") 1)))]
                   2)
                0 1 _ _ NetProps.annInfo
                (Mesh.mkState "a" "Ann" "R" (Some Mesh.OPEN)
                   [("b", Mesh.mkPeer "b" "Bob" (mkPc (Some "answer") (Some "offer") []) None
                            false 0)]
                   ∅ 1)
                NetProps.bob _ [Some "c1"; Some "c2"; None]
                eq_refl eq_refl eq_refl eq_refl eq_refl eq_refl ltac:(discriminate)) as H.
  cbn zeta in H. apply H.
Defined.

(** *** A socket closes *)

Section Closing.
Variable offerA : nat -> Sdp.
Variable answerA : nat -> Sdp.
Variable ready : Server.Socket -> bool.

(** X24. When the socket of one of two peers in a room closes, the
    server forgets the connection, keeps the room with the other peer alone,
    and sends that peer one [peer-left]; the other peer's manager, on
    reading it, closes the connection (and channel, if any) of the record it
    holds for the peer that left, removes that record and no other, reports
    the departure to the peer-leave callback, and sends nothing. The
    candidates it had queued stay queued. *)
Theorem closed_socket_removes_the_peer_at_the_other_end
    (st : Server.State) (wa wb : Server.Socket) (infoA infoB : Server.PeerInfo)
    (mA : Mesh.State) (pA : Mesh.PeerConnection) (room b nb : string) :
  JsMap.get (Server.conns st) wb = Some (Server.mkConn (Server.JStr room) (Some infoB)) ->
  room <> "" ->
  JsMap.get (Server.rooms st) (Server.JStr room) = Some [infoA; infoB] ->
  Server.obj infoA <> Server.obj infoB ->
  Server.ws infoA = wa -> ready wa = true ->
  Server.peerId infoB = Server.JStr b -> Server.peerName infoB = Server.JStr nb ->
  JsMap.get (Mesh.peers mA) b = Some pA ->
  let s := Server.onClose ready st wb in
  let rA := Mesh.handleSignals offerA answerA mA (Net.noticed (snd s) wa) in
  Net.noticed (snd s) wa = [Mesh.PeerLeft b nb] /\
  (forall w, w <> wa -> Net.noticed (snd s) w = []) /\
  JsMap.get (Server.conns (fst s)) wb = None /\
  JsMap.get (Server.rooms (fst s)) (Server.JStr room) = Some [infoA] /\
  JsMap.get (Mesh.peers (fst rA)) b = None /\
  (forall k, k <> b -> JsMap.get (Mesh.peers (fst rA)) k = JsMap.get (Mesh.peers mA) k) /\
  closed (snd rA) = closed (Mesh.closeHandles pA) /\
  In (Mesh.PcClose (Mesh.obj pA)) (snd rA) /\
  (Mesh.channel pA <> None -> In (Mesh.ChannelClose (Mesh.obj pA)) (snd rA)) /\
  In (Mesh.OnPeerLeave b nb) (snd rA) /\
  sent (snd rA) = [] /\
  Mesh.pendingCandidates (fst rA) = Mesh.pendingCandidates mA.
Proof.
  intros Hc Hroom0 Hroom Hobj <- Hready Hid Hname Hget. cbn zeta.
  assert (Es : Server.onClose ready st wb =
               (Server.mkState
                  (JsMap.alter (Server.set_delete (Server.obj infoB)) (Server.rooms st)
                               (Server.JStr room))
                  (JsMap.delete (Server.conns st) wb) (Server.nextObj st),
                [(Server.ws infoA, Server.PeerLeft (Server.JStr b) (Server.JStr nb))])).
  { unfold Server.onClose. rewrite Hc. cbn [Server.peerInfo Server.currentRoom Server.truthy].
    apply String.eqb_neq in Hroom0. rewrite Hroom0. cbn [negb andb].
    assert (Hhas : JsMap.has (Server.rooms st) (Server.JStr room) = true).
    { apply JsMapFacts.has_get. eauto. }
    rewrite Hhas. unfold Server.broadcastToRoom.
    rewrite JsMapFacts.get_alter_eq, Hroom. cbn [option_map Server.set_delete List.filter].
    rewrite Nat.eqb_refl, (proj2 (Nat.eqb_neq _ _) Hobj). cbn [negb List.filter map].
    rewrite bool_decide_eq_false_2 by discriminate.
    rewrite Hready, Hid, Hname. reflexivity. }
  rewrite Es. cbn [fst snd Server.conns Server.rooms].
  assert (En : Net.noticed [(Server.ws infoA, Server.PeerLeft (Server.JStr b) (Server.JStr nb))]
                 (Server.ws infoA) =
               [Mesh.PeerLeft b nb]).
  { cbn. now rewrite Nat.eqb_refl. }
  rewrite En. split; [reflexivity|].
  split.
  { intros w Hw. cbn. now rewrite (proj2 (Nat.eqb_neq (Server.ws infoA) w)) by congruence. }
  split; [apply JsMapFacts.get_delete_eq|].
  split.
  { rewrite JsMapFacts.get_alter_eq, Hroom. cbn.
    now rewrite Nat.eqb_refl, (proj2 (Nat.eqb_neq _ _) Hobj). }
  cbn [Mesh.handleSignals Mesh.handleSignal]. unfold Mesh.removePeer. rewrite Hget.
  cbn [fst snd Mesh.peers Mesh.set_peers Mesh.pendingCandidates].
  split; [apply JsMapFacts.get_delete_eq|].
  split; [intros k Hk; apply JsMapFacts.get_delete_ne; congruence|].
  split.
  { rewrite !MeshFactsMore.closed_app. cbn. now rewrite !app_nil_r. }
  split.
  { apply in_or_app. left. apply in_or_app. left. apply in_or_app. left.
    unfold Mesh.closeHandles. destruct (Mesh.channel pA); cbn; auto. }
  split.
  { intros Hch. apply in_or_app. left. apply in_or_app. left. apply in_or_app. left.
    unfold Mesh.closeHandles. destruct (Mesh.channel pA); [cbn; auto | now destruct Hch]. }
  split.
  { apply in_or_app. left. apply in_or_app. right. now left. }
  split; [|reflexivity].
  rewrite !MeshFactsMore.sent_app, MeshFactsMore.sent_closeHandles. reflexivity.
Qed.
End Closing.

Lemma closed_socket_removes_the_peer_at_the_other_end_witness :
  let bobInfo := Server.mkPeerInfo 1 (Server.JStr "b") (Server.JStr "Bob") 1 in
  let st := Server.mkState
              [(Server.JStr "R", [NetProps.annInfo; bobInfo])]
              [(0, Server.mkConn (Server.JStr "R") (Some NetProps.annInfo));
               (1, Server.mkConn (Server.JStr "R") (Some bobInfo))]
              2 in
  let mA := Mesh.mkState "a" "Ann" "R" (Some Mesh.OPEN)
              [("b", Mesh.mkPeer "b" "Bob" (mkPc (Some "answer") (Some "offer") []) None false 0)]
              ∅ 1 in
  let s := Server.onClose (fun _ => true) st 1 in
  let rA := Mesh.handleSignals (fun _ => "offer") (fun _ => "answer") mA
              (Net.noticed (snd s) 0) in
  Net.noticed (snd s) 0 = [Mesh.PeerLeft "b" "Bob"] /\
  JsMap.get (Mesh.peers (fst rA)) "b" = None.
Proof.
  pose proof (closed_socket_removes_the_peer_at_the_other_end
                (fun _ => "offer") (fun _ => "answer") (fun _ => true)
                (Server.mkState
                   [(Server.JStr "R",
                     [NetProps.annInfo;
                      Server.mkPeerInfo 1 (Server.JStr "b") (Server.JStr "Bob") 1])]
                   [(0, Server.mkConn (Server.JStr "R") (Some NetProps.annInfo));
                    (1, Server.mkConn (Server.JStr "R")
                          (Some (Server.mkPeerInfo 1 (Server.JStr "b") (Server.JStr "Bob") 1)))]
                   2)
                0 1 NetProps.annInfo
                (Server.mkPeerInfo 1 (Server.JStr "b") (Server.JStr "Bob") 1)
                (Mesh.mkState "a" "Ann" "R" (Some Mesh.OPEN)
                   [("b", Mesh.mkPeer "b" "Bob" (mkPc (Some "answer") (Some "offer") []) None
                            false 0)]
                   ∅ 1)
                _ "R" "b" "Bob"
                eq_refl ltac:(discriminate) eq_refl ltac:(discriminate) eq_refl eq_refl
                eq_refl eq_refl eq_refl) as H.
  cbn zeta in H |- *. split; apply H.
Defined.

End NetFacts.

(** ** The popup's room ids *)

Module PopupFacts.

Lemma upper_upper (c : ascii) : Popup.upper (Popup.upper c) = Popup.upper c.
Proof. destruct c as [[] [] [] [] [] [] [] []]; reflexivity. Qed.

Lemma isSpace_upper (c : ascii) : Popup.isSpace (Popup.upper c) = Popup.isSpace c.
Proof. destruct c as [[] [] [] [] [] [] [] []]; reflexivity. Qed.

Lemma toUpperCase_idem (s : string) :
  Popup.toUpperCase (Popup.toUpperCase s) = Popup.toUpperCase s.
Proof. induction s as [|c r IH]; cbn; [reflexivity|]. now rewrite upper_upper, IH. Qed.

Lemma trimStart_upper (s : string) :
  Popup.trimStart (Popup.toUpperCase s) = Popup.toUpperCase (Popup.trimStart s).
Proof.
  induction s as [|c r IH]; cbn; [reflexivity|].
  rewrite isSpace_upper. destruct (Popup.isSpace c); [exact IH | reflexivity].
Qed.

Lemma trimEnd_upper (s : string) :
  Popup.trimEnd (Popup.toUpperCase s) = Popup.toUpperCase (Popup.trimEnd s).
Proof.
  induction s as [|c r IH]; cbn [Popup.trimEnd Popup.toUpperCase]; [reflexivity|].
  rewrite IH. destruct (Popup.trimEnd r) as [|c' r']; cbn [Popup.toUpperCase].
  - rewrite isSpace_upper. now destruct (Popup.isSpace c).
  - reflexivity.
Qed.

Lemma trim_upper (s : string) :
  Popup.trim (Popup.toUpperCase s) = Popup.toUpperCase (Popup.trim s).
Proof. unfold Popup.trim. now rewrite trimStart_upper, trimEnd_upper. Qed.

Lemma trimEnd_idem (s : string) : Popup.trimEnd (Popup.trimEnd s) = Popup.trimEnd s.
Proof.
  induction s as [|c r IH]; [reflexivity|]. cbn [Popup.trimEnd].
  destruct (Popup.trimEnd r) as [|c' r'] eqn:E.
  - destruct (Popup.isSpace c) eqn:Ec; cbn; [reflexivity | now rewrite Ec].
  - cbn [Popup.trimEnd] in IH |- *. now rewrite IH.
Qed.

Lemma trimStart_head (s : string) :
  Popup.trimStart s = "" \/
  exists c r, Popup.trimStart s = String c r /\ Popup.isSpace c = false.
Proof.
  induction s as [|c r IH]; [now left|]. cbn.
  destruct (Popup.isSpace c) eqn:Ec; [exact IH | right; eauto].
Qed.

Lemma trimEnd_head (c : ascii) (r : string) :
  Popup.isSpace c = false -> exists r', Popup.trimEnd (String c r) = String c r'.
Proof.
  intros Ec. cbn [Popup.trimEnd]. destruct (Popup.trimEnd r); [rewrite Ec|]; eauto.
Qed.

Lemma trim_idem (s : string) : Popup.trim (Popup.trim s) = Popup.trim s.
Proof.
  unfold Popup.trim. destruct (trimStart_head s) as [->|(c & r & -> & Ec)]; [reflexivity|].
  destruct (trimEnd_head c r Ec) as [r' E]. rewrite E. cbn [Popup.trimStart]. rewrite Ec.
  rewrite <- E. apply trimEnd_idem.
Qed.

(** X22. The room id the popup joins with is in normal form: trimming
    or upper-casing it again changes nothing, so joining with the id as it
    was sent (the id the application shows) joins with that same id. Text
    that is blank after trimming joins nothing. [createRoom] joins the room
    of the text typed when that is not blank, and of the generated id
    otherwise, in each case as [joinRoom] would. (Room ids are ASCII.) *)
Theorem room_id_is_sent_in_normal_form
    (mgr : option Mesh.State) (room generated : string) :
  Popup.isAscii room = true ->
  Popup.isAscii generated = true ->
  let sentId := Popup.toUpperCase (Popup.trim room) in
  (Popup.trim sentId = sentId /\ Popup.toUpperCase sentId = sentId) /\
  Popup.joinRoom mgr sentId = Popup.joinRoom mgr room /\
  (Popup.trim room = "" -> Popup.joinRoom mgr room = (mgr, [])) /\
  (Popup.trim room <> "" ->
   PopupMore.createRoom mgr room generated = Popup.joinRoom mgr room) /\
  (Popup.trim room = "" ->
   PopupMore.createRoom mgr room generated = Popup.joinRoom mgr generated).
Proof.
  intros _ _. cbn zeta.
  assert (Ht : Popup.trim (Popup.toUpperCase (Popup.trim room)) =
               Popup.toUpperCase (Popup.trim room)).
  { now rewrite trim_upper, trim_idem. }
  split; [split; [exact Ht | apply toUpperCase_idem]|].
  split.
  { unfold Popup.joinRoom. rewrite Ht, toUpperCase_idem.
    destruct (Popup.trim room) as [|c r]; reflexivity. }
  split.
  { intros E. unfold Popup.joinRoom. now rewrite E. }
  split.
  - intros Hne. unfold PopupMore.createRoom. apply String.eqb_neq in Hne. rewrite Hne.
    unfold Popup.joinRoom. now rewrite trim_idem.
  - intros E. unfold PopupMore.createRoom. now rewrite E.
Qed.

Lemma room_id_is_sent_in_normal_form_witness :
  Popup.joinRoom (Some NetProps.bob) "AB12" = Popup.joinRoom (Some NetProps.bob) "  ab12 ".
Proof.
  apply (proj1 (proj2 (room_id_is_sent_in_normal_form (Some NetProps.bob) "  ab12 " "X7K2QA"
                         eq_refl eq_refl))).
Defined.

Example blank_text_and_blank_generated_id_join_nothing :
  PopupMore.createRoom (Some NetProps.bob) "   " "" = (Some NetProps.bob, []).
Proof. reflexivity. Qed.

End PopupFacts.

(** ** Handlers that overlap, and handlers in turn *)

Module MeshAsyncFacts.
Import Rtc MeshAsync.

Lemma with_pc_same (p : Mesh.PeerConnection) : Mesh.with_pc (fun c => c) p = p.
Proof. now destruct p. Qed.

Lemma mutate_untouched o f ps :
  (forall k p, In (k, p) ps -> Mesh.obj p <> o) -> Mesh.mutate o f ps = ps.
Proof.
  induction ps as [|[k0 p0] r IH]; intros Hne; [reflexivity|]. cbn.
  destruct (Nat.eqb_spec (Mesh.obj p0) o) as [Heq|_].
  - exfalso. apply (Hne k0 p0); [now left | exact Heq].
  - f_equal. apply IH. intros k p Hin. apply (Hne k p). now right.
Qed.

Lemma mutate_same o f ps : (forall p, f p = p) -> Mesh.mutate o f ps = ps.
Proof.
  intros Hf. induction ps as [|[k0 p0] r IH]; [reflexivity|]. cbn.
  rewrite Hf. f_equal; [now destruct (Nat.eqb (Mesh.obj p0) o) | exact IH].
Qed.

Lemma mutate_twice o f g ps :
  (forall p, Mesh.obj (g p) = Mesh.obj p) ->
  Mesh.mutate o f (Mesh.mutate o g ps) = Mesh.mutate o (fun p => f (g p)) ps.
Proof.
  intros Hobj. induction ps as [|[k0 p0] r IH]; [reflexivity|]. cbn.
  destruct (Nat.eqb (Mesh.obj p0) o) eqn:E; cbn.
  - rewrite Hobj, E. f_equal. exact IH.
  - rewrite E. f_equal. exact IH.
Qed.

Lemma mutate_alter o f ps k :
  owns ps k o -> Mesh.mutate o f ps = JsMap.alter f ps k.
Proof.
  intros (Hnd & (p & Hget & Hobj) & Hone).
  induction ps as [|[k0 p0] r IH]; [discriminate|]. cbn in *.
  apply NoDup_cons in Hnd as [Hnotin Hr].
  destruct (decide (k0 = k)) as [->|Hk].
  - injection Hget as ->. rewrite Hobj, Nat.eqb_refl. f_equal.
    apply mutate_untouched. intros k' p' Hin Ho.
    apply Hnotin. rewrite list_elem_of_In. apply in_map_iff. exists (k', p').
    split; [|exact Hin]. cbn. apply (Hone k' p'); [now right | exact Ho].
  - destruct (Nat.eqb_spec (Mesh.obj p0) o) as [Heq|_].
    + exfalso. apply Hk. apply (Hone k0 p0); [now left | exact Heq].
    + f_equal. apply IH; [exact Hr | exact Hget |].
      intros k' p' Hin. apply Hone. now right.
Qed.

Lemma mutate_set_fresh f ps k r :
  (forall k' p', In (k', p') ps -> Mesh.obj p' <> Mesh.obj r) ->
  Mesh.mutate (Mesh.obj r) f (JsMap.set ps k r) = JsMap.set ps k (f r).
Proof.
  induction ps as [|[k0 p0] rest IH]; intros Hne; cbn.
  - now rewrite Nat.eqb_refl.
  - destruct (decide (k0 = k)) as [->|Hk]; cbn.
    + rewrite Nat.eqb_refl. f_equal. apply mutate_untouched.
      intros k' p' Hin. apply (Hne k' p'). now right.
    + destruct (Nat.eqb_spec (Mesh.obj p0) (Mesh.obj r)) as [Heq|_].
      * exfalso. apply (Hne k0 p0); [now left | exact Heq].
      * f_equal. apply IH. intros k' p' Hin. apply (Hne k' p'). now right.
Qed.

Lemma owns_alter f ps k o :
  owns ps k o -> owns (JsMap.alter (Mesh.with_pc f) ps k) k o.
Proof.
  intros (Hnd & (p & Hget & Hobj) & Hone). split; [|split].
  - now rewrite JsMapFacts.keys_alter.
  - exists (Mesh.with_pc f p). rewrite JsMapFacts.get_alter_eq, Hget. now split.
  - intros k' p' Hin Ho.
    apply JsMapFacts.In_alter in Hin as [Hin|[-> _]]; [|reflexivity].
    now apply (Hone k' p').
Qed.

Lemma onObject_alter o f st k :
  owns (Mesh.peers st) k o ->
  onObject o f st = Mesh.set_peers st (JsMap.alter (Mesh.with_pc f) (Mesh.peers st) k).
Proof.
  intros Ho. unfold onObject. f_equal. now apply mutate_alter.
Qed.

Lemma identified_owns st k p :
  identified st -> JsMap.get (Mesh.peers st) k = Some p -> owns (Mesh.peers st) k (Mesh.obj p).
Proof.
  intros (Hnd & _ & Hd) Hget. split; [exact Hnd|]. split; [now exists p|].
  intros k' p' Hin Ho. apply (Hd k' p' k p); [exact Hin | now apply JsMapFacts.get_In | exact Ho].
Qed.

Lemma skipn_cons_nth {A} (l : list A) : forall i c r,
  skipn i l = c :: r -> nth_error l i = Some c /\ skipn (S i) l = r.
Proof.
  induction l as [|x l IH]; intros [|i] c r H; cbn in *; try discriminate.
  - injection H as -> ->. now split.
  - now apply IH.
Qed.

Lemma skipn_nil_nth {A} (l : list A) : forall i, skipn i l = [] -> nth_error l i = None.
Proof.
  induction l as [|x l IH]; intros [|i] H; cbn in *; try discriminate; try reflexivity.
  now apply IH.
Qed.

Lemma content_onObject o f st pending : content (onObject o f st) pending = content st pending.
Proof. now destruct pending. Qed.

Section Async.
Variable createOffer : nat -> Sdp.
Variable createAnswer : nat -> Sdp.

Lemma settle_none n st : settle createOffer createAnswer n (mkA st []) = (mkA st [], []).
Proof. now destruct n. Qed.

Lemma settle_single m st k :
  settle createOffer createAnswer (S m) (mkA st [k]) =
  thenSettle createOffer createAnswer m (resume createOffer createAnswer st [] k).
Proof.
  cbn [settle waiting manager step nth_error]. unfold canComplete. cbn.
  unfold thenSettle.
  destruct (resume createOffer createAnswer st [] k) as [[[st1 others] next] eff].
  reflexivity.
Qed.

Lemma thenSettle_more (n : nat) st k eff :
  thenSettle createOffer createAnswer (S n) (st, [], Some k, eff) =
  (fst (thenSettle createOffer createAnswer n (resume createOffer createAnswer st [] k)),
   eff ++ snd (thenSettle createOffer createAnswer n (resume createOffer createAnswer st [] k))).
Proof.
  unfold thenSettle at 1.
  change ([] ++ option_list (Some k)) with [k].
  rewrite settle_single.
  now destruct (thenSettle createOffer createAnswer n (resume createOffer createAnswer st [] k)).
Qed.

Lemma thenSettle_done (n : nat) st eff :
  thenSettle createOffer createAnswer n (st, [], None, eff) = (mkA st [], eff).
Proof.
  unfold thenSettle. change ([] ++ option_list None) with (@nil Cont).
  rewrite settle_none. now rewrite app_nil_r.
Qed.

(** The loop over the queue, and what follows it, when no other handler
    runs. *)
Lemma loop_in_turn answering fromId o pending : forall rest i st n,
  skipn i (content st pending) = rest ->
  length rest + 2 <= n ->
  thenSettle createOffer createAnswer n
    (loop answering st [] fromId o pending i) =
  let st' :=
    Mesh.set_pending
      (onObject o (fun c => fold_left (fun c x => addIceCandidate x c) rest c) st)
      (base.delete fromId (Mesh.pendingCandidates st)) in
  if answering then
    (mkA (onObject o (setLocalDescription (createAnswer o)) st') [],
     map (Mesh.AddIceCandidate o) rest
     ++ [Mesh.CreateAnswer o; Mesh.SetLocalDescription o (createAnswer o)]
     ++ Mesh.send st (Mesh.Answer (Mesh.peerId st) (Mesh.peerName st) fromId (createAnswer o)))
  else (mkA st' [], map (Mesh.AddIceCandidate o) rest).
Proof.
  induction rest as [|c r IH]; intros i st n Hskip Hn.
  - apply skipn_nil_nth in Hskip. unfold loop. rewrite Hskip. cbn zeta.
    assert (Hsame : onObject o (fun c => fold_left (fun c x => addIceCandidate x c) [] c) st = st).
    { unfold onObject. cbn [fold_left]. rewrite mutate_same by apply with_pc_same.
      now destruct st. }
    rewrite Hsame.
    assert (Hothers : match Mesh.pendingCandidates st !! fromId with
                      | Some arr => map (detach fromId arr) []
                      | None => []
                      end = []) by now destruct (Mesh.pendingCandidates st !! fromId).
    rewrite Hothers.
    destruct n as [|[|n]]; [cbn in Hn; lia | cbn in Hn; lia |].
    destruct answering.
    + rewrite thenSettle_more. cbn [resume]. rewrite thenSettle_more. cbn [resume].
      rewrite thenSettle_done. reflexivity.
    + now rewrite thenSettle_done.
  - apply skipn_cons_nth in Hskip as [Hnth Hskip]. unfold loop at 1. rewrite Hnth.
    destruct n as [|n]; [cbn in Hn; lia|].
    rewrite thenSettle_more.
    assert (Hgo : resume createOffer createAnswer (onObject o (addIceCandidate c) st) []
                    ((if answering then OfferDrain else AnswerDrain) fromId o pending i) =
                  loop answering (onObject o (addIceCandidate c) st) [] fromId o pending (S i))
      by now destruct answering.
    rewrite Hgo.
    rewrite (IH (S i) (onObject o (addIceCandidate c) st) n);
      [|now rewrite content_onObject | cbn in Hn; lia].
    cbn zeta.
    assert (Htwice : onObject o (fun c0 => fold_left (fun c1 x => addIceCandidate x c1) r c0)
                       (onObject o (addIceCandidate c) st) =
                     onObject o (fun c0 => fold_left (fun c1 x => addIceCandidate x c1) (c :: r) c0) st).
    { unfold onObject. cbn [Mesh.peers Mesh.set_peers]. rewrite mutate_twice by reflexivity.
      reflexivity. }
    rewrite Htwice. destruct answering; reflexivity.
Qed.

Lemma connect_in_turn : forall members st n pre,
  (forall k p, In (k, p) (Mesh.peers st) -> Mesh.obj p < Mesh.nextObj st) ->
  2 * length members <= n ->
  thenSettle createOffer createAnswer n
    (let '(st1, next, eff) := connectNext st members in (st1, [], next, pre ++ eff)) =
  (mkA (fst (Mesh.connectAll createOffer st members)) [],
   pre ++ snd (Mesh.connectAll createOffer st members)).
Proof.
  induction members as [|[pid pname] rest IH]; intros st n pre Hlt Hn.
  - cbn [connectNext Mesh.connectAll fst snd]. now rewrite thenSettle_done.
  - destruct n as [|[|n]]; [cbn in Hn; lia | cbn in Hn; lia |].
    cbn [connectNext]. rewrite thenSettle_more. cbn [resume].
    rewrite thenSettle_more. cbn [resume].
    set (o := Mesh.nextObj st).
    set (fresh := Mesh.mkPeer pid pname (mkPc None None []) (Some ChConnecting) false o).
    set (stA := Mesh.mkState (Mesh.peerId st) (Mesh.peerName st) (Mesh.roomId st) (Mesh.ws st)
                  (JsMap.set (Mesh.peers st) pid fresh) (Mesh.pendingCandidates st) (S o)).
    assert (Hst : onObject o (setLocalDescription (createOffer o)) stA =
                  fst (fst (Mesh.createPeerConnection createOffer st pid pname true))).
    { assert (Hmut : Mesh.mutate o (Mesh.with_pc (setLocalDescription (createOffer o)))
                       (JsMap.set (Mesh.peers st) pid fresh) =
                     JsMap.set (Mesh.peers st) pid
                       (Mesh.with_pc (setLocalDescription (createOffer o)) fresh)).
      { apply (mutate_set_fresh _ _ _ fresh).
        intros k' p' Hin. specialize (Hlt k' p' Hin). cbn. fold o in Hlt. lia. }
      unfold onObject. subst stA. cbn [Mesh.peers Mesh.set_peers]. rewrite Hmut.
      reflexivity. }
    rewrite Hst.
    specialize (IH (fst (fst (Mesh.createPeerConnection createOffer st pid pname true))) n
                   (Mesh.send stA (Mesh.Offer (Mesh.peerId stA) (Mesh.peerName stA) pid
                                     (createOffer o)))).
    rewrite IH.
    + cbn [Mesh.connectAll].
      destruct (Mesh.connectAll createOffer
                  (fst (fst (Mesh.createPeerConnection createOffer st pid pname true))) rest)
        as [st2 eff2] eqn:E.
      unfold Mesh.createPeerConnection in *. cbn in E |- *. rewrite E. cbn.
      rewrite <- !app_assoc. reflexivity.
    + intros k p Hin. unfold Mesh.createPeerConnection in Hin. cbn in Hin.
      apply JsMapFacts.In_set in Hin as [[_ ->]|Hin]; cbn; [lia|].
      specialize (Hlt k p Hin). lia.
    + cbn in Hn. lia.
Qed.

Lemma offer_in_turn st fromId fromName offer :
  identified st ->
  forall n, length (ManagerProps.queue st fromId) + 3 <= n ->
  thenSettle createOffer createAnswer n
    (let '(st1, next, eff) := deliver createOffer createAnswer st (Mesh.SOffer fromId fromName offer) in
     (st1, [], next, eff)) =
  (mkA (fst (Mesh.handleOffer createOffer createAnswer st fromId fromName offer)) [],
   snd (Mesh.handleOffer createOffer createAnswer st fromId fromName offer)).
Proof.
  intros Hid n Hn. cbn [deliver]. unfold Mesh.handleOffer.
  assert (Hpre : exists st1 peer eff1,
            match JsMap.get (Mesh.peers st) fromId with
            | Some peer => (st, peer, [])
            | None => Mesh.createPeerConnection createOffer st fromId fromName false
            end = (st1, peer, eff1) /\
            owns (Mesh.peers st1) fromId (Mesh.obj peer) /\
            Mesh.pendingCandidates st1 = Mesh.pendingCandidates st /\
            Mesh.ws st1 = Mesh.ws st /\ Mesh.peerId st1 = Mesh.peerId st /\
            Mesh.peerName st1 = Mesh.peerName st).
  { destruct (JsMap.get (Mesh.peers st) fromId) as [peer|] eqn:Hget.
    - exists st, peer, []. split; [reflexivity|].
      split; [now apply identified_owns | repeat split].
    - eexists _, _, _. split; [reflexivity|]. cbn. split; [|repeat split].
      split; [|split].
      + apply JsMapFacts.keys_set_NoDup, Hid.
      + eexists. split; [apply JsMapFacts.get_set_eq | reflexivity].
      + intros k' p' Hin Ho. apply JsMapFacts.In_set in Hin as [[-> _]|Hin]; [reflexivity|].
        destruct Hid as (_ & Hlt & _). specialize (Hlt k' p' Hin). cbn in Ho. lia. }
  destruct Hpre as (st1 & peer & eff1 & -> & Hown & Hq & Hws & Hme & Hname).
  set (o := Mesh.obj peer) in *.
  destruct n as [|n]; [lia|]. rewrite thenSettle_more. cbn [resume].
  set (st2 := onObject o (setRemoteDescription offer) st1).
  assert (Hst2 : st2 = Mesh.set_peers st1
                   (JsMap.alter (Mesh.with_pc (setRemoteDescription offer)) (Mesh.peers st1) fromId))
    by now apply onObject_alter.
  assert (Hown2 : owns (Mesh.peers st2) fromId o).
  { rewrite Hst2. cbn [Mesh.peers Mesh.set_peers]. now apply owns_alter. }
  rewrite (loop_in_turn true fromId o (lookupPending st2 fromId)
             (ManagerProps.queue st fromId) 0 st2 n).
  - cbn zeta. cbn [fst snd]. unfold Mesh.drain.
    rewrite <- Hst2.
    replace (default [] (Mesh.pendingCandidates st2 !! fromId)) with (ManagerProps.queue st fromId)
      by (unfold ManagerProps.queue; now rewrite <- Hq).
    set (q := ManagerProps.queue st fromId).
    set (F := fun c => fold_left (fun c x => addIceCandidate x c) q c).
    rewrite (onObject_alter o F st2 fromId Hown2).
    set (st3 := Mesh.set_pending _ _).
    assert (Hown3 : owns (Mesh.peers st3) fromId o).
    { subst st3. cbn [Mesh.peers Mesh.set_peers Mesh.set_pending]. now apply owns_alter. }
    rewrite (onObject_alter o _ st3 fromId Hown3).
    cbn [fst snd]. f_equal. unfold Mesh.send. rewrite Hst2. cbn [Mesh.ws Mesh.peerId Mesh.peerName Mesh.set_peers].
    rewrite Hws, Hme, Hname. rewrite <- !app_assoc. reflexivity.
  - cbn [skipn]. unfold lookupPending, content, ManagerProps.queue.
    replace (Mesh.pendingCandidates st2) with (Mesh.pendingCandidates st)
      by (rewrite Hst2; cbn; now rewrite Hq).
    destruct (Mesh.pendingCandidates st !! fromId) as [l|] eqn:E; cbn; rewrite ?E; reflexivity.
  - lia.
Qed.

Lemma answer_in_turn st fromId answer :
  identified st ->
  forall n, length (ManagerProps.queue st fromId) + 3 <= n ->
  thenSettle createOffer createAnswer n
    (let '(st1, next, eff) := deliver createOffer createAnswer st (Mesh.SAnswer fromId answer) in
     (st1, [], next, eff)) =
  (mkA (fst (Mesh.handleAnswer st fromId answer)) [],
   snd (Mesh.handleAnswer st fromId answer)).
Proof.
  intros Hid n Hn. cbn [deliver]. unfold Mesh.handleAnswer.
  destruct (JsMap.get (Mesh.peers st) fromId) as [peer|] eqn:Hget;
    [|now rewrite thenSettle_done].
  pose proof (identified_owns st fromId peer Hid Hget) as Hown.
  set (o := Mesh.obj peer) in *.
  destruct n as [|n]; [lia|]. rewrite thenSettle_more. cbn [resume].
  set (st2 := onObject o (setRemoteDescription answer) st).
  assert (Hst2 : st2 = Mesh.set_peers st
                   (JsMap.alter (Mesh.with_pc (setRemoteDescription answer)) (Mesh.peers st) fromId))
    by now apply onObject_alter.
  assert (Hown2 : owns (Mesh.peers st2) fromId o).
  { rewrite Hst2. cbn [Mesh.peers Mesh.set_peers]. now apply owns_alter. }
  rewrite (loop_in_turn false fromId o (lookupPending st2 fromId)
             (ManagerProps.queue st fromId) 0 st2 n).
  - cbn zeta. cbn [fst snd]. unfold Mesh.drain.
    rewrite <- Hst2.
    replace (default [] (Mesh.pendingCandidates st2 !! fromId)) with (ManagerProps.queue st fromId)
      by (unfold ManagerProps.queue; now rewrite Hst2).
    set (q := ManagerProps.queue st fromId).
    set (F := fun c => fold_left (fun c x => addIceCandidate x c) q c).
    rewrite (onObject_alter o F st2 fromId Hown2).
    reflexivity.
  - unfold lookupPending, content, ManagerProps.queue.
    replace (Mesh.pendingCandidates st2) with (Mesh.pendingCandidates st)
      by now rewrite Hst2.
    destruct (Mesh.pendingCandidates st !! fromId) as [l|] eqn:E; cbn; rewrite ?E; reflexivity.
  - lia.
Qed.

Lemma candidate_in_turn st fromId candidate :
  identified st ->
  forall n, 1 <= n ->
  thenSettle createOffer createAnswer n
    (let '(st1, next, eff) :=
       deliver createOffer createAnswer st (Mesh.SIceCandidate fromId candidate) in
     (st1, [], next, eff)) =
  (mkA (fst (Mesh.handleIceCandidate st fromId candidate)) [],
   snd (Mesh.handleIceCandidate st fromId candidate)).
Proof.
  intros Hid n Hn. cbn [deliver]. unfold Mesh.handleIceCandidate.
  destruct (JsMap.get (Mesh.peers st) fromId) as [peer|] eqn:Hget;
    [|now rewrite thenSettle_done].
  destruct (remoteDescription (Mesh.pc peer)); [|now rewrite thenSettle_done].
  destruct n as [|n]; [lia|]. rewrite thenSettle_more. cbn [resume].
  rewrite thenSettle_done. cbn [fst snd].
  rewrite (onObject_alter _ _ st fromId (identified_owns st fromId peer Hid Hget)).
  reflexivity.
Qed.

(** Deliveries needed by the handler of [s] in the state [st]. *)
Lemma signal_in_turn st s :
  identified st ->
  forall n, turns st s <= n ->
  thenSettle createOffer createAnswer n
    (let '(st1, next, eff) := deliver createOffer createAnswer st s in (st1, [], next, eff)) =
  (mkA (fst (Mesh.handleSignal createOffer createAnswer st s)) [],
   snd (Mesh.handleSignal createOffer createAnswer st s)).
Proof.
  intros Hid n Hn.
  destruct s as [room members|pid pname|pid pname|from fromName offer|from answer|from c|summary|];
    cbn [turns] in Hn.
  - cbn [deliver Mesh.handleSignal].
    pose proof (connect_in_turn members (Mesh.set_roomId st room) n
                  [Mesh.OnRoomJoined room members]) as H.
    destruct (connectNext (Mesh.set_roomId st room) members) as [[st1 next] eff].
    destruct (Mesh.connectAll createOffer (Mesh.set_roomId st room) members) as [st2 eff2].
    cbn [app fst snd] in H |- *. apply H; [apply Hid | exact Hn].
  - cbn [deliver Mesh.handleSignal]. now rewrite thenSettle_done.
  - cbn [deliver Mesh.handleSignal].
    destruct (Mesh.removePeer st pid) as [st1 eff]. now rewrite thenSettle_done.
  - now apply offer_in_turn.
  - now apply answer_in_turn.
  - now apply candidate_in_turn.
  - cbn [deliver Mesh.handleSignal]. now rewrite thenSettle_done.
  - cbn [deliver Mesh.handleSignal]. now rewrite thenSettle_done.
Qed.

Lemma identified_set st k kname :
  identified st ->
  identified (fst (fst (Mesh.createPeerConnection createOffer st k kname false))) /\
  identified (fst (fst (Mesh.createPeerConnection createOffer st k kname true))).
Proof.
  intros (Hnd & Hlt & Hd).
  split; (split; [|split]); cbn.
  1,4: now apply JsMapFacts.keys_set_NoDup.
  1,3: intros k' p' Hin; apply JsMapFacts.In_set in Hin as [[_ ->]|Hin];
       [cbn; lia | specialize (Hlt k' p' Hin); lia].
  all: intros k1 p1 k2 p2 H1 H2 Heq;
       apply JsMapFacts.In_set in H1 as [[-> ->]|H1];
       apply JsMapFacts.In_set in H2 as [[-> ->]|H2];
       [reflexivity
       | specialize (Hlt k2 p2 H2); cbn in Heq; lia
       | specialize (Hlt k1 p1 H1); cbn in Heq; lia
       | now apply (Hd k1 p1 k2 p2)].
Qed.

Lemma identified_same st st' :
  identified st ->
  NoDup (JsMap.keys (Mesh.peers st')) ->
  Mesh.nextObj st' = Mesh.nextObj st ->
  (forall k p', In (k, p') (Mesh.peers st') ->
     exists p, In (k, p) (Mesh.peers st) /\ Mesh.obj p' = Mesh.obj p) ->
  identified st'.
Proof.
  intros (Hnd & Hlt & Hd) Hnd' Hnext Hsub. split; [exact Hnd'|]. split.
  - intros k p' Hin. destruct (Hsub k p' Hin) as (p & Hp & ->). rewrite Hnext. eauto.
  - intros k1 p1 k2 p2 H1 H2 Heq.
    destruct (Hsub k1 p1 H1) as (q1 & Hq1 & E1).
    destruct (Hsub k2 p2 H2) as (q2 & Hq2 & E2).
    apply (Hd k1 q1 k2 q2); [assumption..|congruence].
Qed.

Lemma identified_alter st f k :
  identified st ->
  identified (Mesh.set_peers st (JsMap.alter (Mesh.with_pc f) (Mesh.peers st) k)).
Proof.
  intros Hid. apply (identified_same st); [exact Hid| |reflexivity|].
  - cbn [Mesh.peers Mesh.set_peers]. rewrite JsMapFacts.keys_alter. apply Hid.
  - intros k' p' Hin. cbn in Hin.
    apply JsMapFacts.In_alter in Hin as [Hin|[-> (v & Hv & ->)]]; [now exists p'|].
    now exists v.
Qed.

Lemma identified_pending st q : identified st -> identified (Mesh.set_pending st q).
Proof. intros Hid. exact Hid. Qed.

Lemma identified_connectAll members : forall st,
  identified st -> identified (fst (Mesh.connectAll createOffer st members)).
Proof.
  induction members as [|[k kname] rest IH]; intros st Hid; [exact Hid|].
  cbn [Mesh.connectAll].
  pose proof (proj2 (identified_set st k kname Hid)) as H1.
  destruct (Mesh.createPeerConnection createOffer st k kname true) as [[st1 p1] eff1].
  cbn [fst] in H1. specialize (IH st1 H1).
  now destruct (Mesh.connectAll createOffer st1 rest).
Qed.

Lemma identified_handleSignal st s :
  identified st -> identified (fst (Mesh.handleSignal createOffer createAnswer st s)).
Proof.
  intros Hid.
  destruct s as [room members|pid pname|pid pname|from fromName offer|from answer|from c|summary|];
    cbn [Mesh.handleSignal]; try exact Hid.
  - pose proof (identified_connectAll members (Mesh.set_roomId st room) Hid) as H.
    now destruct (Mesh.connectAll createOffer (Mesh.set_roomId st room) members).
  - unfold Mesh.removePeer. destruct (JsMap.get (Mesh.peers st) pid); [|exact Hid].
    cbn [fst]. apply (identified_same st); [exact Hid| |reflexivity|].
    + cbn [Mesh.peers Mesh.set_peers]. apply JsMapFacts.keys_delete_NoDup, Hid.
    + intros k p' Hin. cbn in Hin. apply JsMapFacts.In_delete in Hin as [Hin _]. now exists p'.
  - unfold Mesh.handleOffer.
    assert (Hpre : exists st1 peer eff1,
              match JsMap.get (Mesh.peers st) from with
              | Some peer => (st, peer, [])
              | None => Mesh.createPeerConnection createOffer st from fromName false
              end = (st1, peer, eff1) /\ identified st1).
    { destruct (JsMap.get (Mesh.peers st) from) as [peer|].
      - now exists st, peer, [].
      - pose proof (proj1 (identified_set st from fromName Hid)) as H.
        destruct (Mesh.createPeerConnection createOffer st from fromName false)
          as [[st1 p1] eff1]. now exists st1, p1, eff1. }
    destruct Hpre as (st1 & peer & eff1 & -> & Hid1). cbn [fst Mesh.drain].
    apply identified_alter. apply identified_pending.
    apply (identified_alter (Mesh.set_peers st1 _)). now apply identified_alter.
  - unfold Mesh.handleAnswer. destruct (JsMap.get (Mesh.peers st) from); [|exact Hid].
    cbn [fst Mesh.drain]. apply identified_pending.
    apply (identified_alter (Mesh.set_peers st _)). now apply identified_alter.
  - unfold Mesh.handleIceCandidate.
    destruct (JsMap.get (Mesh.peers st) from) as [peer|]; [|exact Hid].
    destruct (remoteDescription (Mesh.pc peer)); [|exact Hid].
    cbn [fst]. now apply identified_alter.
Qed.

Lemma inTurn_is_handleSignals_from signals : forall st n,
  identified st ->
  turnsAll createOffer createAnswer st signals <= n ->
  inTurn createOffer createAnswer n (mkA st []) signals =
  (mkA (fst (Mesh.handleSignals createOffer createAnswer st signals)) [],
   snd (Mesh.handleSignals createOffer createAnswer st signals)).
Proof.
  induction signals as [|s rest IH]; intros st n Hid Hn; [reflexivity|].
  cbn [inTurn Mesh.handleSignals turnsAll] in *.
  pose proof (signal_in_turn st s Hid n ltac:(lia)) as H.
  pose proof (identified_handleSignal st s Hid) as Hid1.
  cbn [step manager waiting].
  destruct (deliver createOffer createAnswer st s) as [[st1 next] eff1].
  unfold thenSettle in H.
  destruct (settle createOffer createAnswer n (mkA st1 ([] ++ option_list next))) as [a2 eff2].
  destruct (Mesh.handleSignal createOffer createAnswer st s) as [stS effS].
  cbn [fst snd] in H, Hid1, Hn. injection H as -> <-.
  rewrite (IH stS n Hid1) by lia.
  destruct (Mesh.handleSignals createOffer createAnswer stS rest) as [st3 eff3].
  cbn [fst snd]. now rewrite app_assoc.
Qed.

Lemma identified_handleSignals signals : forall st,
  identified st -> identified (fst (Mesh.handleSignals createOffer createAnswer st signals)).
Proof.
  induction signals as [|s rest IH]; intros st Hid; [exact Hid|].
  cbn [Mesh.handleSignals].
  pose proof (identified_handleSignal st s Hid) as H1.
  destruct (Mesh.handleSignal createOffer createAnswer st s) as [st1 eff1].
  specialize (IH st1 H1).
  now destruct (Mesh.handleSignals createOffer createAnswer st1 rest).
Qed.

End Async.

Lemma waitingForAnswer_identified : identified ManagerProps.waitingForAnswer.
Proof.
  split; [apply NoDup_singleton|]. split.
  - intros k p [H|[]]. injection H as <- <-. cbn. lia.
  - intros k1 p1 k2 p2 [H1|[]] [H2|[]] _. congruence.
Defined.

(** X25. When every handler has finished before the next message is
    delivered, the manager and the calls are those of
    [Mesh.handleSignals]. *)
Theorem handlers_in_turn_are_handleSignals
    (createOffer createAnswer : nat -> Sdp)
    (st : Mesh.State) (signals : list Mesh.Signal) (n : nat) :
  identified st ->
  turnsAll createOffer createAnswer st signals <= n ->
  inTurn createOffer createAnswer n (mkA st []) signals =
  (mkA (fst (Mesh.handleSignals createOffer createAnswer st signals)) [],
   snd (Mesh.handleSignals createOffer createAnswer st signals)).
Proof. intros Hid Hn. now apply inTurn_is_handleSignals_from. Qed.

Lemma handlers_in_turn_are_handleSignals_witness :
  let createOffer := fun _ : nat => "offer" in
  let createAnswer := fun _ : nat => "answer" in
  let signals := ManagerProps.heardWhileWaiting ++ [Mesh.SAnswer "a" "answer"] in
  inTurn createOffer createAnswer 6 (mkA ManagerProps.waitingForAnswer []) signals =
  (mkA (fst (Mesh.handleSignals createOffer createAnswer ManagerProps.waitingForAnswer signals)) [],
   snd (Mesh.handleSignals createOffer createAnswer ManagerProps.waitingForAnswer signals)).
Proof.
  apply (handlers_in_turn_are_handleSignals (fun _ => "offer") (fun _ => "answer")
           ManagerProps.waitingForAnswer
           (ManagerProps.heardWhileWaiting ++ [Mesh.SAnswer "a" "answer"]) 6).
  - exact waitingForAnswer_identified.
  - vm_compute. lia.
Defined.

(** X26. Take a peer [pid] with no remote description applied, and signals
    none of which is an offer or an answer from [pid], each handled before
    the next is delivered. Every candidate from [pid] among them is put at
    the end of the queue of [pid]. When an offer from [pid] is delivered
    then, or an answer while [pid] has a record, and no other message is
    delivered before its handler has finished, the handler calls
    [setRemoteDescription] and then [addIceCandidate] once for each queued
    candidate, in arrival order, on the connection of the record; the
    connection holds them once each and the queue of [pid] is gone. *)
Theorem queued_candidates_are_applied_once_in_order_in_turn
    (createOffer createAnswer : nat -> Sdp)
    (st : Mesh.State) (pid : string) (signals : list Mesh.Signal) (n : nat) :
  identified st ->
  ManagerProps.unsettled st pid ->
  forallb (ManagerProps.quiet pid) signals = true ->
  turnsAll createOffer createAnswer st signals <= n ->
  let a1 := fst (inTurn createOffer createAnswer n (mkA st []) signals) in
  let arrived := ManagerProps.queue st pid ++ ManagerProps.candidatesFrom pid signals in
  waiting a1 = [] /\
  ManagerProps.queue (manager a1) pid = arrived /\
  (forall fromName offer m,
     length arrived + 3 <= m ->
     let res := inTurn createOffer createAnswer m a1 [Mesh.SOffer pid fromName offer] in
     exists p pre,
       waiting (fst res) = [] /\
       JsMap.get (Mesh.peers (manager (fst res))) pid = Some p /\
       remoteDescription (Mesh.pc p) = Some offer /\
       candidates (Mesh.pc p) = arrived /\
       Mesh.pendingCandidates (manager (fst res)) !! pid = None /\
       ManagerProps.added pre = [] /\
       snd res =
         pre ++ Mesh.SetRemoteDescription (Mesh.obj p) offer
             :: map (Mesh.AddIceCandidate (Mesh.obj p)) arrived
             ++ [Mesh.CreateAnswer (Mesh.obj p);
                 Mesh.SetLocalDescription (Mesh.obj p) (createAnswer (Mesh.obj p))]
             ++ Mesh.send (manager a1)
                  (Mesh.Answer (Mesh.peerId (manager a1)) (Mesh.peerName (manager a1)) pid
                     (createAnswer (Mesh.obj p)))) /\
  (forall answer peer m,
     JsMap.get (Mesh.peers (manager a1)) pid = Some peer ->
     length arrived + 3 <= m ->
     let res := inTurn createOffer createAnswer m a1 [Mesh.SAnswer pid answer] in
     exists p,
       waiting (fst res) = [] /\
       JsMap.get (Mesh.peers (manager (fst res))) pid = Some p /\
       Mesh.obj p = Mesh.obj peer /\
       remoteDescription (Mesh.pc p) = Some answer /\
       candidates (Mesh.pc p) = arrived /\
       Mesh.pendingCandidates (manager (fst res)) !! pid = None /\
       snd res =
         Mesh.SetRemoteDescription (Mesh.obj p) answer
         :: map (Mesh.AddIceCandidate (Mesh.obj p)) arrived).
Proof.
  intros Hid Hu Hq Hn. cbn zeta.
  rewrite (inTurn_is_handleSignals_from createOffer createAnswer signals st n Hid Hn).
  cbn [fst waiting manager].
  destruct (ManagerFacts.quiet_signals createOffer createAnswer signals st pid Hu Hq)
    as [Hu1 Hq1].
  pose proof (identified_handleSignals createOffer createAnswer signals st Hid) as Hid1.
  set (st1 := fst (Mesh.handleSignals createOffer createAnswer st signals)) in *.
  split; [reflexivity|]. split; [exact Hq1|]. split.
  - intros fromName offer m Hm.
    rewrite (inTurn_is_handleSignals_from createOffer createAnswer _ st1 m Hid1)
      by (cbn [turnsAll turns]; rewrite Hq1; lia).
    cbn [Mesh.handleSignals Mesh.handleSignal].
    destruct (ManagerFacts.handleOffer_trace createOffer createAnswer st1 pid fromName offer Hu1)
      as (p & pre & Hget & Hrd & Hcs & Hnone & Hpre & Heff).
    destruct (Mesh.handleOffer createOffer createAnswer st1 pid fromName offer) as [st2 eff2].
    cbn [fst snd waiting manager] in *. exists p, pre.
    rewrite app_nil_r, Heff, <- Hq1, Hcs. auto 10.
  - intros answer peer m Hget Hm.
    rewrite (inTurn_is_handleSignals_from createOffer createAnswer _ st1 m Hid1)
      by (cbn [turnsAll turns]; rewrite Hq1; lia).
    cbn [Mesh.handleSignals Mesh.handleSignal].
    destruct (ManagerFacts.handleAnswer_trace st1 pid answer peer Hu1 Hget)
      as (p & Hp & Hobj & Hrd & Hcs & Hnone & Heff).
    destruct (Mesh.handleAnswer st1 pid answer) as [st2 eff2].
    cbn [fst snd waiting manager] in *. exists p.
    rewrite app_nil_r, Heff, <- Hq1, Hcs. auto 10.
Qed.

Lemma queued_candidates_are_applied_once_in_order_in_turn_witness :
  let createOffer := fun _ : nat => "offer" in
  let createAnswer := fun _ : nat => "answer" in
  let a1 := fst (inTurn createOffer createAnswer 1 (mkA ManagerProps.waitingForAnswer [])
                   ManagerProps.heardWhileWaiting) in
  let arrived := ["c0"; "c1"; "c2"] in
  waiting a1 = [] /\
  ManagerProps.queue (manager a1) "a" = arrived /\
  (forall fromName offer m,
     length arrived + 3 <= m ->
     let res := inTurn createOffer createAnswer m a1 [Mesh.SOffer "a" fromName offer] in
     exists p pre,
       waiting (fst res) = [] /\
       JsMap.get (Mesh.peers (manager (fst res))) "a" = Some p /\
       remoteDescription (Mesh.pc p) = Some offer /\
       candidates (Mesh.pc p) = arrived /\
       Mesh.pendingCandidates (manager (fst res)) !! "a" = None /\
       ManagerProps.added pre = [] /\
       snd res =
         pre ++ Mesh.SetRemoteDescription (Mesh.obj p) offer
             :: map (Mesh.AddIceCandidate (Mesh.obj p)) arrived
             ++ [Mesh.CreateAnswer (Mesh.obj p);
                 Mesh.SetLocalDescription (Mesh.obj p) (createAnswer (Mesh.obj p))]
             ++ Mesh.send (manager a1)
                  (Mesh.Answer (Mesh.peerId (manager a1)) (Mesh.peerName (manager a1)) "a"
                     (createAnswer (Mesh.obj p)))) /\
  (forall answer peer m,
     JsMap.get (Mesh.peers (manager a1)) "a" = Some peer ->
     length arrived + 3 <= m ->
     let res := inTurn createOffer createAnswer m a1 [Mesh.SAnswer "a" answer] in
     exists p,
       waiting (fst res) = [] /\
       JsMap.get (Mesh.peers (manager (fst res))) "a" = Some p /\
       Mesh.obj p = Mesh.obj peer /\
       remoteDescription (Mesh.pc p) = Some answer /\
       candidates (Mesh.pc p) = arrived /\
       Mesh.pendingCandidates (manager (fst res)) !! "a" = None /\
       snd res =
         Mesh.SetRemoteDescription (Mesh.obj p) answer
         :: map (Mesh.AddIceCandidate (Mesh.obj p)) arrived).
Proof.
  apply (queued_candidates_are_applied_once_in_order_in_turn
           (fun _ => "offer") (fun _ => "answer")
           ManagerProps.waitingForAnswer "a" ManagerProps.heardWhileWaiting 1).
  - exact waitingForAnswer_identified.
  - exact ManagerFacts.waitingForAnswer_unsettled.
  - reflexivity.
  - vm_compute. lia.
Defined.

(** C1. A manager joins a room that holds "a" and offers to it. An answer
    from "a", a candidate from "a" and an offer from "a" are then delivered
    before the [setRemoteDescription] of the answer has completed: the
    candidate is queued, and the loops of the two handlers both find it in
    the queue, which neither has deleted yet. It is handed to
    [addIceCandidate] twice. With the offer delivered after the handler of
    the answer has finished, it is handed over once. *)
Theorem overlapping_handlers_apply_a_queued_candidate_twice
    (createOffer createAnswer : nat -> Sdp) :
  let start := mkA ManagerProps.askedToOffer [] in
  let overlap := run createOffer createAnswer start answerAndOfferOverlap in
  let turn := run createOffer createAnswer start answerAndOfferInTurn in
  snd overlap =
    [Mesh.OnRoomJoined "R" [("a", "Ann")]; Mesh.NewPeerConnection 0;
     Mesh.CreateDataChannel 0; Mesh.CreateOffer 0;
     Mesh.SetLocalDescription 0 (createOffer 0);
     Mesh.WsSend (Mesh.Offer "me" "Me" "a" (createOffer 0));
     Mesh.SetRemoteDescription 0 "answer-a"; Mesh.SetRemoteDescription 0 "offer-a";
     Mesh.AddIceCandidate 0 "c0"; Mesh.AddIceCandidate 0 "c0";
     Mesh.CreateAnswer 0; Mesh.SetLocalDescription 0 (createAnswer 0);
     Mesh.WsSend (Mesh.Answer "me" "Me" "a" (createAnswer 0))] /\
  ManagerProps.added (snd overlap) = [(0, "c0"); (0, "c0")] /\
  waiting (fst overlap) = [] /\
  option_map (fun p => candidates (Mesh.pc p))
    (JsMap.get (Mesh.peers (manager (fst overlap))) "a") = Some ["c0"; "c0"] /\
  Mesh.pendingCandidates (manager (fst overlap)) !! "a" = None /\
  ManagerProps.added (snd turn) = [(0, "c0")] /\
  waiting (fst turn) = [] /\
  option_map (fun p => candidates (Mesh.pc p))
    (JsMap.get (Mesh.peers (manager (fst turn))) "a") = Some ["c0"].
Proof. cbn zeta. repeat split; vm_compute; reflexivity. Qed.

(** A candidate delivered while the loop awaits the first queued candidate
    is handed over before the second queued one. *)
Example candidate_overtakes_the_queue :
  ManagerProps.added
    (snd (run (fun _ => "offer") (fun _ => "answer") (mkA twoQueued []) candidateDuringDrain)) =
  [(0, "c0"); (0, "c2"); (0, "c1")].
Proof. vm_compute. reflexivity. Qed.

(** A candidate that was waiting when the answer and the offer came is
    handed over by both handlers. *)
Example waiting_candidate_is_drained_by_two_handlers :
  ManagerProps.added
    (snd (run (fun _ => "offer") (fun _ => "answer") (mkA ManagerProps.waitingForAnswer [])
            answerThenOffer)) =
  [(0, "c0"); (0, "c0")].
Proof. vm_compute. reflexivity. Qed.

(** An operation completes after the earlier calls on its connection. *)
Example completions_follow_the_calls :
  let a :=
    fst (run (fun _ => "offer") (fun _ => "answer") (mkA ManagerProps.waitingForAnswer [])
           [Deliver (Mesh.SAnswer "a" "answer-a"); Deliver (Mesh.SOffer "a" "Ann" "offer-a")]) in
  waiting a = [AnswerRemote "a" 0 "answer-a"; OfferRemote "a" 0 "offer-a"] /\
  step (fun _ => "offer") (fun _ => "answer") a (Complete 1) = (a, []).
Proof. vm_compute. split; reflexivity. Qed.

End MeshAsyncFacts.
